(** * The gateway core of smart-home: a shallow embedding and its properties

    The embedding follows the Go sources of the gateway:
    - [RateLimiter]: [middleware/rate_limiter.go] ([RateLimiter.Allow],
      [ClientLimiter.allow]);
    - [Processor]: the processors package ([ProxyRequest],
      [performHealthCheck], [checkAllServices], [GetMetrics],
      [updateRequestMetrics], [updateLatencyMetrics]);
    - [Handler]: [handlers/gateway_handler.go] ([Proxy], [isSystemHeader],
      [getUserID]);
    - [Auth]: [validateTokenViaRedis] of the middleware package.

    Part I holds the definitions, Part II the lemmas and theorems. *)

From Stdlib Require Import ZArith Lia Lqa QArith Qpower Floats.SpecFloat Ascii String.
From stdpp Require Import gmap strings list pretty.
Open Scope Z_scope.

(** * Part I: the embedding *)

(** ** Go's [int] and [int64]: 64-bit two's complement *)

Module GoInt.

Definition minInt : Z := - 2 ^ 63.
Definition maxInt : Z := 2 ^ 63 - 1.

(** Arithmetic on [int] wraps around silently. *)
Definition wrap (z : Z) : Z := (z + 2 ^ 63) mod 2 ^ 64 - 2 ^ 63.

Definition add (a b : Z) : Z := wrap (a + b).
Definition sub (a b : Z) : Z := wrap (a - b).

(** A value the range of [int] cuts off: [time.Time.Sub] saturates. *)
Definition saturate (z : Z) : Z := Z.max minInt (Z.min maxInt z).

End GoInt.

(** ** [float64]: IEEE 754 binary64, round to nearest even

    The operations are those of the Standard Library's specification of
    binary floating-point arithmetic at precision 53. *)

Module Float64.
Import GoInt.

Definition prec : Z := 53.
Definition emax : Z := 1024.
Definition float64 := spec_float.

Definition fadd : float64 -> float64 -> float64 := SFadd prec emax.
Definition fmul : float64 -> float64 -> float64 := SFmul prec emax.
Definition fdiv : float64 -> float64 -> float64 := SFdiv prec emax.

(** The conversion [float64(n)] of an integer. *)
Definition float64_of_int (z : Z) : float64 := binary_normalize prec emax z 0 false.

(** Go's conversion [int(f)]: the fraction is discarded (truncation toward
    zero).  For a value that [int] cannot hold Go leaves the result to the
    implementation; the embedding takes what amd64 produces there, the
    smallest [int]. *)
Definition int_of_float64 (f : float64) : Z :=
  match f with
  | S754_zero _ => 0
  | S754_finite s m e =>
      let a := Z.shiftl (Zpos m) e in
      let v := if s then - a else a in
      if (minInt <=? v) && (v <=? maxInt) then v else minInt
  | _ => minInt
  end.

Definition is_finite (f : float64) : bool :=
  match f with
  | S754_zero _ | S754_finite _ _ _ => true
  | _ => false
  end.

(** The constants [1e9] and [60.0] of the sources. *)
Definition f1e9 : float64 := S754_finite false 8388608000000000 (-23).
Definition f60 : float64 := S754_finite false 8444249301319680 (-47).

(** *** Dyadic values, for the error analysis of Part II *)

Definition val (m e : Z) : Q := (inject_Z m * 2 ^ e)%Q.

(** [fle f U]: [f] is a zero or a positive finite number of value at most [U]. *)
Definition fle (f : float64) (U : Q) : Prop :=
  match f with
  | S754_zero _ => (0 <= U)%Q
  | S754_finite false m e => (val (Zpos m) e <= U)%Q
  | _ => False
  end.

(** [fge f L]: [f] is a zero or a positive finite number of value at least [L]. *)
Definition fge (f : float64) (L : Q) : Prop :=
  match f with
  | S754_zero _ => (L <= 0)%Q
  | S754_finite false m e => (L <= val (Zpos m) e)%Q
  | _ => False
  end.

(** What [binary_round_aux] makes of the rounded mantissa and exponent. *)
Definition finish (s : bool) (m2 e2 : Z) : float64 :=
  match m2 with
  | Z0 => S754_zero s
  | Zpos p => if e2 <=? emax - prec then S754_finite s p e2 else S754_infinity s
  | Zneg _ => S754_nan
  end.

Definition eps : Q := (2 ^ (-52))%Q.
Definition eta : Q := (2 ^ (-1074))%Q.
Definition top : Q := (2 ^ (emax - prec))%Q.

End Float64.

(** ** Clock readings and durations ([time]) *)

Module Clock.
Import GoInt Float64.

(** A reading of the monotonic clock, and a [Duration]: nanoseconds. *)
Abbreviation Time := Z.

(** [time.Second] and [time.Millisecond]. *)
Definition Second : Z := 1000000000.
Definition Millisecond : Z := 1000000.

(** [now.Sub(u)]: the elapsed [Duration], saturated to [int64]. *)
Definition Sub (t u : Time) : Z := saturate (t - u).

(** [Duration.Seconds]: [float64(d / Second) + float64(d % Second) / 1e9]. *)
Definition Seconds (d : Z) : float64 :=
  let sec := Z.quot d Second in
  let nsec := Z.rem d Second in
  fadd (float64_of_int sec) (fdiv (float64_of_int nsec) f1e9).

(** [Duration.Milliseconds]. *)
Definition Milliseconds (d : Z) : Z := Z.quot d Millisecond.

End Clock.

(** ** The rate limiter ([middleware/rate_limiter.go]) *)

Module RateLimiter.
Import GoInt Float64 Clock.

Record ClientLimiter := mkClient {
  tokens : Z;
  lastRefill : Time
}.

(** The fields of [RateLimiter]; the map holds the records its pointers
    refer to, each owned by the map alone. *)
Record RateLimiter := mkLimiter {
  clients : gmap string ClientLimiter;
  rpm : Z;
  burst : Z
}.

(** [tokensToAdd := int(elapsed.Seconds() * float64(rpm) / 60.0)]. *)
Definition tokensToAdd (elapsed rpm : Z) : Z :=
  int_of_float64 (fdiv (fmul (Seconds elapsed) (float64_of_int rpm)) f60).

(** [ClientLimiter.allow], with [now] the reading [time.Now()] returns. *)
Definition allow (cl : ClientLimiter) (rpm burst : Z) (now : Time)
  : bool * ClientLimiter :=
  let elapsed := Sub now (lastRefill cl) in
  let refilled := add (tokens cl) (tokensToAdd elapsed rpm) in
  let capped := if burst <? refilled then burst else refilled in
  if 0 <? capped
  then (true, mkClient (sub capped 1) now)
  else (false, mkClient capped now).

(** The record [Allow] works on: the one in the table, or a new one holding
    [burst] tokens, stamped with the clock reading [created]. *)
Definition client_of (rl : RateLimiter) (clientID : string) (created : Time)
  : ClientLimiter :=
  match clients rl !! clientID with
  | Some client => client
  | None => mkClient (burst rl) created
  end.

(** [RateLimiter.Allow].  [created] is the clock reading taken when the
    record is made (unused for a known client), [now] the one [allow] takes. *)
Definition Allow (rl : RateLimiter) (clientID : string) (created now : Time)
  : bool * RateLimiter :=
  let '(ok, client) := allow (client_of rl clientID created) (rpm rl) (burst rl) now in
  (ok, mkLimiter (<[clientID := client]> (clients rl)) (rpm rl) (burst rl)).

(** A sequence of calls of one client; each call comes with its two clock
    readings. *)
Fixpoint run (rl : RateLimiter) (clientID : string) (clock : list (Time * Time))
  : list bool * RateLimiter :=
  match clock with
  | [] => ([], rl)
  | (created, now) :: rest =>
      let '(ok, rl1) := Allow rl clientID created now in
      let '(oks, rl2) := run rl1 clientID rest in
      (ok :: oks, rl2)
  end.

(** The clock readings of calls separated by the given gaps, the first gap
    counted from [start]; every call takes one reading for both its uses. *)
Fixpoint readings (start : Time) (gaps : list Z) : list (Time * Time) :=
  match gaps with
  | [] => []
  | g :: rest => (start + g, start + g) :: readings (start + g) rest
  end.

(** The first [n] gaps of an unending sequence of calls. *)
Definition prefix (gap : nat -> Z) (n : nat) : list Z := map gap (seq 0 n).

(** Rates that divide a minute into a whole number of nanoseconds are the
    divisors of [60 * Second]. *)
Definition period : Z := 60 * Second.

Fixpoint divisor_pairs (fuel : nat) (k n : Z) : list Z :=
  match fuel with
  | O => []
  | S fuel' =>
      (if n mod k =? 0 then [k; n / k] else []) ++ divisor_pairs fuel' (k + 1) n
  end.

Definition divisors (n : Z) : list Z := divisor_pairs (Z.to_nat (Z.sqrt n)) 1 n.

(** Rates whose exact period the [float64] product rounds to just below one
    token. *)
Definition rounding_exceptions : list Z :=
  [3125; 6250; 12500; 25000; 50000; 100000; 200000; 400000; 800000; 1600000;
   1953125; 3200000; 3906250; 6400000; 7812500; 15625000; 31250000; 62500000;
   125000000; 250000000; 500000000; 1000000000; 2000000000; 4000000000].

Definition in_exceptions (r : Z) : bool := existsb (Z.eqb r) rounding_exceptions.

End RateLimiter.

(** ** Header names and header maps ([strings], [net/textproto], [net/http])

    Header names are strings of ASCII bytes. *)

Module Http.

Definition is_upper (c : ascii) : bool :=
  (65 <=? nat_of_ascii c)%nat && (nat_of_ascii c <=? 90)%nat.
Definition is_lower (c : ascii) : bool :=
  (97 <=? nat_of_ascii c)%nat && (nat_of_ascii c <=? 122)%nat.
Definition is_digit (c : ascii) : bool :=
  (48 <=? nat_of_ascii c)%nat && (nat_of_ascii c <=? 57)%nat.

Definition lower (c : ascii) : ascii :=
  if is_upper c then ascii_of_nat (nat_of_ascii c + 32) else c.
Definition upper (c : ascii) : ascii :=
  if is_lower c then ascii_of_nat (nat_of_ascii c - 32) else c.

(** [strings.ToLower]. *)
Fixpoint ToLower (s : string) : string :=
  match s with
  | EmptyString => EmptyString
  | String c rest => String (lower c) (ToLower rest)
  end.

(** The bytes of an HTTP token: letters, digits and
    [! # $ % & ' * + - . ^ _ ` | ~]. *)
Definition validHeaderFieldByte (c : ascii) : bool :=
  is_upper c || is_lower c || is_digit c ||
  existsb (Nat.eqb (nat_of_ascii c))
    [33; 35; 36; 37; 38; 39; 42; 43; 45; 46; 94; 95; 96; 124; 126]%nat.

Fixpoint all_bytes (p : ascii -> bool) (s : string) : bool :=
  match s with
  | EmptyString => true
  | String c rest => p c && all_bytes p rest
  end.

(** The loop of [canonicalMIMEHeaderKey]: upper case at the start and after
    each dash, lower case elsewhere. *)
Fixpoint canonical_from (up : bool) (s : string) : string :=
  match s with
  | EmptyString => EmptyString
  | String c rest =>
      let c' := if up then upper c else lower c in
      String c' (canonical_from (Ascii.eqb c' "-") rest)
  end.

(** [textproto.CanonicalMIMEHeaderKey]: a name that is not a token is
    returned as it is. *)
Definition CanonicalMIMEHeaderKey (s : string) : string :=
  if all_bytes validHeaderFieldByte s then canonical_from true s else s.

(** [Header.Set] on a header holding one value per name (every value of the
    outbound request is put there by [Set], which replaces what was there). *)
Definition Set_ (h : gmap string string) (key value : string) : gmap string string :=
  <[CanonicalMIMEHeaderKey key := value]> h.

(** [Header.Get] on a received header: the first value under the canonical
    name, or the empty string. *)
Definition Get (h : gmap string (list string)) (key : string) : string :=
  match h !! CanonicalMIMEHeaderKey key with
  | Some (v :: _) => v
  | _ => EmptyString
  end.

(** What a call of [ResponseWriter.WriteHeader] does: it sends the status
    line with the code it is given, or it panics, [checkWriteHeaderCode] of
    [net/http] refusing a code below 100 or above 999. *)
Inductive Written :=
  | Wrote (code : Z)
  | WriteHeaderPanic (code : Z).

Definition WriteHeader (code : Z) : Written :=
  if (code <? 100) || (999 <? code) then WriteHeaderPanic code else Wrote code.

End Http.

(** ** The processor: registry, health table and metrics

    The processor's maps and structs are reached through references, and
    several of them are shared ([performHealthCheck] stores one result in two
    maps, [GetMetrics] hands out a structure of its own), so they live in a
    heap of objects addressed by location. *)

Module Processor.
Import GoInt Float64 Clock.

(** [config.ServiceInfo]. *)
Record ServiceInfo := mkServiceInfo {
  URL : string;
  HealthCheck : string;
  Timeout : Z
}.

(** [models.HealthCheckResult]; [ProbeURL] is its field [URL]. *)
Record HealthCheckResult := mkHealthCheckResult {
  Service : string;
  Status : string;
  ProbeURL : string;
  Duration : Z;
  Error : string;
  Timestamp : Z
}.

(** [ServiceMetrics]. *)
Record ServiceMetrics := mkServiceMetrics {
  sTotalRequests : Z;
  sSuccessRequests : Z;
  sErrorRequests : Z;
  sAverageLatency : float64;
  LastRequest : Z
}.

(** Locations: indices into the heap. *)
Abbreviation loc := nat.

(** [GatewayMetrics]: the counters, and references to its two maps. *)
Record GatewayMetrics := mkGatewayMetrics {
  TotalRequests : Z;
  SuccessRequests : Z;
  ErrorRequests : Z;
  AverageLatency : float64;
  ServiceMetricsMap : loc;
  HealthStats : loc;
  StartTime : Z
}.

Inductive object :=
  | ObjServiceMetrics (m : ServiceMetrics)
  | ObjHealth (r : HealthCheckResult)
  | ObjMetricsMap (m : gmap string loc)
  | ObjHealthMap (m : gmap string loc)
  | ObjGatewayMetrics (g : GatewayMetrics).

Abbreviation heap := (list object).

(** The fields of [GatewayProcessor] the core uses. *)
Record GatewayProcessor := mkProcessor {
  services : gmap string ServiceInfo;
  healthStats : loc;
  metrics : loc
}.

(** *** Heap operations

    A computation threads the heap; [None] stands for the run-time panic of
    reaching through a reference that holds nothing of the expected type. *)

Definition M (A : Type) : Type := heap -> option (A * heap).

#[global] Instance M_ret : MRet M := fun A a h => Some (a, h).

#[global] Instance M_bind : MBind M := fun A B k c h =>
  match c h with
  | Some (a, h') => k a h'
  | None => None
  end.

(** Reading off the heap as it stands. *)
Definition inspect {A} (f : heap -> A) : M A := fun h => Some (f h, h).

Definition new (o : object) : M loc := fun h => Some (length h, h ++ [o]).

Definition write (l : loc) (o : object) : M unit :=
  fun h => if (l <? length h)%nat then Some (tt, <[l := o]> h) else None.

Definition readGatewayMetrics (l : loc) : M GatewayMetrics :=
  fun h => match h !! l with Some (ObjGatewayMetrics g) => Some (g, h) | _ => None end.

Definition readMetricsMap (l : loc) : M (gmap string loc) :=
  fun h => match h !! l with Some (ObjMetricsMap m) => Some (m, h) | _ => None end.

Definition readHealthMap (l : loc) : M (gmap string loc) :=
  fun h => match h !! l with Some (ObjHealthMap m) => Some (m, h) | _ => None end.

Definition readServiceMetrics (l : loc) : M ServiceMetrics :=
  fun h => match h !! l with Some (ObjServiceMetrics m) => Some (m, h) | _ => None end.

Definition readHealth (l : loc) : M HealthCheckResult :=
  fun h => match h !! l with Some (ObjHealth r) => Some (r, h) | _ => None end.

(** [m[key] = value] on the map at [l]. *)
Definition putMetricsMap (l : loc) (key : string) (value : loc) : M unit :=
  m ← readMetricsMap l; write l (ObjMetricsMap (<[key := value]> m)).

Definition putHealthMap (l : loc) (key : string) (value : loc) : M unit :=
  m ← readHealthMap l; write l (ObjHealthMap (<[key := value]> m)).

(** *** Construction *)

Definition zero : float64 := S754_zero false.

(** [NewGatewayProcessor]: the empty maps and the zeroed metrics. *)
Definition NewGatewayProcessor (startTime : Z) : M GatewayProcessor :=
  hs ← new (ObjHealthMap ∅);
  sm ← new (ObjMetricsMap ∅);
  hm ← new (ObjHealthMap ∅);
  g ← new (ObjGatewayMetrics (mkGatewayMetrics 0 0 0 zero sm hm startTime));
  mret (mkProcessor ∅ hs g).

(** One turn of the loop of [Start]: the service is entered in the registry
    with zeroed metrics. *)
Definition register (gp : GatewayProcessor) (name : string) (info : ServiceInfo)
  : M GatewayProcessor :=
  g ← readGatewayMetrics (metrics gp);
  c ← new (ObjServiceMetrics (mkServiceMetrics 0 0 0 zero 0));
  putMetricsMap (ServiceMetricsMap g) name c ;;
  mret (mkProcessor (<[name := info]> (services gp)) (healthStats gp) (metrics gp)).

Fixpoint registerAll (gp : GatewayProcessor) (entries : list (string * ServiceInfo))
  : M GatewayProcessor :=
  match entries with
  | [] => mret gp
  | (name, info) :: rest => gp' ← register gp name info; registerAll gp' rest
  end.

(** [Start], over the configured registry. *)
Definition Start (gp : GatewayProcessor) (registry : gmap string ServiceInfo)
  : M GatewayProcessor :=
  registerAll gp (map_to_list registry).

(** *** Metrics *)

Definition countRequest (g : GatewayMetrics) (success : bool) : GatewayMetrics :=
  mkGatewayMetrics
    (add (TotalRequests g) 1)
    (if success then add (SuccessRequests g) 1 else SuccessRequests g)
    (if success then ErrorRequests g else add (ErrorRequests g) 1)
    (AverageLatency g) (ServiceMetricsMap g) (HealthStats g) (StartTime g).

Definition countServiceRequest (m : ServiceMetrics) (success : bool) (now : Z)
  : ServiceMetrics :=
  mkServiceMetrics
    (add (sTotalRequests m) 1)
    (if success then add (sSuccessRequests m) 1 else sSuccessRequests m)
    (if success then sErrorRequests m else add (sErrorRequests m) 1)
    (sAverageLatency m) now.

(** The shape the two updates share: the metrics are rewritten by [fg],
    and those of the service, when it has any, by [fm]. *)
Definition updateMetrics (gp : GatewayProcessor) (service : string)
    (fg : GatewayMetrics -> GatewayMetrics) (fm : ServiceMetrics -> ServiceMetrics)
  : M unit :=
  g ← readGatewayMetrics (metrics gp);
  write (metrics gp) (ObjGatewayMetrics (fg g)) ;;
  sm ← readMetricsMap (ServiceMetricsMap g);
  match sm !! service with
  | Some l =>
      m ← readServiceMetrics l;
      write l (ObjServiceMetrics (fm m))
  | None => mret tt
  end.

(** [updateRequestMetrics]; [now] is the clock reading stored in
    [LastRequest]. *)
Definition updateRequestMetrics (gp : GatewayProcessor) (service : string)
    (success : bool) (now : Z) : M unit :=
  g ← readGatewayMetrics (metrics gp);
  write (metrics gp) (ObjGatewayMetrics (countRequest g success)) ;;
  sm ← readMetricsMap (ServiceMetricsMap g);
  match sm !! service with
  | Some l =>
      m ← readServiceMetrics l;
      write l (ObjServiceMetrics (countServiceRequest m success now))
  | None => mret tt
  end.

(** The running average of [updateLatencyMetrics]. *)
Definition average (avg : float64) (total : Z) (latencyMs : float64) : float64 :=
  if total =? 1 then latencyMs
  else fdiv (fadd (fmul avg (float64_of_int (sub total 1))) latencyMs)
            (float64_of_int total).

Definition withLatency (g : GatewayMetrics) (latencyMs : float64) : GatewayMetrics :=
  mkGatewayMetrics (TotalRequests g) (SuccessRequests g) (ErrorRequests g)
    (average (AverageLatency g) (TotalRequests g) latencyMs)
    (ServiceMetricsMap g) (HealthStats g) (StartTime g).

Definition withServiceLatency (m : ServiceMetrics) (latencyMs : float64) : ServiceMetrics :=
  mkServiceMetrics (sTotalRequests m) (sSuccessRequests m) (sErrorRequests m)
    (average (sAverageLatency m) (sTotalRequests m) latencyMs) (LastRequest m).

(** [updateLatencyMetrics]. *)
Definition updateLatencyMetrics (gp : GatewayProcessor) (service : string)
    (duration : Z) : M unit :=
  let latencyMs := float64_of_int (Milliseconds duration) in
  g ← readGatewayMetrics (metrics gp);
  write (metrics gp) (ObjGatewayMetrics (withLatency g latencyMs)) ;;
  sm ← readMetricsMap (ServiceMetricsMap g);
  match sm !! service with
  | Some l =>
      m ← readServiceMetrics l;
      write l (ObjServiceMetrics (withServiceLatency m latencyMs))
  | None => mret tt
  end.

(** The two copying loops of [GetMetrics], over the entries of the live
    map: each value is copied into a new object, entered in the map at
    [dst]. *)
Fixpoint copyServiceMetrics (dst : loc) (entries : list (string * loc)) : M unit :=
  match entries with
  | [] => mret tt
  | (service, l) :: rest =>
      m ← readServiceMetrics l;
      c ← new (ObjServiceMetrics
                     (mkServiceMetrics (sTotalRequests m) (sSuccessRequests m)
                        (sErrorRequests m) (sAverageLatency m) (LastRequest m)));
      putMetricsMap dst service c ;;
      copyServiceMetrics dst rest
  end.

Fixpoint copyHealthStats (dst : loc) (entries : list (string * loc)) : M unit :=
  match entries with
  | [] => mret tt
  | (service, l) :: rest =>
      r ← readHealth l;
      c ← new (ObjHealth r);
      putHealthMap dst service c ;;
      copyHealthStats dst rest
  end.

(** [GetMetrics]: the reference to the structure it returns. *)
Definition GetMetrics (gp : GatewayProcessor) : M loc :=
  g ← readGatewayMetrics (metrics gp);
  smNew ← new (ObjMetricsMap ∅);
  hmNew ← new (ObjHealthMap ∅);
  result ← new (ObjGatewayMetrics
                      (mkGatewayMetrics (TotalRequests g) (SuccessRequests g)
                         (ErrorRequests g) (AverageLatency g) smNew hmNew (StartTime g)));
  sm ← readMetricsMap (ServiceMetricsMap g);
  copyServiceMetrics smNew (map_to_list sm) ;;
  hm ← readHealthMap (HealthStats g);
  copyHealthStats hmNew (map_to_list hm) ;;
  mret result.

(** What a holder of the reference [r] to a [GatewayMetrics] reads through
    it: the counters, and the contents of the two maps. *)
Record MetricsView := mkView {
  vTotalRequests : Z;
  vSuccessRequests : Z;
  vErrorRequests : Z;
  vAverageLatency : float64;
  vStartTime : Z;
  vServiceMetrics : gmap string ServiceMetrics;
  vHealthStats : gmap string HealthCheckResult
}.

Definition serviceAt (h : heap) (l : loc) : option ServiceMetrics :=
  match h !! l with Some (ObjServiceMetrics m) => Some m | _ => None end.

Definition healthAt (h : heap) (l : loc) : option HealthCheckResult :=
  match h !! l with Some (ObjHealth r) => Some r | _ => None end.

Definition view (h : heap) (r : loc) : option MetricsView :=
  match h !! r with
  | Some (ObjGatewayMetrics g) =>
      match h !! ServiceMetricsMap g, h !! HealthStats g with
      | Some (ObjMetricsMap sm), Some (ObjHealthMap hm) =>
          Some (mkView (TotalRequests g) (SuccessRequests g) (ErrorRequests g)
                  (AverageLatency g) (StartTime g)
                  (omap (serviceAt h) sm) (omap (healthAt h) hm))
      | _, _ => None
      end
  | _ => None
  end.

(** The locations a holder of [r] reaches. *)
Definition reach (h : heap) (r : loc) : list loc :=
  match h !! r with
  | Some (ObjGatewayMetrics g) =>
      r :: ServiceMetricsMap g :: HealthStats g ::
      match h !! ServiceMetricsMap g, h !! HealthStats g with
      | Some (ObjMetricsMap sm), Some (ObjHealthMap hm) =>
          (map_to_list sm).*2 ++ (map_to_list hm).*2
      | _, _ => []
      end
  | _ => [r]
  end.

(** *** Health checks *)

(** What [httpClient.Do] returns for a probe: an error, or a response. *)
Inductive Reply :=
  | TransportError (e : string)
  | ProbeResponse (statusCode : Z).

(** What the libraries and the network make of one probe. *)
Inductive ProbeOutcome :=
  | BuildError (e : string)        (* [http.NewRequestWithContext] fails *)
  | Sent (reply : Reply).

Record Probe := mkProbe {
  outcome : ProbeOutcome;
  startedAt : Z;                   (* [startTime] *)
  took : Z                         (* [time.Since(startTime)] *)
}.

Definition probeResult (service : string) (info : ServiceInfo) (p : Probe)
    (reply : Reply) : HealthCheckResult :=
  match reply with
  | TransportError e =>
      mkHealthCheckResult service "unhealthy" (HealthCheck info) (took p) e (startedAt p)
  | ProbeResponse code =>
      if code =? 200
      then mkHealthCheckResult service "healthy" (HealthCheck info) (took p) "" (startedAt p)
      else mkHealthCheckResult service "unhealthy" (HealthCheck info) (took p)
             ("status code: " +:+ pretty code) (startedAt p)
  end.

(** [performHealthCheck]: the reference to the result, or the error it
    returns.  (The metrics event it publishes last touches no state.) *)
Definition performHealthCheck (gp : GatewayProcessor) (service : string)
    (info : ServiceInfo) (p : Probe) : M (loc + string) :=
  match outcome p with
  | BuildError e => mret (inr ("failed to create health check request: " +:+ e))
  | Sent reply =>
      result ← new (ObjHealth (probeResult service info p reply));
      putHealthMap (healthStats gp) service result ;;
      g ← readGatewayMetrics (metrics gp);
      putHealthMap (HealthStats g) service result ;;
      mret (inl result)
  end.

(** [CheckServiceHealth]. *)
Definition CheckServiceHealth (gp : GatewayProcessor) (service : string) (p : Probe)
  : M (loc + string) :=
  match services gp !! service with
  | None => mret (inr ("service " +:+ service +:+ " not found"))
  | Some info => performHealthCheck gp service info p
  end.

(** The probes of [checkAllServices], in the order [schedule] in which
    their goroutines come to store their results; what each returns is
    dropped. *)
Fixpoint probeAll (gp : GatewayProcessor) (probe : string -> Probe)
    (schedule : list (string * ServiceInfo)) : M unit :=
  match schedule with
  | [] => mret tt
  | (service, info) :: rest =>
      performHealthCheck gp service info (probe service) ;;
      probeAll gp probe rest
  end.

Definition isHealthy (h : heap) (l : loc) : bool :=
  match healthAt h l with
  | Some r => String.eqb (Status r) "healthy"
  | None => false
  end.

(** [checkAllServices]: the counts of its summary, healthy and total. *)
Definition checkAllServices (gp : GatewayProcessor) (probe : string -> Probe)
    (schedule : list (string * ServiceInfo)) : M (nat * nat) :=
  probeAll gp probe schedule ;;
  hs ← readHealthMap (healthStats gp);
  healthy ← inspect (fun h =>
               length (filter (fun l => isHealthy h l = true) (map_to_list hs).*2));
  mret (healthy, length schedule).

(** *** Forwarding *)

(** The request handed to the HTTP client. *)
Record Request := mkRequest {
  Method : string;
  Target : string;
  Header : gmap string string;
  Body : string
}.

(** What leaves the process. *)
Inductive Event :=
  | PublishLog (level message service requestID : string)
  | PublishMetrics (eventType service : string) (status : Z) (requestID : string)
  | HttpDo (req : Request).

(** What the upstream makes of a request: a transport error, or a response
    whose body reads or fails to. *)
Inductive Upstream :=
  | UpstreamError (e : string)
  | UpstreamResponse (statusCode : Z) (header : gmap string (list string))
      (body : string + string).

(** What one call of [ProxyRequest] gets from outside: the clock, the
    generated id, and the behaviour of the libraries and of the network. *)
Record ProxyEnv := mkProxyEnv {
  nowAt : nat -> Z;                 (* the readings of [time.Now], in order *)
  uuid : string;                    (* [uuid.New().String()] *)
  formatRFC3339 : Z -> string;
  newRequestError : string -> string -> option string;  (* [http.NewRequest] *)
  upstream : Request -> Upstream;   (* [httpClient.Do] *)
  finishedAt : Z;                   (* the reading [time.Since] takes *)
  jsonValid : string -> bool        (* [json.Unmarshal] succeeds *)
}.

(** [models.ProxyResponse]; the body is the decoded JSON or the raw text. *)
Inductive ResponseBody :=
  | NoBody
  | JsonBody (raw : string)
  | TextBody (raw : string).

Record ProxyResponse := mkProxyResponse {
  StatusCode : Z;
  RespBody : ResponseBody;
  Headers : gmap string string;
  RespDuration : Z
}.

(** The headers of the outbound request: the caller's, then the four
    tracing headers. *)
Definition outboundHeader (headers : gmap string string)
    (requestID userID timestamp service : string) : gmap string string :=
  let h0 := map_fold (fun key value h => Http.Set_ h key value) ∅ headers in
  let h1 := Http.Set_ h0 "X-Request-ID" requestID in
  let h2 := Http.Set_ h1 "X-User-ID" userID in
  let h3 := Http.Set_ h2 "X-Gateway-Timestamp" timestamp in
  Http.Set_ h3 "X-Service-Name" service.

Definition isSuccess (statusCode : Z) : bool :=
  (200 <=? statusCode) && (statusCode <? 400).

Definition decodeBody (env : ProxyEnv) (raw : string) : ResponseBody :=
  if (String.length raw =? 0)%nat then NoBody
  else if jsonValid env raw then JsonBody raw else TextBody raw.

Definition firstValues (h : gmap string (list string)) : gmap string string :=
  omap head h.

(** [ProxyRequest].  [body] is the reader: absent, or read to its content or
    to an error.  The result is the response or the error, with the events
    the call sent out, in order. *)
Definition ProxyRequest (gp : GatewayProcessor) (service path method : string)
    (body : option (string + string)) (headers : gmap string string)
    (userID : string) (env : ProxyEnv)
  : M ((ProxyResponse + string) * list Event) :=
  let startTime := nowAt env 0 in
  let requestID := uuid env in
  updateRequestMetrics gp service true (nowAt env 1) ;;
  let logged := [PublishLog "info" (method +:+ " " +:+ path +:+ " proxied to " +:+ service)
                   service requestID] in
  match services gp !! service with
  | None =>
      updateRequestMetrics gp service false (nowAt env 2) ;;
      mret (inr ("service " +:+ service +:+ " not found"), logged)
  | Some serviceInfo =>
      match body with
      | Some (inr e) =>
          updateRequestMetrics gp service false (nowAt env 2) ;;
          mret (inr ("failed to read request body: " +:+ e), logged)
      | _ =>
          let bodyBytes := match body with Some (inl b) => b | _ => "" end in
          let fullURL := URL serviceInfo +:+ path in
          match newRequestError env method fullURL with
          | Some e =>
              updateRequestMetrics gp service false (nowAt env 2) ;;
              mret (inr ("failed to create request: " +:+ e), logged)
          | None =>
              let req := mkRequest method fullURL
                           (outboundHeader headers requestID userID
                              (formatRFC3339 env startTime) service)
                           bodyBytes in
              let duration := Sub (finishedAt env) startTime in
              match upstream env req with
              | UpstreamError e =>
                  updateRequestMetrics gp service false (nowAt env 2) ;;
                  updateLatencyMetrics gp service duration ;;
                  mret (inr ("request failed: " +:+ e),
                       logged ++ [HttpDo req; PublishMetrics "request" service 0 requestID])
              | UpstreamResponse statusCode respHeader (inr e) =>
                  updateRequestMetrics gp service false (nowAt env 2) ;;
                  mret (inr ("failed to read response: " +:+ e), logged ++ [HttpDo req])
              | UpstreamResponse statusCode respHeader (inl responseBody) =>
                  let success := isSuccess statusCode in
                  (if success then mret tt
                   else updateRequestMetrics gp service false (nowAt env 2)) ;;
                  updateLatencyMetrics gp service duration ;;
                  mret (inl (mkProxyResponse statusCode (decodeBody env responseBody)
                              (firstValues respHeader) duration),
                       logged ++ [HttpDo req;
                                  PublishMetrics "request" service statusCode requestID])
              end
          end
      end
  end.

(** The updates of the live state, one at a time as the locks let them
    through. *)
Inductive Update :=
  | RecordRequest (service : string) (success : bool) (now : Z)
  | RecordLatency (service : string) (duration : Z)
  | RecordHealth (service : string) (info : ServiceInfo) (p : Probe)
  | TakeSnapshot.

Definition apply (gp : GatewayProcessor) (u : Update) : M unit :=
  match u with
  | RecordRequest service success now => updateRequestMetrics gp service success now
  | RecordLatency service duration => updateLatencyMetrics gp service duration
  | RecordHealth service info p => performHealthCheck gp service info p ;; mret tt
  | TakeSnapshot => GetMetrics gp ;; mret tt
  end.

Fixpoint applyAll (gp : GatewayProcessor) (us : list Update) : M unit :=
  match us with
  | [] => mret tt
  | u :: rest => apply gp u ;; applyAll gp rest
  end.

(** The invariant of the counters. *)
Definition balanced (total success error : Z) : Prop := total = add success error.

Definition countersBalanced (h : heap) (r : loc) : Prop :=
  exists v, view h r = Some v /\
    balanced (vTotalRequests v) (vSuccessRequests v) (vErrorRequests v) /\
    forall service m, vServiceMetrics v !! service = Some m ->
      balanced (sTotalRequests m) (sSuccessRequests m) (sErrorRequests m).

(** What the health table holds for a service. *)
Definition storedHealth (gp : GatewayProcessor) (h : heap) (service : string)
  : option HealthCheckResult :=
  match h !! healthStats gp with
  | Some (ObjHealthMap hs) => hs !! service ≫= healthAt h
  | _ => None
  end.

(** The processor as [main] sets it up, and the states it then gets into. *)
Definition boot (startTime : Z) (registry : gmap string ServiceInfo) : M GatewayProcessor :=
  gp ← NewGatewayProcessor startTime; Start gp registry.

Definition reachable (gp : GatewayProcessor) (h : heap) : Prop :=
  exists startTime registry us h0,
    boot startTime registry [] = Some (gp, h0) /\
    applyAll gp us h0 = Some (tt, h).

(** *** Well-formed states

    The type of an object, as a number; a reference of a given type must
    point at an object of that type. *)
Definition tagOf (o : object) : nat :=
  match o with
  | ObjServiceMetrics _ => 0
  | ObjHealth _ => 1
  | ObjMetricsMap _ => 2
  | ObjHealthMap _ => 3
  | ObjGatewayMetrics _ => 4
  end%nat.

Definition holds (t : nat) (h : heap) (l : loc) : Prop :=
  exists o, h !! l = Some o /\ tagOf o = t.

Definition objectOK (h : heap) (o : object) : Prop :=
  match o with
  | ObjGatewayMetrics g =>
      holds 2 h (ServiceMetricsMap g) /\ holds 3 h (HealthStats g)
  | ObjMetricsMap m => forall s l, m !! s = Some l -> holds 0 h l
  | ObjHealthMap m => forall s l, m !! s = Some l -> holds 1 h l
  | _ => True
  end.

Definition heapOK (h : heap) : Prop :=
  forall l o, h !! l = Some o -> objectOK h o.

(** A state of the processor as [NewGatewayProcessor] and [Start] leave it
    and the operations keep it: every reference holds an object of its
    type. *)
Definition wellFormed (gp : GatewayProcessor) (h : heap) : Prop :=
  heapOK h /\ holds 4 h (metrics gp) /\ holds 3 h (healthStats gp).

(** [h'] comes from [h] by allocating and by overwriting objects with
    objects of their type. *)
Definition extends (h h' : heap) : Prop :=
  (length h <= length h')%nat /\
  forall l o, h !! l = Some o -> exists o', h' !! l = Some o' /\ tagOf o' = tagOf o.

(** The objects at the locations from [a] up to [b] are the same in both
    heaps. *)
Definition agree (a b : nat) (h h' : heap) : Prop :=
  forall l, (a <= l < b)%nat -> h' !! l = h !! l.

(** Everything the live state writes through lies below [n]: the metrics
    and its maps, the health table, and the metrics of each service. *)
Definition liveBelow (n : nat) (gp : GatewayProcessor) (h : heap) : Prop :=
  (metrics gp < n)%nat /\ (healthStats gp < n)%nat /\
  exists g sm,
    h !! metrics gp = Some (ObjGatewayMetrics g) /\
    (ServiceMetricsMap g < n)%nat /\ (HealthStats g < n)%nat /\
    h !! ServiceMetricsMap g = Some (ObjMetricsMap sm) /\
    forall s l, sm !! s = Some l -> (l < n)%nat.

(** The invariant of the counters, for an object and for a heap. *)
Definition balancedObject (o : object) : Prop :=
  match o with
  | ObjGatewayMetrics g =>
      balanced (TotalRequests g) (SuccessRequests g) (ErrorRequests g)
  | ObjServiceMetrics m =>
      balanced (sTotalRequests m) (sSuccessRequests m) (sErrorRequests m)
  | _ => True
  end.

Definition allBalanced (h : heap) : Prop :=
  forall l o, h !! l = Some o -> balancedObject o.

(** The requests a call hands to the HTTP client. *)
Definition networkCalls (events : list Event) : list Request :=
  omap (fun e => match e with HttpDo req => Some req | _ => None end) events.

(** *** An example: the processor set up with one service *)

Definition example_info : ServiceInfo :=
  mkServiceInfo "http://echo:8080" "http://echo:8080/health" 30.

Definition example_registry : gmap string ServiceInfo := {[ "echo" := example_info ]}.

Definition example_gp : GatewayProcessor := mkProcessor example_registry 0 3.

Definition example_heap : heap :=
  [ObjHealthMap ∅;
   ObjMetricsMap {[ "echo" := 4%nat ]};
   ObjHealthMap ∅;
   ObjGatewayMetrics (mkGatewayMetrics 0 0 0 zero 1 2 0);
   ObjServiceMetrics (mkServiceMetrics 0 0 0 zero 0)].

(** The surroundings of a call that the upstream answers with the status
    [statusCode] and an empty body, 5 ms after the call started. *)
Definition example_env (statusCode : Z) : ProxyEnv :=
  mkProxyEnv (fun n => 1000 + Z.of_nat n) "7c9e6679-7425-40de-944b-e07fc1f90ae7"
    (fun _ => "2024-05-01T10:00:00Z") (fun _ _ => None)
    (fun _ => UpstreamResponse statusCode ∅ (inl "")) 5001000 (fun _ => true).

End Processor.

(** ** The proxy handler ([handlers/gateway_handler.go]) *)

Module Handler.
Import Http Processor.

Definition systemHeaders : list string :=
  ["Authorization"; "Content-Length"; "Content-Type"; "Host";
   "User-Agent"; "Accept-Encoding"; "Connection"].

(** [isSystemHeader]. *)
Definition isSystemHeader (header : string) : bool :=
  existsb (fun sys => String.eqb (ToLower sys) (ToLower header)) systemHeaders.

(** What the handler reads of the inbound [*http.Request]. *)
Record HttpRequest := mkHttpRequest {
  reqMethod : string;
  reqPath : string;                            (* [r.URL.Path] *)
  reqHeader : gmap string (list string);       (* [r.Header] *)
  reqBody : option (string + string);          (* [r.Body], read or failing *)
  ctxUserID : option string                    (* [r.Context().Value("user_id").(string)] *)
}.

(** [getUserID]. *)
Definition getUserID (r : HttpRequest) : string :=
  let userID := Get (reqHeader r) "X-User-ID" in
  if negb (String.eqb userID "") then userID
  else match ctxUserID r with
       | Some userID => userID
       | None => ""
       end.

(** The loop "Extract headers" of [Proxy] and [ProxyToService]. *)
Definition extractHeaders (r : HttpRequest) : gmap string string :=
  map_imap (fun key values => if isSystemHeader key then None else head values)
           (reqHeader r).

(** [strings.TrimPrefix]. *)
Definition TrimPrefix (s p : string) : string :=
  if String.prefix p s
  then substring (String.length p) (String.length s - String.length p) s
  else s.

(** [Proxy]: what becomes of its call of [WriteHeader] (made by
    [response.Error] on the two error paths, with the status of the upstream
    response otherwise), and the events of the call.  [service] is the route
    variable. *)
Definition Proxy (gp : GatewayProcessor) (service : string) (r : HttpRequest)
    (env : ProxyEnv) : M (Written * list Event) :=
  if String.eqb service "" then mret (WriteHeader 400, [])
  else
    let path := TrimPrefix (reqPath r) ("/api/proxy/" +:+ service) in
    let path := if String.eqb path "" then "/" else path in
    res ← ProxyRequest gp service path (reqMethod r) (reqBody r)
             (extractHeaders r) (getUserID r) env;
    match res with
    | (inr _, events) => mret (WriteHeader 502, events)
    | (inl resp, events) => mret (WriteHeader (StatusCode resp), events)
    end.

(** The names under which the four tracing headers are stored. *)
Definition tracingHeaders : list string :=
  map CanonicalMIMEHeaderKey
    ["X-Request-ID"; "X-User-ID"; "X-Gateway-Timestamp"; "X-Service-Name"].

(** The headers the outbound request must have by the code: the tracing
    headers, and of the caller's headers the first value of each that is not
    a system header. *)
Definition expectedHeader (r : HttpRequest) (service : string) (env : ProxyEnv)
    (key : string) : option string :=
  if String.eqb key "X-Service-Name" then Some service
  else if String.eqb key "X-Gateway-Timestamp" then Some (formatRFC3339 env (nowAt env 0))
  else if String.eqb key "X-User-Id" then Some (getUserID r)
  else if String.eqb key "X-Request-Id" then Some (uuid env)
  else if isSystemHeader key then None
  else reqHeader r !! key ≫= head.

End Handler.

(** ** Token validation over the response stream ([validateTokenViaRedis]) *)

Module Auth.

(** [models.User], [models.AuthValidationRequest] and
    [models.AuthValidationResponse]. *)
Record User := mkUser {
  ID : string;
  Email : string;
  Role : string
}.

Record AuthValidationRequest := mkAuthRequest {
  reqRequestID : string;
  Token : string;
  reqTimestamp : Z
}.

Record AuthValidationResponse := mkAuthResponse {
  RequestID : string;
  Valid : bool;
  ResponseUser : option User;
  ResponseError : string
}.

(** A message of the stream: its id, and its field [data] when that is a
    string. *)
Record Message := mkMessage {
  MessageID : string;
  Data : option string
}.

(** What [XReadGroup] returns: [redis.Nil] when the block ran out with no
    message, another error, or the streams read. *)
Inductive ReadReply :=
  | ReplyNil
  | ReplyError (e : string)
  | ReplyStreams (streams : list (list Message)).

(** The blocking read, and how long it blocked (milliseconds). *)
Record Read := mkRead {
  reply : ReadReply;
  blockedFor : Z
}.

(** The wait window [timeout], in milliseconds. *)
Definition timeout : Z := 5000.

(** The contract of the blocking read: [redis.Nil] comes when the whole
    window has passed, anything else within it. *)
Definition blocksWithin (window : Z) (rd : Read) : Prop :=
  match reply rd with
  | ReplyNil => blockedFor rd = window
  | _ => 0 <= blockedFor rd <= window
  end.

(** What one call gets from outside. *)
Record AuthEnv := mkAuthEnv {
  newUUID : string;
  unixNow : Z;
  marshal : AuthValidationRequest -> string + string;     (* [json.Marshal] *)
  xadd : string -> option string;                         (* the error of [XAdd] *)
  xreadgroup : string -> Z -> Read;                       (* consumer, block *)
  unmarshal : string -> option AuthValidationResponse     (* [json.Unmarshal] *)
}.

Inductive AuthError :=
  | MarshalFailed (e : string)       (* "failed to marshal request" *)
  | SendFailed (e : string)          (* "failed to send auth request" *)
  | WaitTimedOut                     (* "timeout waiting for auth response" *)
  | ReadFailed (e : string)          (* "failed to read auth response" *)
  | InvalidToken (e : string)        (* "invalid token" *)
  | NoResponse.                      (* "no response received for token validation" *)

(** The outcome of a call: what it returns, the ids of the messages it
    acknowledged, and how long it waited on the response stream. *)
Record Validation := mkValidation {
  result : option User + AuthError;
  acked : list string;
  waited : Z
}.

(** The loops over the messages read: the first one that decodes to a
    response with the awaited id. *)
Fixpoint findResponse (env : AuthEnv) (requestID : string) (messages : list Message)
  : option (Message * AuthValidationResponse) :=
  match messages with
  | [] => None
  | message :: rest =>
      match Data message with
      | None => findResponse env requestID rest
      | Some data =>
          match unmarshal env data with
          | None => findResponse env requestID rest
          | Some response =>
              if String.eqb (RequestID response) requestID
              then Some (message, response)
              else findResponse env requestID rest
          end
      end
  end.

(** [validateTokenViaRedis]. *)
Definition validateTokenViaRedis (env : AuthEnv) (token : string) : Validation :=
  let requestID := newUUID env in
  match marshal env (mkAuthRequest requestID token (unixNow env)) with
  | inr e => mkValidation (inr (MarshalFailed e)) [] 0
  | inl requestData =>
      match xadd env requestData with
      | Some e => mkValidation (inr (SendFailed e)) [] 0
      | None =>
          let consumerName := "gateway-" +:+ substring 0 8 requestID in
          let rd := xreadgroup env consumerName timeout in
          match reply rd with
          | ReplyNil => mkValidation (inr WaitTimedOut) [] (blockedFor rd)
          | ReplyError e => mkValidation (inr (ReadFailed e)) [] (blockedFor rd)
          | ReplyStreams streams =>
              match findResponse env requestID (concat streams) with
              | Some (message, response) =>
                  if Valid response
                  then mkValidation (inl (ResponseUser response))
                         [MessageID message] (blockedFor rd)
                  else mkValidation (inr (InvalidToken (ResponseError response)))
                         [MessageID message] (blockedFor rd)
              | None => mkValidation (inr NoResponse) [] (blockedFor rd)
              end
          end
      end
  end.

(** A message that answers the request [requestID]. *)
Definition answers (env : AuthEnv) (requestID : string) (message : Message) : Prop :=
  exists data response,
    Data message = Some data /\ unmarshal env data = Some response /\
    RequestID response = requestID.

End Auth.


(** ** Strings ([strings]) *)

Module Strings.

(** Whether the byte [c] occurs in [s]. *)
Fixpoint has (c : ascii) (s : string) : bool :=
  match s with
  | EmptyString => false
  | String a rest => Ascii.eqb a c || has c rest
  end.

(** The text before the first [sep], and the pieces that follow it. *)
Fixpoint cut (s : string) (sep : ascii) : string * list string :=
  match s with
  | EmptyString => (EmptyString, [])
  | String a rest =>
      let '(first, others) := cut rest sep in
      if Ascii.eqb a sep then (EmptyString, first :: others)
      else (String a first, others)
  end.

(** [strings.Split(s, sep)] for a separator of one byte: the pieces between
    the separators, one more than there are separators. *)
Definition Split (s : string) (sep : ascii) : list string :=
  let '(first, others) := cut s sep in first :: others.

(** [strings.Join]. *)
Fixpoint Join (elems : list string) (sep : string) : string :=
  match elems with
  | [] => EmptyString
  | e :: rest =>
      match rest with
      | [] => e
      | _ => e +:+ sep +:+ Join rest sep
      end
  end.

(** [strings.LastIndex(s, sep)] for a separator of one byte; [None] stands
    for Go's -1. *)
Fixpoint LastIndex (s : string) (sep : ascii) : option nat :=
  match s with
  | EmptyString => None
  | String a rest =>
      match LastIndex rest sep with
      | Some i => Some (S i)
      | None => if Ascii.eqb a sep then Some O else None
      end
  end.

End Strings.

(** ** The configuration ([config]) *)

Module Config.
Import Strings Processor.

(** [getEnv], over the environment of the process; [os.Getenv] gives the
    empty string for a variable that is not set. *)
Definition getEnv (environ : gmap string string) (key defaultValue : string) : string :=
  match environ !! key with
  | Some value => if String.eqb value "" then defaultValue else value
  | None => defaultValue
  end.

(** The registry [parseServices] falls back to. *)
Definition defaultServices : gmap string ServiceInfo :=
  <["analytics" := mkServiceInfo "http://localhost:8083" "http://localhost:8083/health" 5]>
    (<["device-registry" :=
         mkServiceInfo "http://localhost:8082" "http://localhost:8082/health" 5]>
       (<["auth" := mkServiceInfo "http://localhost:8081" "http://localhost:8081/health" 5]>
          ∅)).

(** One turn of the loop of [parseServices], on the entry [serviceStr]. *)
Definition parseService (services : gmap string ServiceInfo) (serviceStr : string)
  : gmap string ServiceInfo :=
  match Split serviceStr ":" with
  | name :: p1 :: p2 :: rest =>
      let url := Join (p1 :: p2 :: rest) ":" in
      <[name := mkServiceInfo url (url +:+ "/health") 5]> services
  | _ => services
  end.

(** [parseServices]. *)
Definition parseServices (environ : gmap string string) : gmap string ServiceInfo :=
  let servicesEnv := getEnv environ "SERVICES" "" in
  if String.eqb servicesEnv "" then defaultServices
  else foldl parseService ∅ (Split servicesEnv ",").

(** The text of an entry of [SERVICES], and the registry entry it stands for. *)
Definition entryText (entry : string * string) : string :=
  entry.1 +:+ ":" +:+ entry.2.

Definition entryInfo (entry : string * string) : string * ServiceInfo :=
  (entry.1, mkServiceInfo entry.2 (entry.2 +:+ "/health") 5).

End Config.

(** ** The middleware ([middleware]) *)

Module Middleware.
Import GoInt Float64 Clock RateLimiter Http Strings Auth.

(** [time.Minute]. *)
Definition Minute : Z := 60 * Second.

(** One turn of the loop of [cleanup], at the clock reading [now]: a record
    is deleted when [now.Sub(client.lastRefill) > 10*time.Minute], and kept
    otherwise. *)
Definition cleanup (rl : RateLimiter) (now : Time) : RateLimiter :=
  mkLimiter
    (filter (fun entry : string * ClientLimiter =>
               Sub now (lastRefill entry.2) <= 10 * Minute) (clients rl))
    (rpm rl) (burst rl).

(** What the middleware reads of the inbound [*http.Request]; of the values
    of its context, those that are strings. *)
Record Inbound := mkInbound {
  inHeader : gmap string (list string);
  RemoteAddr : string;
  ctx : gmap string string
}.

(** What a middleware does with a request: it answers with
    [response.Error], hands the request on to [next], or panics. *)
Inductive Outcome :=
  | Responded (status : Z) (message : string)
  | Next (r : Inbound)
  | Panic.

Section ClientIP.

(** [strings.TrimSpace]. *)
Variable TrimSpace : string -> string.

(** [getClientIP]. *)
Definition getClientIP (r : Inbound) : string :=
  let xff := Get (inHeader r) "X-Forwarded-For" in
  if negb (String.eqb xff "") then
    match Split xff "," with
    | first :: _ => TrimSpace first
    | [] => EmptyString
    end
  else
    let xri := Get (inHeader r) "X-Real-IP" in
    if negb (String.eqb xri "") then xri
    else
      let ip := RemoteAddr r in
      match LastIndex ip ":" with
      | Some colon => substring 0 colon ip
      | None => ip
      end.

(** The handler [RateLimit] makes, on the limiter [rl]: what it does with
    the request, and the limiter afterwards. *)
Definition RateLimit (rl : RateLimiter.RateLimiter) (r : Inbound) (created now : Time)
  : Outcome * RateLimiter.RateLimiter :=
  let clientIP := getClientIP r in
  let '(ok, rl') := Allow rl clientIP created now in
  if ok then (Next r, rl') else (Responded 429 "rate limit exceeded", rl').

End ClientIP.

(** The request with [key] bound to [value] in its context
    ([context.WithValue]). *)
Definition withValue (r : Inbound) (key value : string) : Inbound :=
  mkInbound (inHeader r) (RemoteAddr r) (<[key := value]> (ctx r)).

(** [Auth], the one that validates over the response stream. *)
Definition Auth (env : AuthEnv) (r : Inbound) : Outcome :=
  let authHeader := Get (inHeader r) "Authorization" in
  if String.eqb authHeader "" then Responded 401 "authorization header required"
  else
    match Split authHeader " " with
    | [scheme; token] =>
        if String.eqb scheme "Bearer" then
          match result (validateTokenViaRedis env token) with
          | inr _ => Responded 401 "invalid token"
          | inl None => Panic                (* [user.ID] of a nil [*models.User] *)
          | inl (Some user) =>
              Next (withValue (withValue (withValue r "user_id" (ID user))
                                 "role" (Role user))
                      "email" (Email user))
          end
        else Responded 401 "invalid authorization format"
    | _ => Responded 401 "invalid authorization format"
    end.

(** [RequireRole]. *)
Definition RequireRole (requiredRole : string) (r : Inbound) : Outcome :=
  match ctx r !! "role" with
  | Some userRole =>
      if String.eqb userRole requiredRole then Next r
      else Responded 403 "insufficient permissions"
  | None => Responded 403 "insufficient permissions"
  end.

End Middleware.

(** ** More of the processor and of the handlers *)

Module Routes.
Import GoInt Float64 Clock Http Processor Handler.

(** Whether a call of [ProxyRequest] ended in what its metrics count as an
    error: it returned an error, or a response whose status is not in
    [200, 400). *)
Definition failed (res : ProxyResponse + string) : bool :=
  match res with
  | inl resp => negb (isSuccess (StatusCode resp))
  | inr _ => true
  end.

(** The three counters of the metrics, [TotalRequests], [SuccessRequests]
    and [ErrorRequests], as a reader sees them: those of the gateway, and
    those of a service. *)
Definition counters (v : MetricsView) : Z * Z * Z :=
  (vTotalRequests v, vSuccessRequests v, vErrorRequests v).

Definition serviceCounters (m : ServiceMetrics) : Z * Z * Z :=
  (sTotalRequests m, sSuccessRequests m, sErrorRequests m).

(** What one call of [updateRequestMetrics] does to three counters. *)
Definition count (success : bool) (c : Z * Z * Z) : Z * Z * Z :=
  let '(total, ok, err) := c in
  (add total 1, if success then add ok 1 else ok, if success then err else add err 1).

(** The handler [ProxyToService] makes for [serviceName]: what becomes of
    its call of [WriteHeader], and the events of the call. *)
Definition ProxyToService (gp : GatewayProcessor) (serviceName : string)
    (r : HttpRequest) (env : ProxyEnv) : M (Written * list Event) :=
  let path := TrimPrefix (reqPath r) "/api" in
  res ← ProxyRequest gp serviceName path (reqMethod r) (reqBody r)
           (extractHeaders r) (getUserID r) env;
  match res with
  | (inr _, events) => mret (WriteHeader 502, events)
  | (inl resp, events) => mret (WriteHeader (StatusCode resp), events)
  end.

(** [GatewayHandler.CheckServiceHealth]: the status it writes.  [service]
    is the route variable, [p] what becomes of the probe. *)
Definition CheckServiceHealth (gp : GatewayProcessor) (service : string) (p : Probe)
  : M Z :=
  if String.eqb service "" then mret 400
  else
    res ← Processor.CheckServiceHealth gp service p;
    match res with
    | inr _ => mret 404
    | inl _ => mret 200
    end.

(** The second loop of [GetServicesStatus]: a service with no entry in the
    map at [dst] gets one of status "unknown", stamped with the clock
    reading [nowFor] taken for it. *)
Fixpoint addUnknown (dst : loc) (names : list string) (nowFor : string -> Z) : M unit :=
  match names with
  | [] => mret tt
  | service :: rest =>
      m ← readHealthMap dst;
      match m !! service with
      | Some _ => mret tt
      | None =>
          c ← new (ObjHealth (mkHealthCheckResult service "unknown" "" 0 "" (nowFor service)));
          putHealthMap dst service c
      end ;;
      addUnknown dst rest nowFor
  end.

(** [GetServicesStatus]: the reference to the map it returns. *)
Definition GetServicesStatus (gp : GatewayProcessor) (nowFor : string -> Z) : M loc :=
  hs ← readHealthMap (healthStats gp);
  result ← new (ObjHealthMap ∅);
  copyHealthStats result (map_to_list hs) ;;
  addUnknown result (map_to_list (services gp)).*1 nowFor ;;
  mret result.

(** What a holder of the reference [r] to a map of health results reads
    through it. *)
Definition statusView (h : heap) (r : loc) : option (gmap string HealthCheckResult) :=
  match h !! r with
  | Some (ObjHealthMap m) => Some (omap (healthAt h) m)
  | _ => None
  end.

End Routes.

(** * Part II: lemmas and theorems *)

(** ** [float64]: bounds on the rounded results *)

Module Float64Facts.
Import GoInt Float64 Clock.

Lemma fexp_eq e : fexp prec emax e = Z.max (e - 53) (-1074).
Proof. reflexivity. Qed.

Lemma digits2_pos_bounds m :
  2 ^ (Zpos (digits2_pos m) - 1) <= Zpos m < 2 ^ Zpos (digits2_pos m).
Proof.
  induction m as [m IH|m IH|]; simpl digits2_pos.
  - rewrite Pos2Z.inj_succ, Z.pow_succ_r by lia.
    replace (Z.succ (Zpos (digits2_pos m)) - 1) with (Z.succ (Zpos (digits2_pos m) - 1)) by lia.
    rewrite Z.pow_succ_r by lia. lia.
  - rewrite Pos2Z.inj_succ, Z.pow_succ_r by lia.
    replace (Z.succ (Zpos (digits2_pos m)) - 1) with (Z.succ (Zpos (digits2_pos m) - 1)) by lia.
    rewrite Z.pow_succ_r by lia. lia.
  - simpl. lia.
Qed.

Lemma Zdigits2_nonneg m : 0 <= Zdigits2 m.
Proof. destruct m; simpl; lia. Qed.

Lemma shr_1_m mrs : 0 <= shr_m mrs -> shr_m (shr_1 mrs) = shr_m mrs / 2.
Proof.
  destruct mrs as [m r s]; simpl. intros Hm.
  destruct m as [|p|p]; [reflexivity| |lia].
  destruct p as [p|p|]; simpl shr_m.
  - rewrite Pos2Z.inj_xI. apply Z.div_unique with 1; lia.
  - rewrite (Pos2Z.inj_xO p). apply Z.div_unique with 0; lia.
  - reflexivity.
Qed.

Lemma pow2_xI p : 2 ^ Zpos p~1 = 2 * (2 ^ Zpos p * 2 ^ Zpos p).
Proof.
  rewrite Pos2Z.inj_xI. replace (2 * Zpos p + 1) with (1 + Zpos p + Zpos p) by lia.
  rewrite Z.pow_add_r, Z.pow_add_r by lia. change (2 ^ 1) with 2. lia.
Qed.

Lemma pow2_xO p : 2 ^ Zpos p~0 = 2 ^ Zpos p * 2 ^ Zpos p.
Proof.
  rewrite (Pos2Z.inj_xO p). replace (2 * Zpos p) with (Zpos p + Zpos p) by lia.
  rewrite Z.pow_add_r by lia. lia.
Qed.

Lemma iter_shr_1_m p : forall mrs,
  0 <= shr_m mrs -> shr_m (SpecFloat.iter_pos shr_1 p mrs) = shr_m mrs / 2 ^ Zpos p.
Proof.
  assert (Hnn : forall a b, 0 <= a -> 0 < b -> 0 <= a / b) by (intros; apply Z.div_pos; lia).
  assert (Hp : forall q, 0 < 2 ^ Zpos q) by (intros; apply Z.pow_pos_nonneg; lia).
  induction p as [p IH|p IH|]; intros mrs Hm; simpl SpecFloat.iter_pos.
  - assert (H1 : 0 <= shr_m (shr_1 mrs)) by (rewrite shr_1_m by assumption; apply Hnn; lia).
    assert (H2 : 0 <= shr_m (SpecFloat.iter_pos shr_1 p (shr_1 mrs))).
    { rewrite IH by assumption. apply Hnn; [assumption|apply Hp]. }
    rewrite IH, IH, shr_1_m by assumption.
    pose proof (Hp p).
    rewrite Z.div_div, Z.div_div by lia. rewrite pow2_xI. f_equal; lia.
  - assert (H2 : 0 <= shr_m (SpecFloat.iter_pos shr_1 p mrs)).
    { rewrite IH by assumption. apply Hnn; [assumption|apply Hp]. }
    rewrite IH, IH by assumption.
    pose proof (Hp p).
    rewrite Z.div_div by lia. rewrite pow2_xO. reflexivity.
  - rewrite shr_1_m by assumption. reflexivity.
Qed.

Lemma pow2_pos e : (0 < 2 ^ e)%Q.
Proof. apply Qpower_0_lt. reflexivity. Qed.

Lemma pow2_add a b : (2 ^ (a + b) == 2 ^ a * 2 ^ b)%Q.
Proof. apply Qpower_plus. discriminate. Qed.

Lemma pow2_le a b : a <= b -> (2 ^ a <= 2 ^ b)%Q.
Proof. intros H. apply Qpower_le_compat_l; [exact H | discriminate]. Qed.

Lemma pow2_inject k : 0 <= k -> (2 ^ k == inject_Z (2 ^ k))%Q.
Proof. intros H. symmetry. apply (Zpower_Qpower 2 k H). Qed.

Lemma val_nonneg m e : 0 <= m -> (0 <= val m e)%Q.
Proof.
  intros H. unfold val. apply Qmult_le_0_compat.
  - change 0%Q with (inject_Z 0). rewrite <- Zle_Qle. exact H.
  - apply Qlt_le_weak, pow2_pos.
Qed.

Lemma val_mono m m' e : m <= m' -> (val m e <= val m' e)%Q.
Proof.
  intros H. unfold val. apply Qmult_le_compat_r.
  - rewrite <- Zle_Qle. exact H.
  - apply Qlt_le_weak, pow2_pos.
Qed.

Lemma val_succ m e : (val (m + 1) e == val m e + 2 ^ e)%Q.
Proof. unfold val. rewrite inject_Z_plus. change (inject_Z 1) with 1%Q. ring. Qed.

Lemma val_shr m e k : 0 <= m -> 0 <= k -> (val (m / 2 ^ k) (e + k) <= val m e)%Q.
Proof.
  intros Hm Hk. unfold val.
  rewrite pow2_add, (pow2_inject k Hk).
  assert (E : (inject_Z (m / 2 ^ k) * (2 ^ e * inject_Z (2 ^ k)) ==
               inject_Z (m / 2 ^ k * 2 ^ k) * 2 ^ e)%Q)
    by (rewrite inject_Z_mult; ring).
  rewrite E.
  apply Qmult_le_compat_r.
  - rewrite <- Zle_Qle. rewrite Z.mul_comm. apply Z.mul_div_le.
    apply Z.pow_pos_nonneg; lia.
  - apply Qlt_le_weak, pow2_pos.
Qed.

Lemma shr_record_of_loc_m m l : shr_m (shr_record_of_loc m l) = m.
Proof. destruct l as [|[]]; reflexivity. Qed.

Lemma loc_of_shr_record_of_loc m l : loc_of_shr_record (shr_record_of_loc m l) = l.
Proof. destruct l as [|[]]; reflexivity. Qed.

Lemma shr_fexp_spec m e l :
  0 <= m ->
  exists mrs e',
    shr_fexp prec emax m e l = (mrs, e') /\
    e' = Z.max e (fexp prec emax (Zdigits2 m + e)) /\
    shr_m mrs = m / 2 ^ (e' - e) /\
    (e' = e -> loc_of_shr_record mrs = l).
Proof.
  intros Hm. unfold shr_fexp, shr.
  destruct (fexp prec emax (Zdigits2 m + e) - e) as [|p|p] eqn:En.
  - eexists _, _. split; [reflexivity|]. split; [lia|]. split.
    + rewrite shr_record_of_loc_m, Z.sub_diag. simpl. symmetry. apply Z.div_1_r.
    + intros _. apply loc_of_shr_record_of_loc.
  - eexists _, _. split; [reflexivity|]. split; [lia|]. split.
    + rewrite iter_shr_1_m by (rewrite shr_record_of_loc_m; exact Hm).
      rewrite shr_record_of_loc_m. f_equal. f_equal. lia.
    + lia.
  - eexists _, _. split; [reflexivity|]. split; [lia|]. split.
    + rewrite shr_record_of_loc_m, Z.sub_diag. simpl. symmetry. apply Z.div_1_r.
    + intros _. apply loc_of_shr_record_of_loc.
Qed.

Lemma round_nearest_even_bounds m l :
  m <= round_nearest_even m l <= m + 1.
Proof. destruct l as [|[]]; simpl; try lia. destruct (Z.even m); lia. Qed.

Lemma binary_round_aux_core m e l :
  0 <= m ->
  exists m2 e2,
    0 <= m2 /\
    (forall s, binary_round_aux prec emax s m e l = finish s m2 e2) /\
    (val m2 e2 <= val m e + 2 ^ Z.max e (fexp prec emax (Zdigits2 m + e)))%Q /\
    (l = loc_Exact -> fexp prec emax (Zdigits2 m + e) <= e ->
     (val m2 e2 <= val m e)%Q).
Proof.
  intros Hm.
  destruct (shr_fexp_spec m e l Hm) as (mrs1 & e1 & E1 & He1 & Hm1 & Hl1).
  pose proof (round_nearest_even_bounds (shr_m mrs1) (loc_of_shr_record mrs1)) as Hr.
  set (m1 := round_nearest_even (shr_m mrs1) (loc_of_shr_record mrs1)) in *.
  assert (Hq : 0 <= shr_m mrs1).
  { rewrite Hm1. apply Z.div_pos; [exact Hm|]. apply Z.pow_pos_nonneg; lia. }
  assert (Hm1' : 0 <= m1) by lia.
  destruct (shr_fexp_spec m1 e1 loc_Exact Hm1') as (mrs2 & e2 & E2 & He2 & Hm2 & _).
  exists (shr_m mrs2), e2.
  assert (H12 : (val (shr_m mrs2) e2 <= val m1 e1)%Q).
  { rewrite Hm2. replace e2 with (e1 + (e2 - e1)) at 2 by lia.
    apply val_shr; lia. }
  assert (Hq1 : (val (shr_m mrs1) e1 <= val m e)%Q).
  { rewrite Hm1. replace e1 with (e + (e1 - e)) at 2 by lia.
    apply val_shr; lia. }
  split; [|split; [|split]].
  - rewrite Hm2. apply Z.div_pos; [exact Hm1'|]. apply Z.pow_pos_nonneg; lia.
  - intros s. unfold binary_round_aux. rewrite E1. fold m1. rewrite E2. reflexivity.
  - eapply Qle_trans; [exact H12|].
    eapply Qle_trans; [apply (val_mono m1 (shr_m mrs1 + 1)); lia|].
    rewrite val_succ. rewrite <- He1.
    apply Qplus_le_compat; [exact Hq1 | apply Qle_refl].
  - intros Hl Hf. assert (He : e1 = e) by lia.
    specialize (Hl1 He).
    eapply Qle_trans; [exact H12|].
    unfold m1. rewrite Hl1, Hl. simpl round_nearest_even. exact Hq1.
Qed.

Lemma eps_pos : (0 < eps)%Q.
Proof. apply pow2_pos. Qed.

Lemma eta_pos : (0 < eta)%Q.
Proof. apply pow2_pos. Qed.

Lemma finish_fle m2 e2 U :
  0 <= m2 -> (val m2 e2 <= U)%Q -> (U < top)%Q -> fle (finish false m2 e2) U.
Proof.
  intros Hm Hv HU. destruct m2 as [|p|p]; simpl.
  - unfold val in Hv. rewrite Qmult_0_l in Hv. exact Hv.
  - destruct (Z.leb_spec e2 (emax - prec)) as [He|He]; simpl; [exact Hv|].
    exfalso. apply (Qlt_irrefl U).
    eapply Qlt_le_trans; [exact HU|].
    eapply Qle_trans; [|exact Hv].
    eapply Qle_trans; [apply (pow2_le (emax - prec) e2); lia|].
    unfold val. rewrite <- (Qmult_1_l (2 ^ e2)) at 1.
    apply Qmult_le_compat_r; [|apply Qlt_le_weak, pow2_pos].
    change 1%Q with (inject_Z 1). rewrite <- Zle_Qle. lia.
  - lia.
Qed.

Lemma fle_mono f U U' : fle f U -> (U <= U')%Q -> fle f U'.
Proof.
  destruct f as [s| | |[] m e]; simpl; try tauto; intros H1 H2; eapply Qle_trans; eassumption.
Qed.

Lemma fle_nonneg f U : fle f U -> (0 <= U)%Q.
Proof.
  destruct f as [s| | |[] m e]; simpl; try tauto.
  intros H. eapply Qle_trans; [|exact H]. apply val_nonneg. lia.
Qed.

(** The rounding error of a positive mantissa: one unit in the last place. *)
Lemma ulp_bound p e :
  (2 ^ fexp prec emax (Zpos (digits2_pos p) + e) <= val (Zpos p) e * eps + eta)%Q.
Proof.
  rewrite fexp_eq.
  destruct (Z.max_spec (Zpos (digits2_pos p) + e - 53) (-1074)) as [[_ ->]|[_ ->]].
  - rewrite <- (Qplus_0_l (2 ^ (-1074))) at 1.
    apply Qplus_le_compat; [|apply Qle_refl].
    apply Qmult_le_0_compat; [apply val_nonneg; lia | apply Qlt_le_weak, eps_pos].
  - rewrite <- (Qplus_0_r (2 ^ _)).
    apply Qplus_le_compat; [|apply Qlt_le_weak, eta_pos].
    replace (Zpos (digits2_pos p) + e - 53) with ((Zpos (digits2_pos p) - 1) + e + (-52)) by lia.
    rewrite pow2_add, pow2_add. unfold eps.
    apply Qmult_le_compat_r; [|apply Qlt_le_weak, pow2_pos].
    unfold val. apply Qmult_le_compat_r; [|apply Qlt_le_weak, pow2_pos].
    pose proof (digits2_pos_bounds p) as [Hd _].
    rewrite pow2_inject by lia. rewrite <- Zle_Qle. exact Hd.
Qed.

Lemma binary_round_aux_exact_bound p e :
  exists m2 e2,
    0 <= m2 /\
    (forall s, binary_round_aux prec emax s (Zpos p) e loc_Exact = finish s m2 e2) /\
    (val m2 e2 <= val (Zpos p) e * (1 + eps) + eta)%Q.
Proof.
  destruct (binary_round_aux_core (Zpos p) e loc_Exact) as (m2 & e2 & Hm2 & Hr & Hg & Hx); [lia|].
  exists m2, e2. split; [exact Hm2|]. split; [exact Hr|].
  simpl Zdigits2 in *.
  pose proof (ulp_bound p e) as Hu.
  pose proof (val_nonneg (Zpos p) e ltac:(lia)) as Hv.
  pose proof eps_pos as He. pose proof eta_pos as Ht.
  destruct (Z.le_gt_cases (fexp prec emax (Zpos (digits2_pos p) + e)) e) as [Hle|Hgt].
  - specialize (Hx eq_refl Hle).
    eapply Qle_trans; [exact Hx|].
    clear -Hv He Ht. revert Hv He Ht.
    generalize (val (Zpos p) e) eps eta. intros v ep et Hv He Ht. nra.
  - rewrite Z.max_r in Hg by lia.
    eapply Qle_trans; [exact Hg|].
    clear -Hu. revert Hu.
    generalize (val (Zpos p) e) eps eta (2 ^ fexp prec emax (Zpos (digits2_pos p) + e))%Q.
    intros v ep et u Hu. lra.
Qed.

Lemma binary_round_aux_exact_fle p e U :
  (val (Zpos p) e * (1 + eps) + eta <= U)%Q -> (U < top)%Q ->
  fle (binary_round_aux prec emax false (Zpos p) e loc_Exact) U.
Proof.
  intros HU Htop.
  destruct (binary_round_aux_exact_bound p e) as (m2 & e2 & Hm2 & Hr & Hb).
  rewrite Hr. apply finish_fle; [exact Hm2| |exact Htop].
  eapply Qle_trans; eassumption.
Qed.

Lemma binary_round_aux_noshift_fle p e U :
  fexp prec emax (Zpos (digits2_pos p) + e) <= e ->
  (val (Zpos p) e <= U)%Q -> (U < top)%Q ->
  fle (binary_round_aux prec emax false (Zpos p) e loc_Exact) U.
Proof.
  intros Hle HU Htop.
  destruct (binary_round_aux_core (Zpos p) e loc_Exact) as (m2 & e2 & Hm2 & Hr & _ & Hx); [lia|].
  rewrite Hr. apply finish_fle; [exact Hm2| |exact Htop].
  eapply Qle_trans; [|exact HU]. apply Hx; [reflexivity | exact Hle].
Qed.

Lemma iter_xO_spec mx d :
  Zpos (Pos.iter xO mx d) = Zpos mx * 2 ^ Zpos d /\
  Zpos (digits2_pos (Pos.iter xO mx d)) = Zpos (digits2_pos mx) + Zpos d.
Proof.
  induction d as [|d [IH1 IH2]] using Pos.peano_ind.
  - simpl Pos.iter. split; [rewrite (Pos2Z.inj_xO mx); change (2 ^ 1) with 2; lia|].
    simpl digits2_pos. lia.
  - rewrite Pos.iter_succ. split.
    + rewrite (Pos2Z.inj_xO (Pos.iter xO mx d)), IH1, Pos2Z.inj_succ, Z.pow_succ_r by lia. lia.
    + simpl digits2_pos. rewrite Pos2Z.inj_succ, IH2. lia.
Qed.

Lemma shl_align_spec mx ex ex' :
  exists mz ez,
    shl_align mx ex ex' = (mz, ez) /\
    ez = Z.min ex ex' /\
    Zpos mz = Zpos mx * 2 ^ (ex - ez) /\
    Zpos (digits2_pos mz) + ez = Zpos (digits2_pos mx) + ex.
Proof.
  unfold shl_align. destruct (ex' - ex) as [|d|d] eqn:Ed.
  - eexists _, _. split; [reflexivity|]. split; [lia|].
    rewrite Z.sub_diag. simpl. lia.
  - eexists _, _. split; [reflexivity|]. split; [lia|].
    rewrite Z.sub_diag. simpl. lia.
  - destruct (iter_xO_spec mx d) as [H1 H2].
    eexists _, _. split; [reflexivity|]. split; [lia|].
    rewrite H1, H2. replace (ex - ex') with (Zpos d) by lia. lia.
Qed.

Lemma val_shl m e k : 0 <= k -> (val (m * 2 ^ k) e == val m (e + k))%Q.
Proof.
  intros Hk. unfold val. rewrite pow2_add, (pow2_inject k Hk), inject_Z_mult. ring.
Qed.

Lemma shl_align_val mx ex ex' :
  (val (Zpos (fst (shl_align mx ex ex'))) (snd (shl_align mx ex ex')) == val (Zpos mx) ex)%Q.
Proof.
  destruct (shl_align_spec mx ex ex') as (mz & ez & -> & Hez & Hmz & _). simpl.
  rewrite Hmz, val_shl by lia. replace (ez + (ex - ez)) with ex by lia. reflexivity.
Qed.

Lemma binary_round_fle p e U :
  (val (Zpos p) e * (1 + eps) + eta <= U)%Q -> (U < top)%Q ->
  fle (binary_round prec emax false p e) U.
Proof.
  intros HU Htop. unfold binary_round.
  pose proof (shl_align_val p e (fexp prec emax (Zpos (digits2_pos p) + e))) as Hv.
  destruct (shl_align p e _) as [mz ez]. simpl in Hv.
  apply binary_round_aux_exact_fle; [|exact Htop]. rewrite Hv. exact HU.
Qed.

Lemma binary_round_noshift_fle p e U :
  fexp prec emax (Zpos (digits2_pos p) + e) <= e ->
  (val (Zpos p) e <= U)%Q -> (U < top)%Q ->
  fle (binary_round prec emax false p e) U.
Proof.
  intros Hle HU Htop. unfold binary_round.
  pose proof (shl_align_val p e (fexp prec emax (Zpos (digits2_pos p) + e))) as Hv.
  destruct (shl_align_spec p e (fexp prec emax (Zpos (digits2_pos p) + e)))
    as (mz & ez & E & Hez & _ & Hd).
  rewrite E in Hv |- *. simpl in Hv.
  apply binary_round_aux_noshift_fle; [|rewrite Hv; exact HU|exact Htop].
  rewrite Hd. lia.
Qed.

Lemma fle_is_finite f U : fle f U -> is_finite f = true.
Proof. destruct f as [s| | |[] m e]; simpl; tauto. Qed.

Lemma finish_is_finite s m2 e2 U :
  0 <= m2 -> (val m2 e2 <= U)%Q -> (U < top)%Q -> is_finite (finish s m2 e2) = true.
Proof.
  intros Hm Hv HU. pose proof (finish_fle m2 e2 U Hm Hv HU) as H.
  apply fle_is_finite in H. destruct m2 as [|p|p]; simpl in *; [reflexivity| |lia].
  destruct (e2 <=? emax - prec); [reflexivity | discriminate].
Qed.

Lemma binary_round_is_finite s p e :
  (val (Zpos p) e * (1 + eps) + eta < top)%Q ->
  is_finite (binary_round prec emax s p e) = true.
Proof.
  intros Htop. unfold binary_round.
  pose proof (shl_align_val p e (fexp prec emax (Zpos (digits2_pos p) + e))) as Hv.
  destruct (shl_align p e _) as [mz ez]. simpl in Hv.
  destruct (binary_round_aux_exact_bound mz ez) as (m2 & e2 & Hm2 & Hr & Hb).
  rewrite Hr. apply (finish_is_finite s m2 e2 _ Hm2 Hb).
  rewrite Hv. exact Htop.
Qed.

Lemma val_0 m : (val m 0 == inject_Z m)%Q.
Proof. unfold val. simpl. ring. Qed.

Lemma inject_Z_lt_top z : z < 2 ^ 971 -> (inject_Z z < top)%Q.
Proof.
  intros H. unfold top. change (emax - prec) with 971.
  rewrite pow2_inject by lia. rewrite <- Zlt_Qlt. exact H.
Qed.

Lemma float64_of_int_exact_fle z :
  0 <= z < 2 ^ 53 -> fle (float64_of_int z) (inject_Z z).
Proof.
  intros [H0 H1]. destruct z as [|p|p]; [simpl; apply Qle_refl| |lia].
  unfold float64_of_int, binary_normalize.
  apply binary_round_noshift_fle.
  - rewrite fexp_eq. pose proof (digits2_pos_bounds p) as [Hd _].
    assert (Zpos (digits2_pos p) - 1 < 53); [|lia].
    apply (Z.pow_lt_mono_r_iff 2); lia.
  - rewrite val_0. apply Qle_refl.
  - apply inject_Z_lt_top. assert (2 ^ 53 < 2 ^ 971) by (apply Z.pow_lt_mono_r; lia). lia.
Qed.

Lemma float64_of_int_fle z U :
  0 <= z -> (inject_Z z * (1 + eps) + eta <= U)%Q -> (U < top)%Q ->
  fle (float64_of_int z) U.
Proof.
  intros H0 HU Htop. destruct z as [|p|p]; [|
    apply binary_round_fle; [rewrite val_0; exact HU | exact Htop] | lia].
  simpl. eapply Qle_trans; [|exact HU]. pose proof eta_pos.
  change (inject_Z 0) with 0%Q. lra.
Qed.

Lemma val_mul m1 e1 m2 e2 : (val (m1 * m2) (e1 + e2) == val m1 e1 * val m2 e2)%Q.
Proof. unfold val. rewrite inject_Z_mult, pow2_add. ring. Qed.

Lemma fmul_fle x y X Y U :
  fle x X -> fle y Y -> (X * Y * (1 + eps) + eta <= U)%Q -> (U < top)%Q ->
  fle (fmul x y) U.
Proof.
  intros Hx Hy HU Htop.
  pose proof (fle_nonneg _ _ Hx) as HX. pose proof (fle_nonneg _ _ Hy) as HY.
  pose proof eps_pos as He. pose proof eta_pos as Ht.
  assert (HXY : (0 <= X * Y)%Q) by (apply Qmult_le_0_compat; assumption).
  assert (H0 : (0 <= U)%Q).
  { eapply Qle_trans; [|exact HU]. revert HXY He Ht. generalize (X * Y)%Q eps eta.
    intros; nra. }
  destruct x as [sx| | |[] mx ex], y as [sy| | |[] my ey]; simpl in Hx, Hy; try tauto;
    try exact H0.
  unfold fmul, SFmul. simpl xorb.
  apply binary_round_aux_exact_fle; [|exact Htop].
  eapply Qle_trans; [|exact HU].
  pose proof (val_mul (Zpos mx) ex (Zpos my) ey) as Hm.
  change (Zpos mx * Zpos my) with (Zpos (mx * my)) in Hm. rewrite Hm.
  assert (Hv : (val (Zpos mx) ex * val (Zpos my) ey <= X * Y)%Q).
  { apply Qmult_le_compat_nonneg; split; try assumption; apply val_nonneg; lia. }
  revert Hv He. generalize (val (Zpos mx) ex * val (Zpos my) ey)%Q (X * Y)%Q eps eta.
  intros; nra.
Qed.

Lemma fadd_fle x y X Y U :
  fle x X -> fle y Y -> ((X + Y) * (1 + eps) + eta <= U)%Q -> (U < top)%Q ->
  fle (fadd x y) U.
Proof.
  intros Hx Hy HU Htop.
  pose proof (fle_nonneg _ _ Hx) as HX. pose proof (fle_nonneg _ _ Hy) as HY.
  pose proof eps_pos as He. pose proof eta_pos as Ht.
  assert (Hle : forall v, (v <= X + Y)%Q -> (0 <= v)%Q -> (v <= U)%Q).
  { intros v Hv Hv0. eapply Qle_trans; [|exact HU].
    revert Hv Hv0 He Ht. generalize (X + Y)%Q eps eta. intros; nra. }
  destruct x as [sx| | |[] mx ex], y as [sy| | |[] my ey]; simpl in Hx, Hy; try tauto.
  - unfold fadd, SFadd. destruct sx, sy; simpl; apply Hle; lra.
  - simpl. apply Hle; [lra | apply val_nonneg; lia].
  - simpl. apply Hle; [lra | apply val_nonneg; lia].
  - unfold fadd, SFadd, cond_Zopp.
    pose proof (shl_align_val mx ex (Z.min ex ey)) as Hvx.
    pose proof (shl_align_val my ey (Z.min ex ey)) as Hvy.
    destruct (shl_align_spec mx ex (Z.min ex ey)) as (mx' & ex' & Ex & Hex & _ & _).
    destruct (shl_align_spec my ey (Z.min ex ey)) as (my' & ey' & Ey & Hey & _ & _).
    rewrite Ex in Hvx |- *. rewrite Ey in Hvy |- *. simpl fst in *. simpl snd in *.
    assert (Hex' : ex' = Z.min ex ey) by lia. rewrite Hex' in Hvx.
    assert (Hey' : ey' = Z.min ex ey) by lia. rewrite Hey' in Hvy.
    change (Zpos mx' + Zpos my') with (Zpos (mx' + my')).
    unfold binary_normalize.
    apply binary_round_fle; [|exact Htop].
    eapply Qle_trans; [|exact HU].
    assert (Hs : (val (Zpos (mx' + my')) (Z.min ex ey) ==
                  val (Zpos mx) ex + val (Zpos my) ey)%Q).
    { rewrite <- Hvx, <- Hvy. unfold val. rewrite Pos2Z.inj_add, inject_Z_plus. ring. }
    rewrite Hs. revert Hx Hy He.
    pose proof (val_nonneg (Zpos mx) ex ltac:(lia)) as H1.
    pose proof (val_nonneg (Zpos my) ey ltac:(lia)) as H2. revert H1 H2.
    generalize (val (Zpos mx) ex) (val (Zpos my) ey) eps eta. intros; nra.
Qed.

Lemma val_pos p e : (0 < val (Zpos p) e)%Q.
Proof.
  unfold val. apply Qmult_lt_0_compat; [|apply pow2_pos].
  change 0%Q with (inject_Z 0). rewrite <- Zlt_Qlt. lia.
Qed.

Lemma val_lower p e : (2 ^ (Zpos (digits2_pos p) - 1 + e) <= val (Zpos p) e)%Q.
Proof.
  rewrite pow2_add. unfold val.
  apply Qmult_le_compat_r; [|apply Qlt_le_weak, pow2_pos].
  pose proof (digits2_pos_bounds p) as [Hd _].
  rewrite pow2_inject by lia. rewrite <- Zle_Qle. exact Hd.
Qed.

Lemma val_upper p e : (val (Zpos p) e <= 2 ^ (Zpos (digits2_pos p) + e))%Q.
Proof.
  rewrite pow2_add. unfold val.
  apply Qmult_le_compat_r; [|apply Qlt_le_weak, pow2_pos].
  pose proof (digits2_pos_bounds p) as [_ Hd].
  rewrite pow2_inject by lia. rewrite <- Zle_Qle. lia.
Qed.

Lemma div_core_spec mx ex my ey :
  exists q e' l,
    SFdiv_core_binary prec emax (Zpos mx) ex (Zpos my) ey = (q, e', l) /\
    0 <= q /\
    (val q e' * val (Zpos my) ey <= val (Zpos mx) ex)%Q /\
    Z.max e' (fexp prec emax (Zdigits2 q + e')) <=
      Z.max (Zpos (digits2_pos mx) + ex - (Zpos (digits2_pos my) + ey) - 52) (-1074).
Proof.
  unfold SFdiv_core_binary. simpl Zdigits2.
  set (d1 := Zpos (digits2_pos mx)). set (d2 := Zpos (digits2_pos my)).
  set (e' := Z.min (fexp prec emax (d1 + ex - (d2 + ey))) (ex - ey)).
  set (s := ex - ey - e').
  assert (Hs : 0 <= s) by (unfold s, e'; lia).
  set (m' := match s with Zpos _ => Z.shiftl (Zpos mx) s | Z0 => Zpos mx | Zneg _ => 0 end).
  assert (Hm' : m' = Zpos mx * 2 ^ s).
  { unfold m'. destruct s as [|ps|ps]; [simpl; lia| |lia].
    apply Z.shiftl_mul_pow2. lia. }
  assert (H2s : 0 < 2 ^ s) by (apply Z.pow_pos_nonneg; lia).
  destruct (Z.div_eucl m' (Zpos my)) as [q r] eqn:Eq.
  assert (Hq : q = m' / Zpos my) by (unfold Z.div; rewrite Eq; reflexivity).
  assert (Hq0 : 0 <= q) by (rewrite Hq; apply Z.div_pos; lia).
  assert (Hqm : q * Zpos my <= Zpos mx * 2 ^ s).
  { rewrite Hq, <- Hm', Z.mul_comm. apply Z.mul_div_le. lia. }
  exists q, e', (new_location (Zpos my) r). split; [reflexivity|]. split; [exact Hq0|]. split.
  - rewrite <- val_mul.
    assert (Hv : (val (Zpos mx) ex == val (Zpos mx * 2 ^ s) (e' + ey))%Q).
    { rewrite val_shl by exact Hs.
      replace (e' + ey + s) with ex by (unfold s; lia). reflexivity. }
    rewrite Hv. apply val_mono. exact Hqm.
  - pose proof (fexp_eq (d1 + ex - (d2 + ey))) as Hf. fold e' in Hf.
    rewrite fexp_eq.
    assert (Hd : Zdigits2 q + e' <= d1 + ex - (d2 + ey) + 1 \/ Zdigits2 q = 0).
    { destruct q as [|pq|pq]; [right; reflexivity| left |lia].
      simpl Zdigits2.
      pose proof (digits2_pos_bounds pq) as [Hq1 _].
      pose proof (digits2_pos_bounds my) as [Hy1 _].
      pose proof (digits2_pos_bounds mx) as [_ Hx2].
      fold d1 in Hx2. fold d2 in Hy1.
      set (dq := Zpos (digits2_pos pq)) in *.
      assert (H1 : 2 ^ (dq - 1) * 2 ^ (d2 - 1) <= Zpos pq * Zpos my).
      { apply Z.mul_le_mono_nonneg; try lia; apply Z.pow_nonneg; lia. }
      assert (H2 : Zpos mx * 2 ^ s < 2 ^ d1 * 2 ^ s) by (apply Z.mul_lt_mono_pos_r; lia).
      rewrite <- Z.pow_add_r in H1, H2 by (unfold dq, d1, d2; lia).
      assert (H3 : 2 ^ (dq - 1 + (d2 - 1)) < 2 ^ (d1 + s)) by lia.
      apply Z.pow_lt_mono_r_iff in H3; [|lia|unfold d1; lia].
      unfold s in H3. lia. }
    unfold e' in *. lia.
Qed.

Lemma fdiv_fle x my ey X U :
  fle x X ->
  (X / val (Zpos my) ey * (1 + 2 * eps) + eta <= U)%Q -> (U < top)%Q ->
  fle (fdiv x (S754_finite false my ey)) U.
Proof.
  intros Hx HU Htop.
  pose proof (fle_nonneg _ _ Hx) as HX.
  pose proof eps_pos as He. pose proof eta_pos as Ht.
  pose proof (val_pos my ey) as Hvy.
  assert (HXy : (0 <= X / val (Zpos my) ey)%Q).
  { apply Qle_shift_div_l; [exact Hvy|]. rewrite Qmult_0_l. exact HX. }
  assert (H0 : (0 <= U)%Q).
  { eapply Qle_trans; [|exact HU]. revert HXy He Ht.
    generalize (X / val (Zpos my) ey)%Q eps eta. intros; nra. }
  destruct x as [sx| | |[] mx ex]; simpl in Hx; try tauto.
  unfold fdiv, SFdiv.
  destruct (div_core_spec mx ex my ey) as (q & e' & l & E & Hq0 & Hqv & Hmax).
  rewrite E. simpl xorb.
  destruct (binary_round_aux_core q e' l Hq0) as (m2 & e2 & Hm2 & Hr & Hg & _).
  rewrite Hr. apply finish_fle; [exact Hm2| |exact Htop].
  eapply Qle_trans; [exact Hg|]. eapply Qle_trans; [|exact HU].
  set (D := Zpos (digits2_pos mx) + ex - (Zpos (digits2_pos my) + ey)) in *.
  set (x := (val (Zpos mx) ex / val (Zpos my) ey)%Q).
  assert (Hqx : (val q e' <= x)%Q) by (apply Qle_shift_div_l; assumption).
  assert (HxX : (x <= X / val (Zpos my) ey)%Q).
  { unfold x, Qdiv. apply Qmult_le_compat_r; [exact Hx|].
    apply Qlt_le_weak, Qinv_lt_0_compat, Hvy. }
  assert (Hx0 : (0 <= x)%Q).
  { apply Qle_shift_div_l; [exact Hvy|]. rewrite Qmult_0_l. apply val_nonneg. lia. }
  assert (Hu : (2 ^ Z.max e' (fexp prec emax (Zdigits2 q + e')) <= x * (2 * eps) + eta)%Q).
  { eapply Qle_trans; [apply pow2_le; exact Hmax|].
    destruct (Z.max_spec (D - 52) (-1074)) as [[_ ->]|[_ ->]].
    - fold eta. assert (0 <= x * (2 * eps))%Q by (apply Qmult_le_0_compat; lra). lra.
    - assert (Hlow : (2 ^ (D - 1) <= x)%Q).
      { apply Qle_shift_div_l; [exact Hvy|].
        eapply Qle_trans; [apply Qmult_le_compat_nonneg; split;
          [apply Qlt_le_weak, pow2_pos | apply Qle_refl |
           apply Qlt_le_weak, Hvy | apply val_upper] |].
        rewrite <- pow2_add.
        replace (D - 1 + (Zpos (digits2_pos my) + ey))
          with (Zpos (digits2_pos mx) - 1 + ex) by (unfold D; lia).
        apply val_lower. }
      replace (D - 52) with (D - 1 + (-51)) by lia. rewrite pow2_add.
      assert (E51 : (2 * eps == 2 ^ (-51))%Q) by reflexivity.
      rewrite E51.
      assert (H51 : (0 < 2 ^ (-51))%Q) by apply pow2_pos.
      revert Hlow H51 Ht. generalize (2 ^ (D - 1))%Q (2 ^ (-51))%Q eta. intros; nra. }
  revert Hqx HxX Hx0 Hu He.
  generalize (val q e') (2 ^ Z.max e' (fexp prec emax (Zdigits2 q + e')))%Q
    (X / val (Zpos my) ey)%Q eps eta x.
  intros; nra.
Qed.

Lemma int_of_float64_small f U :
  fle f U -> (U < 1)%Q -> int_of_float64 f = 0.
Proof.
  intros Hf HU. destruct f as [s| | |[] m e]; simpl in Hf; try tauto.
  assert (Hv : (val (Zpos m) e < 1)%Q) by (eapply Qle_lt_trans; eassumption).
  assert (He : e < 0).
  { destruct (Z.lt_ge_cases e 0) as [|He]; [assumption|]. exfalso.
    apply (Qlt_irrefl 1). eapply Qle_lt_trans; [|exact Hv].
    unfold val. rewrite pow2_inject by lia. rewrite <- inject_Z_mult.
    change 1%Q with (inject_Z 1). rewrite <- Zle_Qle.
    assert (0 < 2 ^ e) by (apply Z.pow_pos_nonneg; lia). nia. }
  assert (Hm : Zpos m < 2 ^ (- e)).
  { rewrite Zlt_Qlt, <- pow2_inject by lia.
    apply (Qmult_lt_r _ _ (2 ^ e)); [apply pow2_pos|].
    rewrite <- pow2_add. replace (- e + e) with 0 by lia. exact Hv. }
  unfold int_of_float64.
  rewrite Z.shiftl_div_pow2 by lia. rewrite Z.div_small by lia. reflexivity.
Qed.

Lemma f1e9_of_int : float64_of_int 1000000000 = f1e9.
Proof. reflexivity. Qed.

Lemma f60_of_int : float64_of_int 60 = f60.
Proof. reflexivity. Qed.

Lemma eps_eq : (eps == 1 # 4503599627370496)%Q.
Proof. reflexivity. Qed.

Lemma eta_le : (eta <= 1 # 1267650600228229401496703205376)%Q.
Proof. unfold eta. change (1 # 1267650600228229401496703205376)%Q with (2 ^ (-100))%Q.
  apply pow2_le. lia. Qed.

Lemma top_ge : (inject_Z (2 ^ 100) <= top)%Q.
Proof. unfold top. rewrite <- pow2_inject by lia. apply pow2_le. unfold emax, prec. lia. Qed.

Lemma val_f1e9 : (val 8388608000000000 (-23) == 1000000000)%Q.
Proof. reflexivity. Qed.

Lemma val_f60 : (val 8444249301319680 (-47) == 60)%Q.
Proof. reflexivity. Qed.

Lemma float64_of_int_is_finite z :
  - 2 ^ 64 <= z <= 2 ^ 64 -> is_finite (float64_of_int z) = true.
Proof.
  intros Hz. unfold float64_of_int, binary_normalize.
  assert (Hb : forall p, Zpos p <= 2 ^ 64 ->
            (val (Zpos p) 0 * (1 + eps) + eta < top)%Q).
  { intros p Hp. rewrite val_0, eps_eq.
    pose proof eta_le. pose proof top_ge as Htop.
    change (inject_Z (2 ^ 100)) with 1267650600228229401496703205376%Q in Htop.
    rewrite Zle_Qle in Hp. change (inject_Z (2 ^ 64)) with 18446744073709551616%Q in Hp.
    revert Hp. generalize (inject_Z (Zpos p)). intros; lra. }
  destruct z as [|p|p]; [reflexivity | |]; apply binary_round_is_finite, Hb; lia.
Qed.

Lemma Seconds_0 : Seconds 0 = S754_zero false.
Proof. reflexivity. Qed.

(** *** Bounds from below *)

Lemma eps_lt_1 : (eps < 1 # 4)%Q.
Proof. rewrite eps_eq. reflexivity. Qed.

Lemma val_sub m k e : (val (m - k) e == val m e - val k e)%Q.
Proof. unfold val, Z.sub. rewrite inject_Z_plus, inject_Z_opp. ring. Qed.

Lemma val_pow2 k e : 0 <= k -> (val (2 ^ k) e == 2 ^ (e + k))%Q.
Proof.
  intros Hk. unfold val. rewrite pow2_add, (pow2_inject k Hk). ring.
Qed.

(** The digits a right shift drops are worth less than one unit in the last
    place kept. *)
Lemma val_shr_lower m e k :
  0 <= m -> 0 <= k -> (val m e - 2 ^ (e + k) <= val (m / 2 ^ k) (e + k))%Q.
Proof.
  intros Hm Hk.
  assert (H2 : 0 < 2 ^ k) by (apply Z.pow_pos_nonneg; lia).
  rewrite <- (val_shl (m / 2 ^ k) e k Hk), <- (val_pow2 k e Hk), <- val_sub.
  apply val_mono.
  pose proof (Z.mod_pos_bound m (2 ^ k) H2) as Hmod.
  pose proof (Z.div_mod m (2 ^ k) ltac:(lia)) as Hdm. lia.
Qed.

Lemma ulp_bound_Z m e :
  0 <= m -> e < fexp prec emax (Zdigits2 m + e) ->
  (2 ^ fexp prec emax (Zdigits2 m + e) <= val m e * eps + eta)%Q.
Proof.
  intros Hm He. destruct m as [|p|p]; [| apply ulp_bound | lia].
  simpl Zdigits2 in *. rewrite fexp_eq in *.
  assert (E : Z.max (0 + e - 53) (-1074) = -1074) by lia.
  rewrite E. unfold val. rewrite Qmult_0_l, Qmult_0_l, Qplus_0_l. apply Qle_refl.
Qed.

Lemma shift_lower m e :
  0 <= m ->
  (val m e * (1 - eps) - eta <=
   val (m / 2 ^ (Z.max e (fexp prec emax (Zdigits2 m + e)) - e))
       (Z.max e (fexp prec emax (Zdigits2 m + e))))%Q.
Proof.
  intros Hm.
  pose proof (val_nonneg m e Hm) as Hv.
  pose proof eps_pos as He. pose proof eta_pos as Ht.
  destruct (Z.max_spec e (fexp prec emax (Zdigits2 m + e))) as [[Hlt ->]|[Hle ->]].
  - pose proof (ulp_bound_Z m e Hm Hlt) as Hu.
    set (e' := fexp prec emax (Zdigits2 m + e)) in *.
    pose proof (val_shr_lower m e (e' - e) Hm ltac:(lia)) as Hs.
    replace (e + (e' - e)) with e' in Hs by lia.
    eapply Qle_trans; [|exact Hs].
    revert Hu. generalize (val m e) (2 ^ e')%Q eps eta. intros; lra.
  - rewrite Z.sub_diag. change (2 ^ 0) with 1. rewrite Z.div_1_r.
    revert Hv He Ht. generalize (val m e) eps eta. intros; nra.
Qed.

Lemma binary_round_aux_lower m e l :
  0 <= m ->
  exists m2 e2,
    0 <= m2 /\
    (forall s, binary_round_aux prec emax s m e l = finish s m2 e2) /\
    (val m e * (1 - 2 * eps) - 2 * eta <= val m2 e2)%Q /\
    (l = loc_Exact -> fexp prec emax (Zdigits2 m + e) <= e ->
     (val m e <= val m2 e2)%Q).
Proof.
  intros Hm.
  destruct (shr_fexp_spec m e l Hm) as (mrs1 & e1 & E1 & He1 & Hm1 & Hl1).
  pose proof (round_nearest_even_bounds (shr_m mrs1) (loc_of_shr_record mrs1)) as Hr.
  set (m1 := round_nearest_even (shr_m mrs1) (loc_of_shr_record mrs1)) in *.
  assert (Hq : 0 <= shr_m mrs1).
  { rewrite Hm1. apply Z.div_pos; [exact Hm|]. apply Z.pow_pos_nonneg; lia. }
  assert (Hm1' : 0 <= m1) by lia.
  destruct (shr_fexp_spec m1 e1 loc_Exact Hm1') as (mrs2 & e2 & E2 & He2 & Hm2 & _).
  exists (shr_m mrs2), e2.
  pose proof (shift_lower m e Hm) as HA. rewrite <- He1, <- Hm1 in HA.
  pose proof (shift_lower m1 e1 Hm1') as HB. rewrite <- He2, <- Hm2 in HB.
  assert (HM : (val (shr_m mrs1) e1 <= val m1 e1)%Q) by (apply val_mono; lia).
  pose proof (val_nonneg m e Hm) as Hv.
  pose proof eps_pos as He. pose proof eps_lt_1 as He'. pose proof eta_pos as Ht.
  split; [|split; [|split]].
  - rewrite Hm2. apply Z.div_pos; [exact Hm1'|]. apply Z.pow_pos_nonneg; lia.
  - intros s. unfold binary_round_aux. rewrite E1. fold m1. rewrite E2. reflexivity.
  - revert HA HB HM Hv He He' Ht.
    generalize (val m e) (val (shr_m mrs1) e1) (val m1 e1) (val (shr_m mrs2) e2) eps eta.
    intros; nra.
  - intros Hl Hf. assert (Hee : e1 = e) by lia.
    specialize (Hl1 Hee).
    assert (Hs1 : shr_m mrs1 = m).
    { rewrite Hm1, Hee, Z.sub_diag. apply Z.div_1_r. }
    assert (Hmm : m1 = m).
    { unfold m1. rewrite Hl1, Hl, Hs1. reflexivity. }
    assert (Hee2 : e2 = e) by (rewrite He2, Hmm, Hee; lia).
    rewrite Hm2, Hmm, Hee2, Hee, Z.sub_diag. change (2 ^ 0) with 1. rewrite Z.div_1_r.
    apply Qle_refl.
Qed.

Lemma finish_fge m2 e2 L U :
  fle (finish false m2 e2) U -> 0 <= m2 -> (L <= val m2 e2)%Q ->
  fge (finish false m2 e2) L.
Proof.
  intros Hf Hm HL. destruct m2 as [|p|p]; simpl in *.
  - unfold val in HL. rewrite Qmult_0_l in HL. exact HL.
  - destruct (e2 <=? emax - prec); simpl in *; [exact HL | exact Hf].
  - lia.
Qed.

Lemma fge_mono f L L' : fge f L -> (L' <= L)%Q -> fge f L'.
Proof.
  destruct f as [s| | |[] m e]; simpl; try tauto; intros H1 H2; eapply Qle_trans; eassumption.
Qed.

Lemma binary_round_aux_fge m e l L U :
  0 <= m ->
  fle (binary_round_aux prec emax false m e l) U ->
  (L <= val m e * (1 - 2 * eps) - 2 * eta)%Q ->
  fge (binary_round_aux prec emax false m e l) L.
Proof.
  intros Hm Hf HL.
  destruct (binary_round_aux_lower m e l Hm) as (m2 & e2 & Hm2 & Hr & Hb & _).
  rewrite Hr in Hf |- *. apply (finish_fge m2 e2 L U Hf Hm2).
  eapply Qle_trans; eassumption.
Qed.

Lemma binary_round_fge p e L U :
  fle (binary_round prec emax false p e) U ->
  (L <= val (Zpos p) e * (1 - 2 * eps) - 2 * eta)%Q ->
  fge (binary_round prec emax false p e) L.
Proof.
  unfold binary_round. intros Hf HL.
  pose proof (shl_align_val p e (fexp prec emax (Zpos (digits2_pos p) + e))) as Hv.
  destruct (shl_align p e _) as [mz ez]. simpl in Hv.
  apply (binary_round_aux_fge _ _ _ L U); [lia | exact Hf |].
  rewrite Hv. exact HL.
Qed.

Lemma float64_of_int_exact_fge z :
  0 <= z < 2 ^ 53 -> fge (float64_of_int z) (inject_Z z).
Proof.
  intros [H0 H1].
  pose proof (float64_of_int_exact_fle z (conj H0 H1)) as Hf.
  destruct z as [|p|p]; [simpl; apply Qle_refl| |lia].
  unfold float64_of_int, binary_normalize, binary_round in *.
  pose proof (shl_align_val p 0 (fexp prec emax (Zpos (digits2_pos p) + 0))) as Hv.
  destruct (shl_align_spec p 0 (fexp prec emax (Zpos (digits2_pos p) + 0)))
    as (mz & ez & E & Hez & _ & Hd).
  rewrite E in Hv, Hf |- *. simpl in Hv.
  destruct (binary_round_aux_lower (Zpos mz) ez loc_Exact ltac:(lia))
    as (m2 & e2 & Hm2 & Hr & _ & Hx).
  rewrite Hr in Hf |- *. apply (finish_fge m2 e2 _ _ Hf Hm2).
  rewrite <- (val_0 (Zpos p)), <- Hv. apply Hx; [reflexivity|].
  simpl Zdigits2. rewrite Hd. rewrite fexp_eq in *.
  pose proof (digits2_pos_bounds p) as [Hdp _].
  assert (Zpos (digits2_pos p) - 1 < 53); [|lia].
  apply (Z.pow_lt_mono_r_iff 2); lia.
Qed.

Lemma fmul_fge x y Lx Ly L U :
  fle (fmul x y) U -> fge x Lx -> fge y Ly -> (0 <= Lx)%Q -> (0 <= Ly)%Q ->
  (L <= Lx * Ly * (1 - 2 * eps) - 2 * eta)%Q ->
  fge (fmul x y) L.
Proof.
  intros Hf Hx Hy HLx HLy HL.
  pose proof eps_pos as He. pose proof eps_lt_1 as He'. pose proof eta_pos as Ht.
  assert (Hz : (Lx <= 0)%Q \/ (Ly <= 0)%Q -> (L <= 0)%Q).
  { intros Hor. eapply Qle_trans; [exact HL|].
    assert (E : (Lx * Ly == 0)%Q).
    { destruct Hor as [H|H].
      - assert (E0 : (Lx == 0)%Q) by (apply Qle_antisym; assumption). rewrite E0. ring.
      - assert (E0 : (Ly == 0)%Q) by (apply Qle_antisym; assumption). rewrite E0. ring. }
    rewrite E. revert Ht He'. generalize eps eta. intros; lra. }
  destruct x as [sx| | |[] mx ex], y as [sy| | |[] my ey]; simpl in Hx, Hy; try tauto;
    try (simpl; apply Hz; auto; fail).
  unfold fmul, SFmul in *. simpl xorb in *.
    apply (binary_round_aux_fge _ _ _ L U); [lia | exact Hf |].
    eapply Qle_trans; [exact HL|].
    pose proof (val_mul (Zpos mx) ex (Zpos my) ey) as Hm.
    change (Zpos mx * Zpos my) with (Zpos (mx * my)) in Hm. rewrite Hm.
    assert (Hv : (Lx * Ly <= val (Zpos mx) ex * val (Zpos my) ey)%Q).
    { apply Qmult_le_compat_nonneg; split; assumption. }
    revert Hv He He'. generalize (val (Zpos mx) ex * val (Zpos my) ey)%Q (Lx * Ly)%Q eps eta.
    intros; nra.
Qed.

Lemma fadd_fge x y Lx Ly L U :
  fle (fadd x y) U -> fge x Lx -> fge y Ly ->
  (L <= (Lx + Ly) * (1 - 2 * eps) - 2 * eta)%Q ->
  fge (fadd x y) L.
Proof.
  intros Hf Hx Hy HL.
  pose proof eps_pos as He. pose proof eps_lt_1 as He'. pose proof eta_pos as Ht.
  assert (Hle : forall v, (Lx + Ly <= v)%Q -> (0 <= v)%Q -> (L <= v)%Q).
  { intros v Hv Hv0. eapply Qle_trans; [exact HL|].
    revert Hv Hv0 He He' Ht. generalize (Lx + Ly)%Q eps eta. intros; nra. }
  destruct x as [sx| | |[] mx ex], y as [sy| | |[] my ey]; simpl in Hx, Hy; try tauto.
  - unfold fadd, SFadd. destruct sx, sy; simpl; apply Hle; lra.
  - simpl. pose proof (val_nonneg (Zpos my) ey ltac:(lia)). apply Hle; lra.
  - simpl. pose proof (val_nonneg (Zpos mx) ex ltac:(lia)). apply Hle; lra.
  - unfold fadd, SFadd, cond_Zopp in *.
    pose proof (shl_align_val mx ex (Z.min ex ey)) as Hvx.
    pose proof (shl_align_val my ey (Z.min ex ey)) as Hvy.
    destruct (shl_align_spec mx ex (Z.min ex ey)) as (mx' & ex' & Ex & Hex & _ & _).
    destruct (shl_align_spec my ey (Z.min ex ey)) as (my' & ey' & Ey & Hey & _ & _).
    rewrite Ex in Hvx, Hf |- *. rewrite Ey in Hvy, Hf |- *. simpl fst in *. simpl snd in *.
    assert (Hex' : ex' = Z.min ex ey) by lia. rewrite Hex' in Hvx.
    assert (Hey' : ey' = Z.min ex ey) by lia. rewrite Hey' in Hvy.
    change (Zpos mx' + Zpos my') with (Zpos (mx' + my')) in *.
    unfold binary_normalize in *.
    apply (binary_round_fge _ _ L U); [exact Hf|].
    eapply Qle_trans; [exact HL|].
    assert (Hs : (val (Zpos (mx' + my')) (Z.min ex ey) ==
                  val (Zpos mx) ex + val (Zpos my) ey)%Q).
    { rewrite <- Hvx, <- Hvy. unfold val. rewrite Pos2Z.inj_add, inject_Z_plus. ring. }
    rewrite Hs. revert Hx Hy He He'.
    generalize (val (Zpos mx) ex) (val (Zpos my) ey) eps eta. intros; nra.
Qed.

Lemma div_core_lower mx ex my ey :
  exists q e' l,
    SFdiv_core_binary prec emax (Zpos mx) ex (Zpos my) ey = (q, e', l) /\
    0 <= q /\
    (val (Zpos mx) ex <= (val q e' + 2 ^ e') * val (Zpos my) ey)%Q /\
    e' <= Z.max (Zpos (digits2_pos mx) + ex - (Zpos (digits2_pos my) + ey) - 52) (-1074).
Proof.
  unfold SFdiv_core_binary. simpl Zdigits2.
  set (d1 := Zpos (digits2_pos mx)). set (d2 := Zpos (digits2_pos my)).
  set (e' := Z.min (fexp prec emax (d1 + ex - (d2 + ey))) (ex - ey)).
  set (s := ex - ey - e').
  assert (Hs : 0 <= s) by (unfold s, e'; lia).
  set (m' := match s with Zpos _ => Z.shiftl (Zpos mx) s | Z0 => Zpos mx | Zneg _ => 0 end).
  assert (Hm' : m' = Zpos mx * 2 ^ s).
  { unfold m'. destruct s as [|ps|ps]; [simpl; lia| |lia].
    apply Z.shiftl_mul_pow2. lia. }
  assert (H2s : 0 < 2 ^ s) by (apply Z.pow_pos_nonneg; lia).
  destruct (Z.div_eucl m' (Zpos my)) as [q r] eqn:Eq.
  assert (Hq : q = m' / Zpos my) by (unfold Z.div; rewrite Eq; reflexivity).
  assert (Hq0 : 0 <= q) by (rewrite Hq; apply Z.div_pos; lia).
  assert (Hqm : Zpos mx * 2 ^ s <= (q + 1) * Zpos my).
  { rewrite <- Hm'.
    pose proof (Z.mod_pos_bound m' (Zpos my) ltac:(lia)) as Hmod.
    pose proof (Z.div_mod m' (Zpos my) ltac:(lia)) as Hdm. rewrite <- Hq in Hdm. lia. }
  exists q, e', (new_location (Zpos my) r). split; [reflexivity|]. split; [exact Hq0|]. split.
  - rewrite <- val_succ, <- val_mul.
    assert (Hv : (val (Zpos mx) ex == val (Zpos mx * 2 ^ s) (e' + ey))%Q).
    { rewrite val_shl by exact Hs.
      replace (e' + ey + s) with ex by (unfold s; lia). reflexivity. }
    rewrite Hv. apply val_mono. exact Hqm.
  - pose proof (fexp_eq (d1 + ex - (d2 + ey))) as Hf. unfold e'. lia.
Qed.

Lemma fdiv_fge x my ey Lx L U :
  fle (fdiv x (S754_finite false my ey)) U -> fge x Lx ->
  (L <= Lx / val (Zpos my) ey * (1 - 4 * eps) - 3 * eta)%Q ->
  fge (fdiv x (S754_finite false my ey)) L.
Proof.
  intros Hf Hx HL.
  pose proof eps_pos as He. pose proof eps_lt_1 as He'. pose proof eta_pos as Ht.
  pose proof (val_pos my ey) as Hvy.
  destruct x as [sx| | |[] mx ex]; simpl in Hx; try tauto.
  - simpl. eapply Qle_trans; [exact HL|].
    assert (H0 : (Lx / val (Zpos my) ey <= 0)%Q).
    { apply Qle_shift_div_r; [exact Hvy|]. rewrite Qmult_0_l. exact Hx. }
    revert H0 He He' Ht. generalize (Lx / val (Zpos my) ey)%Q eps eta. intros; nra.
  - unfold fdiv, SFdiv in *.
    destruct (div_core_lower mx ex my ey) as (q & e' & l & E & Hq0 & Hqv & Hmax).
    rewrite E in Hf |- *. simpl xorb in *.
    apply (binary_round_aux_fge _ _ _ L U); [exact Hq0 | exact Hf |].
    eapply Qle_trans; [exact HL|].
    set (D := Zpos (digits2_pos mx) + ex - (Zpos (digits2_pos my) + ey)) in *.
    set (X := (val (Zpos mx) ex / val (Zpos my) ey)%Q).
    assert (HLX : (Lx / val (Zpos my) ey <= X)%Q).
    { unfold X, Qdiv. apply Qmult_le_compat_r; [exact Hx|].
      apply Qlt_le_weak, Qinv_lt_0_compat, Hvy. }
    assert (HX0 : (0 <= X)%Q).
    { apply Qle_shift_div_l; [exact Hvy|]. rewrite Qmult_0_l. apply val_nonneg. lia. }
    assert (HXq : (X <= val q e' + 2 ^ e')%Q).
    { apply Qle_shift_div_r; [exact Hvy | exact Hqv]. }
    assert (Hu : (2 ^ e' <= X * (2 * eps) + eta)%Q).
    { eapply Qle_trans; [apply pow2_le; exact Hmax|].
      destruct (Z.max_spec (D - 52) (-1074)) as [[_ ->]|[_ ->]].
      - fold eta. assert (0 <= X * (2 * eps))%Q by (apply Qmult_le_0_compat; lra). lra.
      - assert (Hlow : (2 ^ (D - 1) <= X)%Q).
        { apply Qle_shift_div_l; [exact Hvy|].
          eapply Qle_trans; [apply Qmult_le_compat_nonneg; split;
            [apply Qlt_le_weak, pow2_pos | apply Qle_refl |
             apply Qlt_le_weak, Hvy | apply val_upper] |].
          rewrite <- pow2_add.
          replace (D - 1 + (Zpos (digits2_pos my) + ey))
            with (Zpos (digits2_pos mx) - 1 + ex) by (unfold D; lia).
          apply val_lower. }
        replace (D - 52) with (D - 1 + (-51)) by lia. rewrite pow2_add.
        assert (E51 : (2 * eps == 2 ^ (-51))%Q) by reflexivity.
        rewrite E51.
        assert (H51 : (0 < 2 ^ (-51))%Q) by apply pow2_pos.
        revert Hlow H51 Ht. generalize (2 ^ (D - 1))%Q (2 ^ (-51))%Q eta. intros; nra. }
    revert HLX HX0 HXq Hu He He' Ht.
    generalize (val q e') (2 ^ e')%Q (Lx / val (Zpos my) ey)%Q eps eta X.
    intros; nra.
Qed.

Lemma int_of_float64_one f U :
  fge f 1 -> fle f U -> (U < 2)%Q -> int_of_float64 f = 1.
Proof.
  intros Hg Hf HU. destruct f as [s| | |[] m e]; simpl in Hg, Hf; try tauto.
  - exfalso. revert Hg. apply Qlt_not_le. reflexivity.
  - assert (Hv : (val (Zpos m) e < 2)%Q) by (eapply Qle_lt_trans; eassumption).
    assert (Ha : Z.shiftl (Zpos m) e = 1).
    { destruct (Z.lt_ge_cases e 0) as [He|He].
      - rewrite Z.shiftl_div_pow2 by lia.
        assert (H2 : 0 < 2 ^ (- e)) by (apply Z.pow_pos_nonneg; lia).
        assert (Hlo : 2 ^ (- e) <= Zpos m).
        { rewrite Zle_Qle, <- pow2_inject by lia.
          apply (Qmult_le_r _ _ (2 ^ e)); [apply pow2_pos|].
          rewrite <- pow2_add. replace (- e + e) with 0 by lia. exact Hg. }
        assert (Hhi : Zpos m < 2 * 2 ^ (- e)).
        { rewrite Zlt_Qlt, inject_Z_mult, <- pow2_inject by lia.
          apply (Qmult_lt_r _ _ (2 ^ e)); [apply pow2_pos|].
          rewrite <- Qmult_assoc, <- pow2_add. replace (- e + e) with 0 by lia.
          exact Hv. }
        symmetry. apply (Z.div_unique _ _ 1 (Zpos m - 2 ^ (- e))); lia.
      - rewrite Z.shiftl_mul_pow2 by lia.
        unfold val in Hg, Hv. rewrite pow2_inject in Hg, Hv by lia.
        rewrite <- inject_Z_mult in Hg, Hv.
        change 1%Q with (inject_Z 1) in Hg. change 2%Q with (inject_Z 2) in Hv.
        rewrite <- Zle_Qle in Hg. rewrite <- Zlt_Qlt in Hv. lia. }
    unfold int_of_float64. rewrite Ha. reflexivity.
Qed.

End Float64Facts.

(** ** The rate limiter *)

Module RateLimiterFacts.
Import GoInt Float64 Clock Float64Facts RateLimiter.

Lemma tokensToAdd_below_period d r :
  0 < d -> 0 < r -> d * r < 60 * Second -> tokensToAdd d r = 0.
Proof.
  intros Hd Hr Hdr. unfold tokensToAdd, Seconds.
  set (sec := Z.quot d Second). set (nsec := Z.rem d Second).
  assert (Hdq : d = Second * sec + nsec) by apply Z.quot_rem'.
  assert (Hn : 0 <= nsec < Second) by (apply Z.rem_bound_pos; unfold Second; lia).
  assert (Hs : 0 <= sec) by (apply Z.quot_pos; unfold Second; lia).
  unfold Second in *.
  assert (Hr' : r < 60000000000) by nia.
  assert (Hs' : sec < 60) by nia.
  assert (Hsr : 1000000000 * (sec * r) + nsec * r <= 59999999999) by nia.
  assert (Hsr0 : 0 <= sec * r) by nia.
  assert (Hnr0 : 0 <= nsec * r) by nia.
  pose proof (float64_of_int_exact_fle sec ltac:(lia)) as F1.
  pose proof (float64_of_int_exact_fle nsec ltac:(lia)) as F2.
  pose proof (float64_of_int_exact_fle r ltac:(lia)) as F3.
  rewrite Zle_Qle in Hs, Hsr, Hsr0, Hnr0. rewrite Zlt_Qlt in Hs', Hr', Hr.
  destruct Hn as [Hn0 Hn1]. rewrite Zle_Qle in Hn0. rewrite Zlt_Qlt in Hn1.
  rewrite inject_Z_plus, inject_Z_mult, inject_Z_mult, inject_Z_mult in Hsr.
  rewrite inject_Z_mult in Hsr0. rewrite inject_Z_mult in Hnr0.
  revert F1 F2 F3 Hs Hs' Hn0 Hn1 Hr Hr' Hsr Hsr0 Hnr0.
  generalize (float64_of_int sec) (float64_of_int nsec) (float64_of_int r)
    (inject_Z sec) (inject_Z nsec) (inject_Z r).
  intros fs fn fr qs qn qr F1 F2 F3 Hs Hs' Hn0 Hn1 Hr Hr' Hsr Hsr0 Hnr0.
  change (inject_Z 0) with 0%Q in *. change (inject_Z 60) with 60%Q in *.
  change (inject_Z 1000000000) with 1000000000%Q in *.
  change (inject_Z 60000000000) with 60000000000%Q in *.
  change (inject_Z 59999999999) with 59999999999%Q in *.
  pose proof eps_eq as He. pose proof eta_le as Ht. pose proof eta_pos as Ht0.
  pose proof top_ge as Htop. change (inject_Z (2 ^ 100)) with 1267650600228229401496703205376%Q in Htop.
  set (Ua := (qn / val 8388608000000000 (-23) * (1 + 2 * eps) + eta)%Q).
  assert (Ea : (Ua == qn * (1 # 1000000000) * (1 + 2 * eps) + eta)%Q)
    by (unfold Ua; rewrite val_f1e9; reflexivity).
  assert (Fa : fle (fdiv fn f1e9) Ua).
  { apply (fdiv_fle fn _ _ qn); [exact F2 | apply Qle_refl |].
    rewrite Ea, He. revert Htop. generalize top eta Ht Ht0. intros; lra. }
  set (Us := ((qs + Ua) * (1 + eps) + eta)%Q).
  assert (Fs : fle (fadd fs (fdiv fn f1e9)) Us).
  { apply (fadd_fle _ _ qs Ua); [exact F1 | exact Fa | apply Qle_refl |].
    unfold Us. rewrite Ea, He. revert Htop. generalize top eta Ht Ht0. intros; lra. }
  set (Up := (Us * qr * (1 + eps) + eta)%Q).
  assert (Us_le : (Us <= 64)%Q).
  { unfold Us. rewrite Ea, He. revert Htop. generalize top eta Ht Ht0. intros; lra. }
  assert (Us_0 : (0 <= Us)%Q) by (eapply fle_nonneg; exact Fs).
  assert (Fp : fle (fmul (fadd fs (fdiv fn f1e9)) fr) Up).
  { apply (fmul_fle _ _ Us qr); [exact Fs | exact F3 | apply Qle_refl |].
    unfold Up. rewrite He. revert Htop Us_le Us_0. generalize top eta Ht Ht0 Us. intros; nra. }
  set (Uq := (Up / val 8444249301319680 (-47) * (1 + 2 * eps) + eta)%Q).
  assert (Eq : (Uq == Up * (1 # 60) * (1 + 2 * eps) + eta)%Q)
    by (unfold Uq; rewrite val_f60; reflexivity).
  assert (Fq : fle (fdiv (fmul (fadd fs (fdiv fn f1e9)) fr) f60) Uq).
  { apply (fdiv_fle _ _ _ Up); [exact Fp | apply Qle_refl |].
    rewrite Eq. unfold Up. rewrite He. revert Htop Us_le Us_0. generalize top eta Ht Ht0 Us. intros; nra. }
  apply (int_of_float64_small _ Uq Fq).
  rewrite Eq. unfold Up, Us. rewrite Ea, He.
  clear -Hs Hs' Hn0 Hn1 Hr Hr' Hsr Hsr0 Hnr0 Ht Ht0.
  revert Ht Ht0. generalize eta. intros t Ht Ht0.
  assert (Htr : (0 <= t * qr)%Q) by (apply Qmult_le_0_compat; lra).
  assert (Htr' : (t * qr <= t * 60000000000)%Q) by (apply Qmult_le_l; lra).
  nra.
Qed.

Lemma tokensToAdd_no_elapsed r :
  minInt <= r <= maxInt -> tokensToAdd 0 r = 0.
Proof.
  intros Hr. unfold tokensToAdd. rewrite Seconds_0.
  pose proof (float64_of_int_is_finite r) as Hf.
  unfold minInt, maxInt in Hr.
  assert (H64 : 2 ^ 64 = 2 * 2 ^ 63) by reflexivity.
  specialize (Hf ltac:(lia)).
  destruct (float64_of_int r) as [s| | |s m e]; try discriminate; reflexivity.
Qed.

Lemma tokensToAdd_lt_period d r :
  0 <= d -> 0 < r <= maxInt -> d * r < 60 * Second -> tokensToAdd d r = 0.
Proof.
  intros Hd Hr Hdr. destruct (Z.eq_dec d 0) as [->|Hne].
  - apply tokensToAdd_no_elapsed. unfold minInt, maxInt in *. lia.
  - apply tokensToAdd_below_period; lia.
Qed.

Lemma divisor_pairs_In fuel : forall k n x,
  k <= x < k + Z.of_nat fuel -> n mod x = 0 ->
  In x (divisor_pairs fuel k n) /\ In (n / x) (divisor_pairs fuel k n).
Proof.
  induction fuel as [|fuel IH]; intros k n x Hx Hmod; [lia|].
  simpl divisor_pairs. destruct (Z.eq_dec x k) as [->|Hne].
  - rewrite Hmod. simpl. auto.
  - destruct (IH (k + 1) n x ltac:(lia) Hmod) as [H1 H2].
    split; apply in_or_app; right; assumption.
Qed.

Lemma divisors_complete n r d :
  0 < r -> 0 < d -> r * d = n -> In r (divisors n).
Proof.
  intros Hr Hd Hn. unfold divisors.
  pose proof (Z.sqrt_spec n ltac:(nia)) as [Hs1 Hs2].
  pose proof (Z.sqrt_nonneg n) as Hs0.
  destruct (Z.le_gt_cases r (Z.sqrt n)) as [Hle|Hgt].
  - apply (divisor_pairs_In _ 1 n r); [rewrite Z2Nat.id by lia; lia|].
    subst n. rewrite Z.mul_comm. apply Z.mod_mul. lia.
  - assert (Hdle : d <= Z.sqrt n) by nia.
    replace r with (n / d) by (subst n; apply Z.div_mul; lia).
    apply (divisor_pairs_In _ 1 n d); [rewrite Z2Nat.id by lia; lia|].
    subst n. apply Z.mod_mul. lia.
Qed.

Lemma divisors_refill :
  forallb (fun r => if in_exceptions r then tokensToAdd (period / r) r =? 0
                    else tokensToAdd (period / r) r =? 1)
          (divisors period) = true.
Proof. vm_compute. reflexivity. Qed.

(** A wait of more than one refill period and less than two adds exactly one
    token. *)
Lemma tokensToAdd_one d r :
  0 < d -> 0 < r -> period < d * r < 2 * period -> tokensToAdd d r = 1.
Proof.
  intros Hd Hr [Hlo Hhi]. unfold tokensToAdd, Seconds.
  set (sec := Z.quot d Second). set (nsec := Z.rem d Second).
  assert (Hdq : d = Second * sec + nsec) by apply Z.quot_rem'.
  assert (Hn : 0 <= nsec < Second) by (apply Z.rem_bound_pos; unfold Second; lia).
  assert (Hs : 0 <= sec) by (apply Z.quot_pos; unfold Second; lia).
  unfold period, Second in *.
  assert (Hr' : r < 120000000000) by nia.
  assert (Hs' : sec < 120) by nia.
  assert (Hsr : 60000000001 <= 1000000000 * (sec * r) + nsec * r <= 119999999999) by nia.
  assert (Hd1 : 1 <= 1000000000 * sec + nsec) by lia.
  assert (Hsr0 : 0 <= sec * r) by nia.
  assert (Hnr0 : 0 <= nsec * r) by nia.
  pose proof (float64_of_int_exact_fle sec ltac:(lia)) as F1.
  pose proof (float64_of_int_exact_fle nsec ltac:(lia)) as F2.
  pose proof (float64_of_int_exact_fle r ltac:(lia)) as F3.
  pose proof (float64_of_int_exact_fge sec ltac:(lia)) as G1.
  pose proof (float64_of_int_exact_fge nsec ltac:(lia)) as G2.
  pose proof (float64_of_int_exact_fge r ltac:(lia)) as G3.
  destruct Hsr as [Hsr1 Hsr2].
  rewrite Zle_Qle in Hs, Hsr1, Hsr2, Hsr0, Hnr0, Hd1. rewrite Zlt_Qlt in Hs', Hr', Hr.
  destruct Hn as [Hn0 Hn1]. rewrite Zle_Qle in Hn0. rewrite Zlt_Qlt in Hn1.
  rewrite inject_Z_plus, inject_Z_mult, inject_Z_mult, inject_Z_mult in Hsr1, Hsr2.
  rewrite inject_Z_plus, inject_Z_mult in Hd1.
  rewrite inject_Z_mult in Hsr0. rewrite inject_Z_mult in Hnr0.
  revert F1 F2 F3 G1 G2 G3 Hs Hs' Hn0 Hn1 Hr Hr' Hsr1 Hsr2 Hsr0 Hnr0 Hd1.
  generalize (float64_of_int sec) (float64_of_int nsec) (float64_of_int r)
    (inject_Z sec) (inject_Z nsec) (inject_Z r).
  intros fs fn fr qs qn qr F1 F2 F3 G1 G2 G3 Hs Hs' Hn0 Hn1 Hr Hr' Hsr1 Hsr2 Hsr0 Hnr0 Hd1.
  change (inject_Z 0) with 0%Q in *. change (inject_Z 1) with 1%Q in *.
  change (inject_Z 120) with 120%Q in *.
  change (inject_Z 1000000000) with 1000000000%Q in *.
  change (inject_Z 120000000000) with 120000000000%Q in *.
  change (inject_Z 60000000001) with 60000000001%Q in *.
  change (inject_Z 119999999999) with 119999999999%Q in *.
  pose proof eps_eq as He. pose proof eta_le as Ht. pose proof eta_pos as Ht0.
  pose proof top_ge as Htop. change (inject_Z (2 ^ 100)) with 1267650600228229401496703205376%Q in Htop.
  (* nsec / 1e9 *)
  set (Ua := (qn / val 8388608000000000 (-23) * (1 + 2 * eps) + eta)%Q).
  set (La := (qn / val 8388608000000000 (-23) * (1 - 4 * eps) - 3 * eta)%Q).
  assert (Ea : (Ua == qn * (1 # 1000000000) * (1 + 2 * eps) + eta)%Q)
    by (unfold Ua; rewrite val_f1e9; reflexivity).
  assert (Eb : (La == qn * (1 # 1000000000) * (1 - 4 * eps) - 3 * eta)%Q)
    by (unfold La; rewrite val_f1e9; reflexivity).
  assert (Fa : fle (fdiv fn f1e9) Ua).
  { apply (fdiv_fle fn _ _ qn); [exact F2 | apply Qle_refl |].
    rewrite Ea, He. revert Htop. generalize top eta Ht Ht0. intros; lra. }
  assert (Ga : fge (fdiv fn f1e9) La).
  { apply (fdiv_fge fn _ _ qn La Ua); [exact Fa | exact G2 | apply Qle_refl]. }
  (* sec + nsec / 1e9 *)
  set (Us := ((qs + Ua) * (1 + eps) + eta)%Q).
  set (Ls := ((qs + La) * (1 - 2 * eps) - 2 * eta)%Q).
  assert (Fs : fle (fadd fs (fdiv fn f1e9)) Us).
  { apply (fadd_fle _ _ qs Ua); [exact F1 | exact Fa | apply Qle_refl |].
    unfold Us. rewrite Ea, He. revert Htop. generalize top eta Ht Ht0. intros; lra. }
  assert (Gs : fge (fadd fs (fdiv fn f1e9)) Ls).
  { apply (fadd_fge _ _ qs La Ls Us); [exact Fs | exact G1 | exact Ga | apply Qle_refl]. }
  assert (Us_le : (Us <= 128)%Q).
  { unfold Us. rewrite Ea, He. revert Htop. generalize top eta Ht Ht0. intros; lra. }
  assert (Us_0 : (0 <= Us)%Q) by (eapply fle_nonneg; exact Fs).
  assert (Ls_0 : (0 <= Ls)%Q).
  { unfold Ls. rewrite Eb, He. revert Ht Ht0. generalize eta. intros; lra. }
  (* ... * rpm *)
  set (Up := (Us * qr * (1 + eps) + eta)%Q).
  set (Lp := (Ls * qr * (1 - 2 * eps) - 2 * eta)%Q).
  assert (Fp : fle (fmul (fadd fs (fdiv fn f1e9)) fr) Up).
  { apply (fmul_fle _ _ Us qr); [exact Fs | exact F3 | apply Qle_refl |].
    unfold Up. rewrite He. revert Htop Us_le Us_0. generalize top eta Ht Ht0 Us. intros; nra. }
  assert (Gp : fge (fmul (fadd fs (fdiv fn f1e9)) fr) Lp).
  { apply (fmul_fge _ _ Ls qr Lp Up); [exact Fp | exact Gs | exact G3 | exact Ls_0 | lra
                                       | apply Qle_refl]. }
  (* ... / 60 *)
  set (Uq := (Up / val 8444249301319680 (-47) * (1 + 2 * eps) + eta)%Q).
  set (Lq := (Lp / val 8444249301319680 (-47) * (1 - 4 * eps) - 3 * eta)%Q).
  assert (Eq : (Uq == Up * (1 # 60) * (1 + 2 * eps) + eta)%Q)
    by (unfold Uq; rewrite val_f60; reflexivity).
  assert (Er : (Lq == Lp * (1 # 60) * (1 - 4 * eps) - 3 * eta)%Q)
    by (unfold Lq; rewrite val_f60; reflexivity).
  assert (Fq : fle (fdiv (fmul (fadd fs (fdiv fn f1e9)) fr) f60) Uq).
  { apply (fdiv_fle _ _ _ Up); [exact Fp | apply Qle_refl |].
    rewrite Eq. unfold Up. rewrite He. revert Htop Us_le Us_0. generalize top eta Ht Ht0 Us. intros; nra. }
  assert (Gq : fge (fdiv (fmul (fadd fs (fdiv fn f1e9)) fr) f60) Lq).
  { apply (fdiv_fge _ _ _ Lp Lq Uq); [exact Fq | exact Gp | apply Qle_refl]. }
  assert (Htr : (0 <= eta * qr)%Q) by (apply Qmult_le_0_compat; lra).
  assert (Htr' : (eta * qr <= eta * 120000000000)%Q) by (apply Qmult_le_l; lra).
  apply (int_of_float64_one _ Uq).
  - apply (fge_mono _ Lq); [exact Gq|].
    rewrite Er. unfold Lp, Ls. rewrite Eb, He.
    clear -Hs Hs' Hn0 Hn1 Hr Hr' Hsr1 Hsr0 Hnr0 Ht Ht0 Htr Htr'.
    revert Ht Ht0 Htr Htr'. generalize eta. intros t Ht Ht0 Htr Htr'.
    nra.
  - exact Fq.
  - rewrite Eq. unfold Up, Us. rewrite Ea, He.
    clear -Hs Hs' Hn0 Hn1 Hr Hr' Hsr2 Hsr0 Hnr0 Ht Ht0 Htr Htr'.
    revert Ht Ht0 Htr Htr'. generalize eta. intros t Ht Ht0 Htr Htr'.
    nra.
Qed.

(** The refill for a wait of one period or more and less than two: one
    token, but none at the exact period of a rate of [rounding_exceptions]. *)
Lemma tokensToAdd_period d r :
  0 < r -> 0 < d -> period <= r * d < 2 * period ->
  tokensToAdd d r = if (r * d =? period) && in_exceptions r then 0 else 1.
Proof.
  intros Hr Hd [Hlo Hhi].
  destruct (Z.eqb_spec (r * d) period) as [Heq|Hne]; simpl andb.
  - pose proof (divisors_complete period r d Hr Hd Heq) as Hin.
    pose proof divisors_refill as Hall. rewrite forallb_forall in Hall.
    specialize (Hall r Hin).
    replace (period / r) with d in Hall
      by (rewrite <- Heq, Z.mul_comm; symmetry; apply Z.div_mul; lia).
    destruct (in_exceptions r); apply Z.eqb_eq; exact Hall.
  - apply tokensToAdd_one; lia.
Qed.

Lemma wrap_small z : minInt <= z <= maxInt -> wrap z = z.
Proof.
  unfold wrap, minInt, maxInt. intros H.
  rewrite Z.mod_small; [lia|].
  change (2 ^ 64) with (2 * 2 ^ 63). lia.
Qed.

Lemma saturate_small z : minInt <= z <= maxInt -> saturate z = z.
Proof. unfold saturate. lia. Qed.

Lemma Sub_same t : Sub t t = 0.
Proof. unfold Sub. rewrite Z.sub_diag. reflexivity. Qed.

Lemma Sub_gap t g : 0 <= g <= maxInt -> Sub (t + g) t = g.
Proof.
  intros H. unfold Sub. replace (t + g - t) with g by lia.
  apply saturate_small. unfold minInt, maxInt in *. lia.
Qed.

Lemma allow_lastRefill cl r b now : lastRefill (snd (allow cl r b now)) = now.
Proof. unfold allow. destruct (0 <? _); reflexivity. Qed.

(** A call whose refill amount is zero: the bucket is capped, then one token
    is taken if there is one. *)
Lemma allow_no_refill cl r b now :
  tokensToAdd (Sub now (lastRefill cl)) r = 0 ->
  minInt <= tokens cl <= maxInt ->
  allow cl r b now =
    if 0 <? Z.min (tokens cl) b
    then (true, mkClient (Z.min (tokens cl) b - 1) now)
    else (false, mkClient (Z.min (tokens cl) b) now).
Proof.
  intros H0 Hr. unfold allow, add, sub. rewrite H0, Z.add_0_r, (wrap_small _ Hr).
  assert (Hc : (if b <? tokens cl then b else tokens cl) = Z.min (tokens cl) b).
  { destruct (Z.ltb_spec b (tokens cl)); lia. }
  rewrite Hc. destruct (Z.ltb_spec 0 (Z.min (tokens cl) b)) as [Hp|Hp]; [|reflexivity].
  rewrite wrap_small; [reflexivity|]. unfold minInt, maxInt in *. lia.
Qed.

Lemma client_of_known rl clientID created cl :
  clients rl !! clientID = Some cl -> client_of rl clientID created = cl.
Proof. intros H. unfold client_of. rewrite H. reflexivity. Qed.

Lemma Allow_spec rl clientID created now :
  Allow rl clientID created now =
    (fst (allow (client_of rl clientID created) (rpm rl) (burst rl) now),
     mkLimiter (<[clientID := snd (allow (client_of rl clientID created) (rpm rl) (burst rl) now)]>
                  (clients rl)) (rpm rl) (burst rl)).
Proof. unfold Allow. destruct (allow _ _ _ _). reflexivity. Qed.

Lemma run_cons rl clientID created now rest :
  run rl clientID ((created, now) :: rest) =
    (fst (Allow rl clientID created now) ::
       fst (run (snd (Allow rl clientID created now)) clientID rest),
     snd (run (snd (Allow rl clientID created now)) clientID rest)).
Proof.
  simpl. destruct (Allow rl clientID created now) as [ok rl1]. simpl.
  destruct (run rl1 clientID rest). reflexivity.
Qed.

Lemma run_app rl clientID c1 c2 :
  run rl clientID (c1 ++ c2) =
    (fst (run rl clientID c1) ++ fst (run (snd (run rl clientID c1)) clientID c2),
     snd (run (snd (run rl clientID c1)) clientID c2)).
Proof.
  revert rl. induction c1 as [|[created now] c1 IH]; intros rl.
  - simpl. destruct (run rl clientID c2). reflexivity.
  - rewrite <- app_comm_cons, !run_cons, IH. reflexivity.
Qed.

(** Calls at the instant of the last refill drain the bucket one token a
    call. *)
Lemma run_drain clientID t (k : nat) : forall rl created,
  client_of rl clientID created = mkClient (Z.of_nat k) t ->
  Z.of_nat k <= burst rl -> Z.of_nat k <= maxInt ->
  minInt <= rpm rl <= maxInt ->
  fst (run rl clientID (repeat (created, t) k)) = repeat true k /\
  rpm (snd (run rl clientID (repeat (created, t) k))) = rpm rl /\
  burst (snd (run rl clientID (repeat (created, t) k))) = burst rl /\
  client_of (snd (run rl clientID (repeat (created, t) k))) clientID created = mkClient 0 t.
Proof.
  induction k as [|k IH]; intros rl created Hc Hb Hm Hr.
  - simpl. auto.
  - change (repeat (created, t) (S k)) with ((created, t) :: repeat (created, t) k).
    rewrite run_cons, Allow_spec, Hc. simpl fst. simpl snd.
    rewrite allow_no_refill;
      [| simpl; rewrite Sub_same; apply tokensToAdd_no_elapsed; exact Hr
       | simpl; unfold minInt, maxInt in *; lia].
    simpl tokens. rewrite Z.min_l by lia.
    destruct (Z.ltb_spec 0 (Z.of_nat (S k))) as [_|]; [|lia]. simpl fst. simpl snd.
    set (rl1 := mkLimiter _ _ _).
    destruct (IH rl1 created) as (H1 & H2 & H3 & H4).
    + unfold client_of, rl1. simpl. rewrite lookup_insert_eq. f_equal. lia.
    + simpl. lia.
    + lia.
    + exact Hr.
    + rewrite H1, H2, H3, H4. auto.
Qed.

(** Calls of a client whose bucket is empty, each less than one refill
    period after the one before. *)
Lemma run_starved clientID : forall gaps rl cl,
  clients rl !! clientID = Some cl ->
  minInt <= tokens cl <= 0 ->
  0 < rpm rl <= maxInt ->
  minInt <= burst rl ->
  Forall (fun g => 0 <= g /\ g * rpm rl < period) gaps ->
  fst (run rl clientID (readings (lastRefill cl) gaps)) = repeat false (length gaps) /\
  exists cl',
    clients (snd (run rl clientID (readings (lastRefill cl) gaps))) !! clientID = Some cl' /\
    tokens cl' <= 0.
Proof.
  induction gaps as [|g gaps IH]; intros rl cl Hcl Htk Hr Hb Hg.
  - simpl. split; [reflexivity|]. exists cl. split; [exact Hcl | lia].
  - apply Forall_cons in Hg as [[Hg0 Hg1] Hg].
    assert (Hgm : g <= maxInt).
    { unfold period, Second, maxInt in *. nia. }
    simpl readings. rewrite run_cons, Allow_spec, (client_of_known _ _ _ _ Hcl).
    simpl fst. simpl snd.
    rewrite allow_no_refill;
      [| rewrite Sub_gap by lia; apply tokensToAdd_lt_period; [lia | exact Hr | exact Hg1]
       | unfold maxInt; lia].
    destruct (Z.ltb_spec 0 (Z.min (tokens cl) (burst rl))) as [|Hle]; [lia|].
    simpl fst. simpl snd.
    set (cl1 := mkClient _ _). set (rl1 := mkLimiter _ _ _).
    destruct (IH rl1 cl1) as [H1 H2].
    + unfold rl1. simpl. apply lookup_insert_eq.
    + unfold cl1. simpl. lia.
    + exact Hr.
    + exact Hb.
    + exact Hg.
    + simpl length. simpl repeat. unfold cl1 in H1, H2. simpl lastRefill in H1, H2.
      rewrite H1. split; [reflexivity | exact H2].
Qed.
End RateLimiterFacts.

Module RateLimiterTheorems.
Import GoInt Float64 Clock Float64Facts RateLimiter RateLimiterFacts.

(** The default configuration: 100 requests a minute, bursts of 20. *)
Example tokensToAdd_default_period : tokensToAdd 600000000 100 = 1.
Proof. vm_compute. reflexivity. Qed.

Example tokensToAdd_rounds_down : tokensToAdd 19200000 3125 = 0.
Proof. vm_compute. reflexivity. Qed.

Example tokensToAdd_next_nanosecond : tokensToAdd 19200001 3125 = 1.
Proof. vm_compute. reflexivity. Qed.

(** One call of a sequence, given the record it works on and what [allow]
    makes of it. *)
Lemma run_step rl clientID created now rest cl ok cl' :
  client_of rl clientID created = cl ->
  allow cl (rpm rl) (burst rl) now = (ok, cl') ->
  fst (run rl clientID ((created, now) :: rest)) =
    ok :: fst (run (mkLimiter (<[clientID := cl']> (clients rl)) (rpm rl) (burst rl))
                 clientID rest).
Proof.
  intros Hc Ha. rewrite run_cons, Allow_spec, Hc, Ha. reflexivity.
Qed.

Lemma allow_empty_at_once t r b :
  minInt <= r <= maxInt -> 0 <= b ->
  allow (mkClient 0 t) r b t = (false, mkClient 0 t).
Proof.
  intros Hr Hb. rewrite allow_no_refill.
  - simpl tokens. rewrite Z.min_l by lia. reflexivity.
  - simpl. rewrite Sub_same. apply tokensToAdd_no_elapsed. exact Hr.
  - simpl. unfold minInt, maxInt. lia.
Qed.

(** The call that comes [d] after the bucket was emptied. *)
Lemma allow_empty_after_wait t d r b :
  0 < r -> 0 < d -> period <= r * d < 2 * period -> 0 <= b ->
  allow (mkClient 0 t) r b (t + d) =
    (negb ((b =? 0) || ((r * d =? period) && in_exceptions r)), mkClient 0 (t + d)).
Proof.
  intros Hr Hd Hrd Hb.
  assert (Hdm : 0 <= d <= maxInt) by (unfold period, Second, maxInt in *; nia).
  unfold allow. simpl lastRefill. simpl tokens.
  rewrite Sub_gap by exact Hdm.
  rewrite (tokensToAdd_period d r Hr Hd Hrd).
  unfold add, sub.
  destruct ((r * d =? period) && in_exceptions r).
  - rewrite (wrap_small (0 + 0)) by (unfold minInt, maxInt; lia).
    rewrite orb_true_r. simpl negb.
    destruct (Z.ltb_spec b (0 + 0)) as [|_]; [lia|]. reflexivity.
  - rewrite (wrap_small (0 + 1)) by (unfold minInt, maxInt; lia).
    rewrite orb_false_r.
    destruct (Z.eqb_spec b 0) as [->|Hne]; [reflexivity|].
    destruct (Z.ltb_spec b (0 + 1)) as [|_]; [lia|]. reflexivity.
Qed.

(** C5, as the code has it.  For a client seen for the first time, with
    [burst = N] and a rate [rpm > 0]: [N] calls at one instant are admitted
    and the next is denied.  After a wait of [d] nanoseconds that is at
    least [60/rpm] seconds and less than twice that, one call is admitted
    and the one after it denied, with two exceptions in which both are
    denied: [burst = 0], and a wait of exactly [60/rpm] seconds at one of
    the 24 rates of [rounding_exceptions]. *)
Theorem burst_then_one_token_per_period :
  forall (rl : RateLimiter) (clientID : string) (t d : Time) (N : nat),
    clients rl !! clientID = None ->
    burst rl = Z.of_nat N ->
    Z.of_nat N <= maxInt ->
    0 < rpm rl ->
    0 < d ->
    period <= rpm rl * d < 2 * period ->
    fst (run rl clientID
           (repeat (t, t) (N + 1) ++ [(t + d, t + d); (t + d, t + d)]))
    = repeat true N ++ [false] ++
      (if (burst rl =? 0) || ((rpm rl * d =? period) && in_exceptions (rpm rl))
       then [false; false] else [true; false]).
Proof.
  intros rl clientID t d N Hnew Hb Hmax Hr Hd Hrd.
  assert (Hrm : minInt <= rpm rl <= maxInt).
  { unfold period, Second, minInt, maxInt in *. nia. }
  assert (Hb0 : 0 <= burst rl) by lia.
  rewrite repeat_app, <- app_assoc, run_app.
  destruct (run_drain clientID t N rl t) as (H1 & H2 & H3 & H4).
  { unfold client_of. rewrite Hnew, Hb. reflexivity. }
  { lia. }
  { exact Hmax. }
  { exact Hrm. }
  set (rl1 := snd (run rl clientID (repeat (t, t) N))) in *.
  rewrite H1. apply (f_equal (fun l => repeat true N ++ l)).
  change (repeat (t, t) 1 ++ [(t + d, t + d); (t + d, t + d)])
    with [(t, t); (t + d, t + d); (t + d, t + d)].
  (* the call that finds the bucket empty *)
  rewrite (run_step rl1 clientID t t _ _ false (mkClient 0 t) H4)
    by (rewrite H2, H3; apply allow_empty_at_once; [exact Hrm | exact Hb0]).
  apply (f_equal (cons false)).
  (* after the wait *)
  rewrite (run_step _ clientID (t + d) (t + d) _ (mkClient 0 t)
             (negb ((burst rl =? 0) || ((rpm rl * d =? period) && in_exceptions (rpm rl))))
             (mkClient 0 (t + d)));
    [ | unfold client_of; simpl; rewrite lookup_insert_eq; reflexivity
      | simpl; rewrite H2, H3; apply allow_empty_after_wait; assumption ].
  (* and none for the call after it *)
  rewrite (run_step _ clientID (t + d) (t + d) _ (mkClient 0 (t + d)) false (mkClient 0 (t + d)));
    [ | unfold client_of; simpl; rewrite lookup_insert_eq; reflexivity
      | simpl; rewrite H2, H3; apply allow_empty_at_once; [exact Hrm | exact Hb0] ].
  destruct ((burst rl =? 0) || ((rpm rl * d =? period) && in_exceptions (rpm rl)));
    reflexivity.
Qed.

Lemma burst_then_one_token_per_period_witness :
  fst (run (mkLimiter ∅ 7 2) "10.0.0.7"
         (repeat (0, 0) (2 + 1) ++ [(0 + 8571428572, 0 + 8571428572);
                                    (0 + 8571428572, 0 + 8571428572)]))
  = repeat true 2 ++ [false] ++ [true; false].
Proof.
  apply (burst_then_one_token_per_period (mkLimiter ∅ 7 2) "10.0.0.7" 0 8571428572 2).
  - reflexivity.
  - reflexivity.
  - vm_compute. discriminate.
  - reflexivity.
  - reflexivity.
  - vm_compute. split; [discriminate | reflexivity].
Defined.

(** C5 as stated fails twice over: with [burst = 0] the call after the wait
    is denied as well, the refilled token being capped away; and at 3125
    requests a minute the product for a wait of exactly 60/3125 s (19.2 ms)
    rounds to just below one, so no token is added. *)
Lemma burst_claim_counterexample :
  fst (run (mkLimiter ∅ 60 0) "10.0.0.7"
         (repeat (0, 0) (0 + 1) ++ [(1000000000, 1000000000); (1000000000, 1000000000)]))
  = [false; false; false]
  /\ 3125 * 19200000 = period
  /\ fst (run (mkLimiter ∅ 3125 1) "10.0.0.7"
         (repeat (0, 0) (1 + 1) ++ [(19200000, 19200000); (19200000, 19200000)]))
  = [true; false; false; false].
Proof. vm_compute. auto. Qed.

Lemma prefix_length gap n : length (prefix gap n) = n.
Proof. unfold prefix. rewrite length_map, length_seq. reflexivity. Qed.

(** With a positive rate, a call within one refill period of the clock
    reading before it gets no refill. *)
Lemma refill_within_period created now r :
  0 <= now - created -> 0 < r <= maxInt -> (now - created) * r < period ->
  tokensToAdd (Sub now created) r = 0.
Proof.
  intros H0 Hr Hp.
  assert (Hm : now - created <= maxInt) by (unfold period, Second, maxInt in *; nia).
  unfold Sub. rewrite saturate_small by (unfold minInt, maxInt in *; lia).
  apply tokensToAdd_lt_period; assumption.
Qed.

(** C6, as the code has it.  The first call of a client the limiter has not
    seen is admitted, and leaves a record of [burst - 1] tokens, whenever
    [burst >= 1] and the refill computed from the time between making the
    record and checking it is not negative and does not take the count
    beyond [int]. *)
Theorem first_request_admitted :
  forall (rl : RateLimiter) (clientID : string) (created now : Time),
    clients rl !! clientID = None ->
    1 <= burst rl ->
    0 <= tokensToAdd (Sub now created) (rpm rl) <= maxInt - burst rl ->
    Allow rl clientID created now =
      (true, mkLimiter (<[clientID := mkClient (burst rl - 1) now]> (clients rl))
                       (rpm rl) (burst rl)).
Proof.
  intros rl clientID created now Hnew Hb Ha.
  rewrite Allow_spec. unfold client_of. rewrite Hnew.
  unfold allow, add, sub. simpl lastRefill. simpl tokens.
  set (a := tokensToAdd (Sub now created) (rpm rl)) in *.
  rewrite (wrap_small (burst rl + a)) by (unfold minInt, maxInt in *; lia).
  assert (Hc : (if burst rl <? burst rl + a then burst rl else burst rl + a) = burst rl).
  { destruct (Z.ltb_spec (burst rl) (burst rl + a)); lia. }
  rewrite Hc. destruct (Z.ltb_spec 0 (burst rl)) as [_|]; [|lia].
  simpl fst. simpl snd.
  rewrite wrap_small by (unfold minInt, maxInt in *; lia). reflexivity.
Qed.

Lemma first_request_admitted_witness :
  Allow (mkLimiter ∅ 100 20) "10.0.0.7" 0 1000 =
    (true, mkLimiter (<["10.0.0.7" := mkClient (20 - 1) 1000]> ∅) 100 20).
Proof.
  apply (first_request_admitted (mkLimiter ∅ 100 20) "10.0.0.7" 0 1000).
  - reflexivity.
  - simpl. lia.
  - vm_compute. split; discriminate.
Defined.

(** C6 as stated fails for a limiter configured with [burst = 0]: the new
    record holds no token and the first call is denied. *)
Lemma first_request_claim_counterexample :
  clients (mkLimiter ∅ 100 0) !! "10.0.0.7" = None /\
  fst (Allow (mkLimiter ∅ 100 0) "10.0.0.7" 0 0) = false.
Proof. split; reflexivity. Qed.

(** C10.  Every call of [allow] moves [lastRefill] to the current clock
    reading, whatever the refill; so a client whose bucket is empty and
    whose calls come less than [60/rpm] seconds apart is denied every time:
    no call of the unending sequence [gap] adds a token, however long it
    goes on. *)
Theorem empty_bucket_starved_by_polling :
  forall (rl : RateLimiter) (clientID : string) (cl : ClientLimiter)
         (gap : nat -> Z) (n : nat),
    clients rl !! clientID = Some cl ->
    tokens cl = 0 ->
    0 < rpm rl <= maxInt ->
    minInt <= burst rl ->
    (forall i, 0 <= gap i /\ gap i * rpm rl < period) ->
    (forall cl0 now, lastRefill (snd (allow cl0 (rpm rl) (burst rl) now)) = now) /\
    Forall (fun g => tokensToAdd g (rpm rl) = 0) (prefix gap n) /\
    fst (run rl clientID (readings (lastRefill cl) (prefix gap n))) = repeat false n /\
    exists cl',
      clients (snd (run rl clientID (readings (lastRefill cl) (prefix gap n)))) !! clientID
        = Some cl' /\
      tokens cl' <= 0.
Proof.
  intros rl clientID cl gap n Hcl Htk Hr Hb Hgap.
  assert (Hall : Forall (fun g => 0 <= g /\ g * rpm rl < period) (prefix gap n)).
  { unfold prefix. apply Forall_forall. intros g Hg.
    apply list_elem_of_fmap in Hg as (i & -> & _). apply Hgap. }
  split; [intros cl0 now; apply allow_lastRefill|].
  split.
  - eapply Forall_impl; [exact Hall|]. intros g [Hg0 Hg1].
    apply tokensToAdd_lt_period; assumption.
  - destruct (run_starved clientID (prefix gap n) rl cl Hcl) as [H1 H2];
      [unfold minInt; lia | exact Hr | exact Hb | exact Hall |].
    rewrite prefix_length in H1. split; assumption.
Qed.

Lemma empty_bucket_starved_by_polling_witness :
  fst (run (mkLimiter {["10.0.0.7" := mkClient 0 0]} 100 20) "10.0.0.7"
         (readings 0 (prefix (fun _ => 500000000) 4)))
  = repeat false 4.
Proof.
  apply (empty_bucket_starved_by_polling
           (mkLimiter {["10.0.0.7" := mkClient 0 0]} 100 20) "10.0.0.7"
           (mkClient 0 0) (fun _ => 500000000) 4).
  - reflexivity.
  - reflexivity.
  - vm_compute. split; [reflexivity | discriminate].
  - vm_compute. discriminate.
  - intros i. vm_compute. split; [discriminate | reflexivity].
Defined.

End RateLimiterTheorems.

(** ** The processor *)

Module ProcessorFacts.
Import GoInt Float64 Clock Processor.

(** *** Running a computation *)

Lemma bind_Some {A B} (c : M A) (k : A -> M B) h a h1 :
  c h = Some (a, h1) -> (c ≫= k) h = k a h1.
Proof. intros H. unfold mbind, M_bind. rewrite H. reflexivity. Qed.

Lemma new_eq o h : new o h = Some (length h, h ++ [o]).
Proof. reflexivity. Qed.

Lemma write_Some l o h : (l < length h)%nat -> write l o h = Some (tt, <[l := o]> h).
Proof.
  intros H. unfold write. destruct (Nat.ltb_spec l (length h)); [reflexivity | lia].
Qed.

Lemma readGatewayMetrics_Some l g h :
  h !! l = Some (ObjGatewayMetrics g) -> readGatewayMetrics l h = Some (g, h).
Proof. intros H. unfold readGatewayMetrics. rewrite H. reflexivity. Qed.

Lemma readMetricsMap_Some l m h :
  h !! l = Some (ObjMetricsMap m) -> readMetricsMap l h = Some (m, h).
Proof. intros H. unfold readMetricsMap. rewrite H. reflexivity. Qed.

Lemma readHealthMap_Some l m h :
  h !! l = Some (ObjHealthMap m) -> readHealthMap l h = Some (m, h).
Proof. intros H. unfold readHealthMap. rewrite H. reflexivity. Qed.

Lemma readServiceMetrics_Some l m h :
  h !! l = Some (ObjServiceMetrics m) -> readServiceMetrics l h = Some (m, h).
Proof. intros H. unfold readServiceMetrics. rewrite H. reflexivity. Qed.

Lemma readHealth_Some l r h :
  h !! l = Some (ObjHealth r) -> readHealth l h = Some (r, h).
Proof. intros H. unfold readHealth. rewrite H. reflexivity. Qed.

Lemma putMetricsMap_Some l key value m h :
  h !! l = Some (ObjMetricsMap m) ->
  putMetricsMap l key value h = Some (tt, <[l := ObjMetricsMap (<[key := value]> m)]> h).
Proof.
  intros H. unfold putMetricsMap.
  rewrite (bind_Some _ _ _ _ _ (readMetricsMap_Some _ _ _ H)).
  apply write_Some. eapply lookup_lt_Some. exact H.
Qed.

Lemma putHealthMap_Some l key value m h :
  h !! l = Some (ObjHealthMap m) ->
  putHealthMap l key value h = Some (tt, <[l := ObjHealthMap (<[key := value]> m)]> h).
Proof.
  intros H. unfold putHealthMap.
  rewrite (bind_Some _ _ _ _ _ (readHealthMap_Some _ _ _ H)).
  apply write_Some. eapply lookup_lt_Some. exact H.
Qed.

(** *** Objects by type *)

Lemma holds_GatewayMetrics h l :
  holds 4 h l -> exists g, h !! l = Some (ObjGatewayMetrics g).
Proof. intros (o & Ho & Ht). destruct o; try discriminate. eauto. Qed.

Lemma holds_MetricsMap h l :
  holds 2 h l -> exists m, h !! l = Some (ObjMetricsMap m).
Proof. intros (o & Ho & Ht). destruct o; try discriminate. eauto. Qed.

Lemma holds_HealthMap h l :
  holds 3 h l -> exists m, h !! l = Some (ObjHealthMap m).
Proof. intros (o & Ho & Ht). destruct o; try discriminate. eauto. Qed.

Lemma holds_ServiceMetrics h l :
  holds 0 h l -> exists m, h !! l = Some (ObjServiceMetrics m).
Proof. intros (o & Ho & Ht). destruct o; try discriminate. eauto. Qed.

Lemma holds_Health h l :
  holds 1 h l -> exists r, h !! l = Some (ObjHealth r).
Proof. intros (o & Ho & Ht). destruct o; try discriminate. eauto. Qed.

Lemma holds_lookup h l o : h !! l = Some o -> holds (tagOf o) h l.
Proof. intros H. exists o. auto. Qed.

(** *** Extension *)

Lemma extends_refl h : extends h h.
Proof. split; [lia|]. intros l o H. eauto. Qed.

Lemma extends_trans h1 h2 h3 : extends h1 h2 -> extends h2 h3 -> extends h1 h3.
Proof.
  intros [L1 T1] [L2 T2]. split; [lia|]. intros l o H.
  destruct (T1 l o H) as (o' & H' & E'). destruct (T2 l o' H') as (o'' & H'' & E'').
  exists o''. split; [assumption | congruence].
Qed.

Lemma extends_alloc h o : extends h (h ++ [o]).
Proof.
  split; [rewrite length_app; lia|]. intros l o0 H.
  exists o0. split; [|reflexivity]. rewrite lookup_app_l; [exact H|].
  eapply lookup_lt_Some. exact H.
Qed.

Lemma extends_write h l o o0 :
  h !! l = Some o0 -> tagOf o = tagOf o0 -> extends h (<[l := o]> h).
Proof.
  intros H0 Ht. split; [rewrite length_insert; lia|]. intros l' o' H'.
  destruct (decide (l' = l)) as [->|Hne].
  - exists o. rewrite list_lookup_insert_eq by (eapply lookup_lt_Some; exact H0).
    split; [reflexivity | congruence].
  - exists o'. rewrite list_lookup_insert_ne by congruence. auto.
Qed.

Lemma holds_extends t h h' l : extends h h' -> holds t h l -> holds t h' l.
Proof.
  intros [_ T] (o & Ho & Ht). destruct (T l o Ho) as (o' & Ho' & Ht').
  exists o'. split; [assumption | congruence].
Qed.

Lemma objectOK_extends h h' o : extends h h' -> objectOK h o -> objectOK h' o.
Proof.
  intros E. destruct o; simpl; auto.
  - intros H s l Hl. eapply holds_extends; eauto.
  - intros H s l Hl. eapply holds_extends; eauto.
  - intros [H1 H2]. split; eapply holds_extends; eauto.
Qed.

Lemma heapOK_alloc h o : heapOK h -> objectOK (h ++ [o]) o -> heapOK (h ++ [o]).
Proof.
  intros Hh Ho l o' Hl.
  destruct (lookup_app_Some h [o] l o') as [[H|[Hlen H]] _]; [exact Hl | |].
  - eapply objectOK_extends; [apply extends_alloc | eapply Hh; exact H].
  - apply list_lookup_singleton_Some in H as [_ <-]. exact Ho.
Qed.

Lemma heapOK_write h l o o0 :
  heapOK h -> h !! l = Some o0 -> tagOf o = tagOf o0 ->
  objectOK (<[l := o]> h) o -> heapOK (<[l := o]> h).
Proof.
  intros Hh H0 Ht Ho l' o' Hl'.
  destruct (decide (l' = l)) as [->|Hne].
  - rewrite list_lookup_insert_eq in Hl' by (eapply lookup_lt_Some; exact H0).
    injection Hl' as <-. exact Ho.
  - rewrite list_lookup_insert_ne in Hl' by congruence.
    eapply objectOK_extends; [eapply extends_write; eassumption | eapply Hh; exact Hl'].
Qed.

Lemma wellFormed_extends gp h h' :
  wellFormed gp h -> extends h h' -> heapOK h' -> wellFormed gp h'.
Proof.
  intros (_ & H1 & H2) E Hh. split; [exact Hh|].
  split; eapply holds_extends; eassumption.
Qed.

(** *** The counters' invariant under allocation and writing *)

Lemma allBalanced_alloc h o : allBalanced h -> balancedObject o -> allBalanced (h ++ [o]).
Proof.
  intros Hh Ho l o' Hl.
  destruct (lookup_app_Some h [o] l o') as [[H|[Hlen H]] _]; [exact Hl | |].
  - eapply Hh; exact H.
  - apply list_lookup_singleton_Some in H as [_ <-]. exact Ho.
Qed.

Lemma allBalanced_write h l o :
  allBalanced h -> balancedObject o -> allBalanced (<[l := o]> h).
Proof.
  intros Hh Ho l' o' Hl'.
  destruct (decide (l' = l)) as [->|Hne].
  - destruct (decide (l < length h)%nat) as [Hlt|Hge].
    + rewrite list_lookup_insert_eq in Hl' by exact Hlt. injection Hl' as <-. exact Ho.
    + rewrite list_insert_ge in Hl' by lia. eapply Hh; exact Hl'.
  - rewrite list_lookup_insert_ne in Hl' by congruence. eapply Hh; exact Hl'.
Qed.

(** *** Regions left alone *)

Lemma agree_refl a b h : agree a b h h.
Proof. intros l _. reflexivity. Qed.

Lemma agree_trans a b h1 h2 h3 : agree a b h1 h2 -> agree a b h2 h3 -> agree a b h1 h3.
Proof. intros H1 H2 l Hl. rewrite (H2 l Hl). apply H1. exact Hl. Qed.

Lemma agree_alloc a b h o : (b <= length h)%nat -> agree a b h (h ++ [o]).
Proof. intros Hb l Hl. apply lookup_app_l. lia. Qed.

Lemma agree_write a b h l o : (l < a \/ b <= l)%nat -> agree a b h (<[l := o]> h).
Proof. intros Hl l' Hl'. apply list_lookup_insert_ne. lia. Qed.


(** *** The two updates *)

Lemma tag_ne_loc (h : heap) (l1 l2 : loc) o1 o2 :
  h !! l1 = Some o1 -> h !! l2 = Some o2 -> tagOf o1 <> tagOf o2 -> l1 <> l2.
Proof. intros H1 H2 Ht ->. congruence. Qed.

Lemma updateMetrics_ok gp service fg fm h :
  wellFormed gp h ->
  (forall g, ServiceMetricsMap (fg g) = ServiceMetricsMap g /\
             HealthStats (fg g) = HealthStats g) ->
  exists h',
    updateMetrics gp service fg fm h = Some (tt, h') /\
    wellFormed gp h' /\ extends h h' /\
    ((forall g, balancedObject (ObjGatewayMetrics g) ->
                balancedObject (ObjGatewayMetrics (fg g))) ->
     (forall m, balancedObject (ObjServiceMetrics m) ->
                balancedObject (ObjServiceMetrics (fm m))) ->
     allBalanced h -> allBalanced h') /\
    (forall n b, liveBelow n gp h -> agree n b h h' /\ liveBelow n gp h').
Proof.
  intros Hwf Hfg. pose proof Hwf as (Hh & Hm & Hs).
  destruct (holds_GatewayMetrics _ _ Hm) as [g Hg].
  pose proof (Hh _ _ Hg) as [Hsm Hhm]. simpl in Hsm, Hhm.
  destruct (holds_MetricsMap _ _ Hsm) as [sm Hsm'].
  destruct (Hfg g) as [Efg1 Efg2].
  set (h1 := <[metrics gp := ObjGatewayMetrics (fg g)]> h).
  assert (E1 : extends h h1) by (eapply extends_write; [exact Hg | reflexivity]).
  assert (Hh1 : heapOK h1).
  { eapply heapOK_write; [exact Hh | exact Hg | reflexivity |].
    simpl. rewrite Efg1, Efg2. split; eapply holds_extends; eassumption. }
  assert (Hne : ServiceMetricsMap g <> metrics gp).
  { eapply tag_ne_loc; [exact Hsm' | exact Hg | discriminate]. }
  assert (Hsm1 : h1 !! ServiceMetricsMap g = Some (ObjMetricsMap sm)).
  { unfold h1. rewrite list_lookup_insert_ne by congruence. exact Hsm'. }
  assert (Hg1 : h1 !! metrics gp = Some (ObjGatewayMetrics (fg g))).
  { unfold h1. apply list_lookup_insert_eq. eapply lookup_lt_Some. exact Hg. }
  assert (Hrun1 : updateMetrics gp service fg fm h =
            match sm !! service with
            | Some l => (m ← readServiceMetrics l; write l (ObjServiceMetrics (fm m))) h1
            | None => Some (tt, h1)
            end).
  { unfold updateMetrics.
    rewrite (bind_Some _ _ _ _ _ (readGatewayMetrics_Some _ _ _ Hg)).
    rewrite (bind_Some _ _ h _ h1) by (apply write_Some; eapply lookup_lt_Some; exact Hg).
    rewrite (bind_Some _ _ _ _ _ (readMetricsMap_Some _ _ _ Hsm1)).
    destruct (sm !! service); reflexivity. }
  assert (Hlive1 : forall n, liveBelow n gp h -> liveBelow n gp h1).
  { intros n (L1 & L2 & g0 & sm0 & Hg0 & L3 & L4 & Hsm0 & L5).
    assert (g0 = g) by congruence. subst g0.
    assert (sm0 = sm) by congruence. subst sm0.
    split; [exact L1|]. split; [exact L2|]. exists (fg g), sm.
    rewrite Efg1, Efg2. auto 10. }
  destruct (sm !! service) as [l|] eqn:Hl.
  - pose proof (Hh _ _ Hsm') as Hmap. simpl in Hmap.
    destruct (holds_ServiceMetrics _ _ (Hmap _ _ Hl)) as [m Hm0].
    assert (Hlne : l <> metrics gp).
    { eapply tag_ne_loc; [exact Hm0 | exact Hg | discriminate]. }
    assert (Hm1 : h1 !! l = Some (ObjServiceMetrics m)).
    { unfold h1. rewrite list_lookup_insert_ne by congruence. exact Hm0. }
    set (h2 := <[l := ObjServiceMetrics (fm m)]> h1).
    exists h2. split.
    { rewrite Hrun1.
      rewrite (bind_Some _ _ _ _ _ (readServiceMetrics_Some _ _ _ Hm1)).
      apply write_Some. eapply lookup_lt_Some. exact Hm1. }
    assert (E2 : extends h1 h2) by (eapply extends_write; [exact Hm1 | reflexivity]).
    assert (Hh2 : heapOK h2).
    { eapply heapOK_write; [exact Hh1 | exact Hm1 | reflexivity | exact I]. }
    assert (E : extends h h2) by (eapply extends_trans; eassumption).
    split; [eapply wellFormed_extends; [exact Hwf | exact E | exact Hh2]|].
    split; [exact E|]. split.
    + intros Bg Bm Hb. apply allBalanced_write; [apply allBalanced_write; [exact Hb|]|].
      * apply Bg. eapply (Hb _ _ Hg).
      * apply Bm. eapply (Hb _ _ Hm0).
    + intros n b Hlive.
      pose proof (Hlive1 n Hlive) as Hlive'.
      destruct Hlive as (L1 & L2 & g0 & sm0 & Hg0 & L3 & L4 & Hsm0 & L5).
      assert (g0 = g) by congruence. subst g0.
      assert (sm0 = sm) by congruence. subst sm0.
      split.
      * eapply agree_trans; [apply agree_write; left; exact L1|].
        apply agree_write. left. eapply L5. exact Hl.
      * destruct Hlive' as (_ & _ & g1 & sm1 & Hg1' & L3' & L4' & Hsm1' & L5').
        split; [exact L1|]. split; [exact L2|]. exists g1, sm1.
        assert (Hl2 : forall x, x <> l -> h2 !! x = h1 !! x).
        { intros x Hx. unfold h2. apply list_lookup_insert_ne. congruence. }
        rewrite (Hl2 (metrics gp)) by congruence.
        rewrite (Hl2 (ServiceMetricsMap g1)).
        { auto 10. }
        eapply tag_ne_loc; [exact Hsm1' | exact Hm1 | discriminate].
  - exists h1. split; [exact Hrun1|].
    split; [eapply wellFormed_extends; [exact Hwf | exact E1 | exact Hh1]|].
    split; [exact E1|]. split.
    + intros Bg Bm Hb. apply allBalanced_write; [exact Hb|]. apply Bg. eapply (Hb _ _ Hg).
    + intros n b Hlive. split; [|apply Hlive1; exact Hlive].
      destruct Hlive as (L1 & _). apply agree_write. left. exact L1.
Qed.

Lemma updateRequestMetrics_shape gp service success now :
  updateRequestMetrics gp service success now =
  updateMetrics gp service (fun g => countRequest g success)
    (fun m => countServiceRequest m success now).
Proof. reflexivity. Qed.

Lemma updateLatencyMetrics_shape gp service duration :
  updateLatencyMetrics gp service duration =
  updateMetrics gp service
    (fun g => withLatency g (float64_of_int (Milliseconds duration)))
    (fun m => withServiceLatency m (float64_of_int (Milliseconds duration))).
Proof. reflexivity. Qed.

Lemma wrap_add_l a b : wrap (wrap a + b) = wrap (a + b).
Proof.
  unfold wrap.
  replace ((a + 2 ^ 63) mod 2 ^ 64 - 2 ^ 63 + b + 2 ^ 63)
    with ((a + 2 ^ 63) mod 2 ^ 64 + b) by lia.
  rewrite Zplus_mod_idemp_l. f_equal. f_equal. lia.
Qed.

Lemma wrap_add_r a b : wrap (a + wrap b) = wrap (a + b).
Proof. rewrite (Z.add_comm a (wrap b)), wrap_add_l. f_equal. lia. Qed.

(** Counting a request keeps [total = success + error], in the wrapping
    arithmetic of [int64]. *)
Lemma balanced_count total success error (ok : bool) :
  balanced total success error ->
  balanced (add total 1)
    (if ok then add success 1 else success)
    (if ok then error else add error 1).
Proof.
  unfold balanced, add. intros ->. destruct ok.
  - rewrite wrap_add_l, wrap_add_l. f_equal. lia.
  - rewrite wrap_add_l, wrap_add_r. f_equal. lia.
Qed.

(** *** Health checks *)

Lemma lookup_insert_other_tag (h : heap) (l x : loc) o ol ox :
  h !! x = Some ox -> h !! l = Some ol -> tagOf ox <> tagOf ol ->
  <[l := o]> h !! x = Some ox.
Proof.
  intros Hx Hl Ht. rewrite list_lookup_insert_ne; [exact Hx|].
  intros ->. congruence.
Qed.

Lemma healthAt_Some (h : heap) l r : healthAt h l = Some r <-> h !! l = Some (ObjHealth r).
Proof.
  unfold healthAt. destruct (h !! l) as [[]|]; split; intros H; congruence.
Qed.

Lemma serviceAt_Some (h : heap) l m :
  serviceAt h l = Some m <-> h !! l = Some (ObjServiceMetrics m).
Proof.
  unfold serviceAt. destruct (h !! l) as [[]|]; split; intros H; congruence.
Qed.

(** Writing a map leaves what the other objects hold. *)
Lemma healthAt_write_map (h : heap) l m x :
  holds 3 h l -> healthAt (<[l := ObjHealthMap m]> h) x = healthAt h x.
Proof.
  intros (o & Ho & Ht). unfold healthAt.
  destruct (decide (x = l)) as [->|Hne].
  - rewrite list_lookup_insert_eq by (eapply lookup_lt_Some; exact Ho).
    rewrite Ho. destruct o; try discriminate; reflexivity.
  - rewrite list_lookup_insert_ne by congruence. reflexivity.
Qed.

Lemma healthAt_alloc (h : heap) o x :
  (x < length h)%nat -> healthAt (h ++ [o]) x = healthAt h x.
Proof. intros H. unfold healthAt. rewrite lookup_app_l by exact H. reflexivity. Qed.

Lemma liveBelow_alloc n gp (h : heap) o : liveBelow n gp h -> liveBelow n gp (h ++ [o]).
Proof.
  intros (L1 & L2 & g & sm & Hg & L3 & L4 & Hsm & L5).
  split; [exact L1|]. split; [exact L2|]. exists g, sm.
  rewrite lookup_app_l by (eapply lookup_lt_Some; exact Hg).
  rewrite lookup_app_l by (eapply lookup_lt_Some; exact Hsm). auto 10.
Qed.

Lemma liveBelow_write_healthMap n gp (h : heap) l m :
  holds 3 h l -> liveBelow n gp h -> liveBelow n gp (<[l := ObjHealthMap m]> h).
Proof.
  intros (o & Ho & Ht) (L1 & L2 & g & sm & Hg & L3 & L4 & Hsm & L5).
  split; [exact L1|]. split; [exact L2|]. exists g, sm.
  rewrite (lookup_insert_other_tag h l _ _ o _ Hg Ho) by (rewrite Ht; discriminate).
  rewrite (lookup_insert_other_tag h l _ _ o _ Hsm Ho) by (rewrite Ht; discriminate).
  auto 10.
Qed.

(** Entering a fresh result in a health table. *)
Lemma putHealthMap_ok (h : heap) l service (c : loc) :
  heapOK h -> holds 3 h l -> holds 1 h c ->
  exists m,
    h !! l = Some (ObjHealthMap m) /\
    putHealthMap l service c h = Some (tt, <[l := ObjHealthMap (<[service := c]> m)]> h) /\
    heapOK (<[l := ObjHealthMap (<[service := c]> m)]> h) /\
    extends h (<[l := ObjHealthMap (<[service := c]> m)]> h).
Proof.
  intros Hh Hl Hc. destruct (holds_HealthMap _ _ Hl) as [m Hm]. exists m.
  split; [exact Hm|]. split; [apply putHealthMap_Some; exact Hm|].
  assert (E : extends h (<[l := ObjHealthMap (<[service := c]> m)]> h)).
  { eapply extends_write; [exact Hm | reflexivity]. }
  split; [|exact E].
  eapply heapOK_write; [exact Hh | exact Hm | reflexivity |].
  simpl. intros s x Hx. eapply holds_extends; [exact E|].
  destruct (decide (s = service)) as [->|Hne].
  - rewrite lookup_insert_eq in Hx. injection Hx as <-. exact Hc.
  - rewrite lookup_insert_ne in Hx by congruence.
    pose proof (Hh _ _ Hm) as Hok. simpl in Hok. eapply Hok. exact Hx.
Qed.

Lemma performHealthCheck_sent gp service info p reply (h : heap) :
  wellFormed gp h -> outcome p = Sent reply ->
  exists h',
    performHealthCheck gp service info p h = Some (inl (length h), h') /\
    wellFormed gp h' /\ extends h h' /\
    (allBalanced h -> allBalanced h') /\
    (forall n b, liveBelow n gp h -> (b <= length h)%nat ->
                 agree n b h h' /\ liveBelow n gp h') /\
    storedHealth gp h' service = Some (probeResult service info p reply) /\
    (forall s, s <> service -> storedHealth gp h' s = storedHealth gp h s) /\
    healthAt h' (length h) = Some (probeResult service info p reply).
Proof.
  intros Hwf Hout. pose proof Hwf as (Hh & Hm & Hs).
  set (r := probeResult service info p reply).
  set (c := length h).
  set (h1 := h ++ [ObjHealth r]).
  assert (E1 : extends h h1) by apply extends_alloc.
  assert (Hh1 : heapOK h1) by (apply heapOK_alloc; [exact Hh | exact I]).
  assert (Hc1 : h1 !! c = Some (ObjHealth r)).
  { unfold h1, c. rewrite lookup_app_r by lia. rewrite Nat.sub_diag. reflexivity. }
  destruct (putHealthMap_ok h1 (healthStats gp) service c Hh1) as (hs & Hhs & Hput1 & Hh2 & E2).
  { eapply holds_extends; eassumption. }
  { eapply holds_lookup in Hc1. exact Hc1. }
  set (h2 := <[healthStats gp := ObjHealthMap (<[service := c]> hs)]> h1) in *.
  assert (E02 : extends h h2) by (eapply extends_trans; eassumption).
  destruct (holds_GatewayMetrics h2 (metrics gp)) as [g Hg2].
  { eapply holds_extends; eassumption. }
  pose proof (Hh2 _ _ Hg2) as [_ Hhm2]. simpl in Hhm2.
  destruct (putHealthMap_ok h2 (HealthStats g) service c Hh2 Hhm2) as (hm & Hhm & Hput2 & Hh3 & E3).
  { eapply holds_extends; [exact E2|]. eapply holds_lookup in Hc1. exact Hc1. }
  set (h3 := <[HealthStats g := ObjHealthMap (<[service := c]> hm)]> h2) in *.
  assert (E03 : extends h h3) by (eapply extends_trans; eassumption).
  exists h3. split.
  { unfold performHealthCheck. rewrite Hout.
    rewrite (bind_Some _ _ h c h1) by reflexivity.
    rewrite (bind_Some _ _ _ _ _ Hput1).
    rewrite (bind_Some _ _ _ _ _ (readGatewayMetrics_Some _ _ _ Hg2)).
    rewrite (bind_Some _ _ _ _ _ Hput2). reflexivity. }
  split; [eapply wellFormed_extends; eassumption|].
  split; [exact E03|].
  assert (Hhs3 : holds 3 h1 (healthStats gp)) by (eapply holds_extends; eassumption).
  (* what the health table of the processor holds at the end *)
  assert (Htable : exists hs3, h3 !! healthStats gp = Some (ObjHealthMap hs3) /\
                     hs3 !! service = Some c /\
                     forall s, s <> service -> hs3 !! s = hs !! s).
  { assert (Hhs2 : h2 !! healthStats gp = Some (ObjHealthMap (<[service := c]> hs))).
    { unfold h2. apply list_lookup_insert_eq. eapply lookup_lt_Some. exact Hhs. }
    destruct (decide (HealthStats g = healthStats gp)) as [Heq|Hne].
    - exists (<[service := c]> hm).
      assert (Ehm : hm = <[service := c]> hs) by (rewrite Heq in Hhm; congruence).
      split; [unfold h3; rewrite Heq; apply list_lookup_insert_eq;
              eapply lookup_lt_Some; exact Hhs2|].
      rewrite Ehm.
      split; [apply lookup_insert_eq|].
      intros s Hne. rewrite lookup_insert_ne by congruence.
      rewrite lookup_insert_ne by congruence. reflexivity.
    - exists (<[service := c]> hs).
      split; [unfold h3; rewrite list_lookup_insert_ne by congruence; exact Hhs2|].
      split; [apply lookup_insert_eq|].
      intros s Hne'. rewrite lookup_insert_ne by congruence. reflexivity. }
  assert (Hat : forall x, (x < length h)%nat -> healthAt h3 x = healthAt h x).
  { intros x Hx. unfold h3. rewrite healthAt_write_map by exact Hhm2.
    unfold h2. rewrite healthAt_write_map by exact Hhs3.
    apply healthAt_alloc. exact Hx. }
  assert (Hatc : healthAt h3 c = Some r).
  { unfold h3. rewrite healthAt_write_map by exact Hhm2.
    unfold h2. rewrite healthAt_write_map by exact Hhs3.
    apply healthAt_Some. exact Hc1. }
  assert (Hhs0 : h !! healthStats gp = Some (ObjHealthMap hs)).
  { destruct (holds_HealthMap _ _ Hs) as [hs0 Hhs0].
    unfold h1 in Hhs. rewrite lookup_app_l in Hhs by (eapply lookup_lt_Some; exact Hhs0).
    exact Hhs. }
  split.
  { intros Hb. unfold h3, h2, h1.
    apply allBalanced_write; [apply allBalanced_write; [apply allBalanced_alloc|]|];
      try exact I. exact Hb. }
  split.
  { intros n b Hlive Hb.
    pose proof Hlive as (L1 & L2 & g0 & sm0 & Hg0 & L3 & L4 & Hsm0 & L5).
    assert (Hgeq : g0 = g).
    { assert (Hx : h2 !! metrics gp = Some (ObjGatewayMetrics g0)).
      { unfold h2. eapply lookup_insert_other_tag;
          [unfold h1; rewrite lookup_app_l by (eapply lookup_lt_Some; exact Hg0); exact Hg0
          | exact Hhs | discriminate]. }
      congruence. }
    subst g0. split.
    - eapply agree_trans; [apply agree_alloc; exact Hb|].
      eapply agree_trans; [apply agree_write; left; exact L2|].
      apply agree_write. left. exact L4.
    - unfold h3. apply liveBelow_write_healthMap; [exact Hhm2|].
      unfold h2. apply liveBelow_write_healthMap; [exact Hhs3|].
      apply liveBelow_alloc. exact Hlive. }
  destruct Htable as (hs3 & Hhs3' & Hsvc & Hoth).
  split; [|split; [|exact Hatc]].
  - unfold storedHealth. rewrite Hhs3', Hsvc. simpl. exact Hatc.
  - intros s Hs0. unfold storedHealth. rewrite Hhs3', Hhs0, (Hoth s Hs0).
    destruct (hs !! s) as [x|] eqn:Hx; [|reflexivity]. simpl.
    apply Hat. pose proof (Hh _ _ Hhs0) as Hok. simpl in Hok.
    destruct (Hok _ _ Hx) as (o & Ho & _). eapply lookup_lt_Some. exact Ho.
Qed.

Lemma performHealthCheck_build_error gp service info p e (h : heap) :
  outcome p = BuildError e ->
  performHealthCheck gp service info p h =
    Some (inr ("failed to create health check request: " +:+ e), h).
Proof. intros H. unfold performHealthCheck. rewrite H. reflexivity. Qed.

(** *** Snapshots *)

Lemma copy_ServiceMetrics m :
  mkServiceMetrics (sTotalRequests m) (sSuccessRequests m) (sErrorRequests m)
    (sAverageLatency m) (LastRequest m) = m.
Proof. destruct m. reflexivity. Qed.

Lemma copyServiceMetrics_ok dst : forall entries (h : heap) dm,
  heapOK h -> h !! dst = Some (ObjMetricsMap dm) ->
  (forall s l, (s, l) ∈ entries -> holds 0 h l) ->
  NoDup entries.*1 ->
  exists h' dm',
    copyServiceMetrics dst entries h = Some (tt, h') /\
    heapOK h' /\ extends h h' /\
    h' !! dst = Some (ObjMetricsMap dm') /\
    (forall x, (x < length h)%nat -> x <> dst -> h' !! x = h !! x) /\
    (allBalanced h -> allBalanced h') /\
    (forall s l, (s, l) ∈ entries -> dm' !! s ≫= serviceAt h' = serviceAt h l) /\
    (forall s, s ∉ entries.*1 -> dm' !! s = dm !! s) /\
    (forall s c, dm' !! s = Some c -> dm !! s = Some c \/ (length h <= c)%nat).
Proof.
  induction entries as [|[s0 l0] rest IH]; intros h dm Hh Hdst Hent Hnd.
  - exists h, dm. split; [reflexivity|]. split; [exact Hh|]. split; [apply extends_refl|].
    split; [exact Hdst|]. split; [auto|]. split; [auto|].
    split; [intros s l Hin; inversion Hin|]. split; [auto|]. auto.
  - apply NoDup_cons in Hnd as [Hs0 Hnd].
    destruct (holds_ServiceMetrics h l0) as [m0 Hm0]; [eapply Hent; left|].
    set (c := length h).
    set (h1 := h ++ [ObjServiceMetrics m0]).
    assert (E1 : extends h h1) by apply extends_alloc.
    assert (Hh1 : heapOK h1) by (apply heapOK_alloc; [exact Hh | exact I]).
    assert (Hc1 : h1 !! c = Some (ObjServiceMetrics m0)).
    { unfold h1, c. rewrite lookup_app_r by lia. rewrite Nat.sub_diag. reflexivity. }
    assert (Hdst1 : h1 !! dst = Some (ObjMetricsMap dm)).
    { unfold h1. rewrite lookup_app_l by (eapply lookup_lt_Some; exact Hdst). exact Hdst. }
    set (dm2 := <[s0 := c]> dm).
    set (h2 := <[dst := ObjMetricsMap dm2]> h1).
    assert (E2 : extends h1 h2) by (eapply extends_write; [exact Hdst1 | reflexivity]).
    assert (E02 : extends h h2) by (eapply extends_trans; eassumption).
    assert (Hh2 : heapOK h2).
    { eapply heapOK_write; [exact Hh1 | exact Hdst1 | reflexivity |].
      simpl. intros s x Hx. eapply holds_extends; [exact E2|]. unfold dm2 in Hx.
      destruct (decide (s = s0)) as [->|Hne].
      - rewrite lookup_insert_eq in Hx. injection Hx as <-.
        eapply holds_lookup in Hc1. exact Hc1.
      - rewrite lookup_insert_ne in Hx by congruence.
        pose proof (Hh1 _ _ Hdst1) as Hok. simpl in Hok. eapply Hok. exact Hx. }
    assert (Hdst2 : h2 !! dst = Some (ObjMetricsMap dm2)).
    { unfold h2. apply list_lookup_insert_eq. eapply lookup_lt_Some. exact Hdst1. }
    assert (Hlen2 : length h2 = S (length h)).
    { unfold h2, h1. rewrite length_insert, length_app. simpl. lia. }
    assert (Hfr2 : forall x, x <> dst -> h2 !! x = h1 !! x).
    { intros x Hx. unfold h2. apply list_lookup_insert_ne. congruence. }
    assert (Hold : forall x, (x < length h)%nat -> x <> dst -> h2 !! x = h !! x).
    { intros x Hx Hne. rewrite Hfr2 by exact Hne. unfold h1. apply lookup_app_l. exact Hx. }
    destruct (IH h2 dm2 Hh2 Hdst2) as (h' & dm' & Hrun & Hh' & E' & Hdst' & Hfr' & Hb' & HA & HB & HC).
    { intros s l Hin. eapply holds_extends; [exact E02|]. eapply Hent. right. exact Hin. }
    { exact Hnd. }
    exists h', dm'. split.
    { simpl copyServiceMetrics.
      rewrite (bind_Some _ _ _ _ _ (readServiceMetrics_Some _ _ _ Hm0)).
      rewrite copy_ServiceMetrics.
      rewrite (bind_Some _ _ h c h1) by reflexivity.
      rewrite (bind_Some _ _ _ _ _ (putMetricsMap_Some _ _ _ _ _ Hdst1)).
      exact Hrun. }
    split; [exact Hh'|]. split; [eapply extends_trans; eassumption|].
    split; [exact Hdst'|].
    assert (Hdlt : (dst < length h)%nat) by (eapply lookup_lt_Some; exact Hdst).
    split.
    { intros x Hx Hne. rewrite Hfr' by (rewrite ?Hlen2; lia || exact Hne). apply Hold; assumption. }
    split.
    { intros Hb. apply Hb'. unfold h2, h1.
      apply allBalanced_write; [apply allBalanced_alloc; [exact Hb|]|exact I].
      apply (Hb _ _ Hm0). }
    split.
    { intros s l Hin. apply elem_of_cons in Hin as [Heq|Hin].
      - injection Heq as -> ->.
        rewrite (HB s0 Hs0). unfold dm2. rewrite lookup_insert_eq. simpl.
        assert (Hx : h' !! c = Some (ObjServiceMetrics m0)).
        { rewrite Hfr' by (rewrite ?Hlen2; unfold c; lia).
          rewrite Hfr2 by (unfold c; lia). exact Hc1. }
        apply serviceAt_Some in Hx. rewrite Hx. symmetry. apply serviceAt_Some. exact Hm0.
      - rewrite (HA s l Hin).
        destruct (Hent s l ltac:(right; exact Hin)) as (o & Ho & Ht).
        assert (Hl : (l < length h)%nat) by (eapply lookup_lt_Some; exact Ho).
        assert (Hne : l <> dst).
        { eapply tag_ne_loc; [exact Ho | exact Hdst | rewrite Ht; discriminate]. }
        unfold serviceAt. rewrite Hold by assumption. reflexivity. }
    split.
    { intros s Hs. rewrite fmap_cons, not_elem_of_cons in Hs. destruct Hs as [Hne Hs].
      rewrite (HB s Hs). unfold dm2. apply lookup_insert_ne. simpl in Hne. congruence. }
    { intros s x Hx. destruct (HC s x Hx) as [Hd|Hge]; [|right; lia].
      unfold dm2 in Hd. destruct (decide (s = s0)) as [->|Hne].
      - rewrite lookup_insert_eq in Hd. injection Hd as <-. right. unfold c. lia.
      - rewrite lookup_insert_ne in Hd by congruence. left. exact Hd. }
Qed.

Lemma copyHealthStats_ok dst : forall entries (h : heap) dm,
  heapOK h -> h !! dst = Some (ObjHealthMap dm) ->
  (forall s l, (s, l) ∈ entries -> holds 1 h l) ->
  NoDup entries.*1 ->
  exists h' dm',
    copyHealthStats dst entries h = Some (tt, h') /\
    heapOK h' /\ extends h h' /\
    h' !! dst = Some (ObjHealthMap dm') /\
    (forall x, (x < length h)%nat -> x <> dst -> h' !! x = h !! x) /\
    (allBalanced h -> allBalanced h') /\
    (forall s l, (s, l) ∈ entries -> dm' !! s ≫= healthAt h' = healthAt h l) /\
    (forall s, s ∉ entries.*1 -> dm' !! s = dm !! s) /\
    (forall s c, dm' !! s = Some c -> dm !! s = Some c \/ (length h <= c)%nat).
Proof.
  induction entries as [|[s0 l0] rest IH]; intros h dm Hh Hdst Hent Hnd.
  - exists h, dm. split; [reflexivity|]. split; [exact Hh|]. split; [apply extends_refl|].
    split; [exact Hdst|]. split; [auto|]. split; [auto|].
    split; [intros s l Hin; inversion Hin|]. split; [auto|]. auto.
  - apply NoDup_cons in Hnd as [Hs0 Hnd].
    destruct (holds_Health h l0) as [r0 Hr0]; [eapply Hent; left|].
    set (c := length h).
    set (h1 := h ++ [ObjHealth r0]).
    assert (E1 : extends h h1) by apply extends_alloc.
    assert (Hh1 : heapOK h1) by (apply heapOK_alloc; [exact Hh | exact I]).
    assert (Hc1 : h1 !! c = Some (ObjHealth r0)).
    { unfold h1, c. rewrite lookup_app_r by lia. rewrite Nat.sub_diag. reflexivity. }
    assert (Hdst1 : h1 !! dst = Some (ObjHealthMap dm)).
    { unfold h1. rewrite lookup_app_l by (eapply lookup_lt_Some; exact Hdst). exact Hdst. }
    destruct (putHealthMap_ok h1 dst s0 c Hh1) as (dm0 & Hdm0 & Hput & Hh2 & E2).
    { eapply holds_lookup in Hdst1. exact Hdst1. }
    { eapply holds_lookup in Hc1. exact Hc1. }
    assert (dm0 = dm) by congruence. subst dm0.
    set (dm2 := <[s0 := c]> dm) in *.
    set (h2 := <[dst := ObjHealthMap dm2]> h1) in *.
    assert (E02 : extends h h2) by (eapply extends_trans; eassumption).
    assert (Hdst2 : h2 !! dst = Some (ObjHealthMap dm2)).
    { unfold h2. apply list_lookup_insert_eq. eapply lookup_lt_Some. exact Hdst1. }
    assert (Hlen2 : length h2 = S (length h)).
    { unfold h2, h1. rewrite length_insert, length_app. simpl. lia. }
    assert (Hfr2 : forall x, x <> dst -> h2 !! x = h1 !! x).
    { intros x Hx. unfold h2. apply list_lookup_insert_ne. congruence. }
    assert (Hold : forall x, (x < length h)%nat -> x <> dst -> h2 !! x = h !! x).
    { intros x Hx Hne. rewrite Hfr2 by exact Hne. unfold h1. apply lookup_app_l. exact Hx. }
    destruct (IH h2 dm2 Hh2 Hdst2) as (h' & dm' & Hrun & Hh' & E' & Hdst' & Hfr' & Hb' & HA & HB & HC).
    { intros s l Hin. eapply holds_extends; [exact E02|]. eapply Hent. right. exact Hin. }
    { exact Hnd. }
    exists h', dm'. split.
    { simpl copyHealthStats.
      rewrite (bind_Some _ _ _ _ _ (readHealth_Some _ _ _ Hr0)).
      rewrite (bind_Some _ _ h c h1) by reflexivity.
      rewrite (bind_Some _ _ _ _ _ Hput).
      exact Hrun. }
    split; [exact Hh'|]. split; [eapply extends_trans; eassumption|].
    split; [exact Hdst'|].
    assert (Hdlt : (dst < length h)%nat) by (eapply lookup_lt_Some; exact Hdst).
    split.
    { intros x Hx Hne. rewrite Hfr' by (rewrite ?Hlen2; lia || exact Hne). apply Hold; assumption. }
    split.
    { intros Hb. apply Hb'. unfold h2, h1.
      apply allBalanced_write; [apply allBalanced_alloc; [exact Hb|]|]; exact I. }
    split.
    { intros s l Hin. apply elem_of_cons in Hin as [Heq|Hin].
      - injection Heq as -> ->.
        rewrite (HB s0 Hs0). unfold dm2. rewrite lookup_insert_eq. simpl.
        assert (Hx : h' !! c = Some (ObjHealth r0)).
        { rewrite Hfr' by (rewrite ?Hlen2; unfold c; lia).
          rewrite Hfr2 by (unfold c; lia). exact Hc1. }
        apply healthAt_Some in Hx. rewrite Hx. symmetry. apply healthAt_Some. exact Hr0.
      - rewrite (HA s l Hin).
        destruct (Hent s l ltac:(right; exact Hin)) as (o & Ho & Ht).
        assert (Hl : (l < length h)%nat) by (eapply lookup_lt_Some; exact Ho).
        assert (Hne : l <> dst).
        { eapply tag_ne_loc; [exact Ho | exact Hdst | rewrite Ht; discriminate]. }
        unfold healthAt. rewrite Hold by assumption. reflexivity. }
    split.
    { intros s Hs. rewrite fmap_cons, not_elem_of_cons in Hs. destruct Hs as [Hne Hs].
      rewrite (HB s Hs). unfold dm2. apply lookup_insert_ne. simpl in Hne. congruence. }
    { intros s x Hx. destruct (HC s x Hx) as [Hd|Hge]; [|right; lia].
      unfold dm2 in Hd. destruct (decide (s = s0)) as [->|Hne].
      - rewrite lookup_insert_eq in Hd. injection Hd as <-. right. unfold c. lia.
      - rewrite lookup_insert_ne in Hd by congruence. left. exact Hd. }
Qed.

Lemma lookup_app3 (h : heap) a b c :
  (h ++ [a] ++ [b] ++ [c]) !! length h = Some a /\
  (h ++ [a] ++ [b] ++ [c]) !! S (length h) = Some b /\
  (h ++ [a] ++ [b] ++ [c]) !! S (S (length h)) = Some c.
Proof.
  repeat split.
  - rewrite lookup_app_r by lia. rewrite Nat.sub_diag. reflexivity.
  - rewrite lookup_app_r by lia. replace (S (length h) - length h)%nat with 1%nat by lia.
    reflexivity.
  - rewrite lookup_app_r by lia. replace (S (S (length h)) - length h)%nat with 2%nat by lia.
    reflexivity.
Qed.

Lemma map_to_list_holds (h : heap) (m : gmap string loc) t :
  (forall s l, m !! s = Some l -> holds t h l) ->
  forall s l, (s, l) ∈ map_to_list m -> holds t h l.
Proof. intros H s l Hin. apply elem_of_map_to_list in Hin. eapply H. exact Hin. Qed.

(** [GetMetrics] builds its result out of new objects only, and what is read
    through the result is what was read through the live metrics. *)
Lemma GetMetrics_ok gp (h : heap) :
  wellFormed gp h ->
  exists r h',
    GetMetrics gp h = Some (r, h') /\
    wellFormed gp h' /\ extends h h' /\
    agree 0 (length h) h h' /\
    (allBalanced h -> allBalanced h') /\
    view h' r = view h (metrics gp) /\
    is_Some (view h' r) /\
    (forall l, l ∈ reach h' r -> (length h <= l < length h')%nat) /\
    (forall l, l ∈ reach h (metrics gp) -> (l < length h)%nat).
Proof.
  intros Hwf. pose proof Hwf as (Hh & Hm & Hs).
  destruct (holds_GatewayMetrics _ _ Hm) as [g Hg].
  pose proof (Hh _ _ Hg) as [Hsm Hhm]. simpl in Hsm, Hhm.
  destruct (holds_MetricsMap _ _ Hsm) as [sm Hsm'].
  destruct (holds_HealthMap _ _ Hhm) as [hm Hhm'].
  set (n0 := length h).
  set (g' := mkGatewayMetrics (TotalRequests g) (SuccessRequests g) (ErrorRequests g)
               (AverageLatency g) n0 (S n0) (StartTime g)).
  set (ha := h ++ [ObjMetricsMap ∅] ++ [ObjHealthMap ∅] ++ [ObjGatewayMetrics g']).
  destruct (lookup_app3 h (ObjMetricsMap ∅) (ObjHealthMap ∅) (ObjGatewayMetrics g'))
    as (Ha0 & Ha1 & Ha2).
  fold ha n0 in Ha0, Ha1, Ha2.
  assert (Hlena : length ha = S (S (S n0))).
  { unfold ha. rewrite !length_app. simpl. unfold n0. lia. }
  assert (Hfra : forall x, (x < n0)%nat -> ha !! x = h !! x).
  { intros x Hx. unfold ha. apply lookup_app_l. exact Hx. }
  assert (Ea : extends h ha).
  { split; [lia|]. intros l o Hl. exists o. split; [|reflexivity].
    rewrite Hfra by (eapply lookup_lt_Some; exact Hl). exact Hl. }
  assert (Hha : heapOK ha).
  { intros l o Hl. destruct (decide (l < n0)%nat) as [Hlt|Hge].
    - rewrite Hfra in Hl by exact Hlt. eapply objectOK_extends; [exact Ea | eapply Hh; exact Hl].
    - assert (Hl3 : (l < S (S (S n0)))%nat) by (rewrite <- Hlena; eapply lookup_lt_Some; exact Hl).
      assert (Hcase : l = n0 \/ l = S n0 \/ l = S (S n0)) by lia.
      destruct Hcase as [->|[->| ->]].
      + rewrite Ha0 in Hl. injection Hl as <-. simpl. intros s x Hx.
        rewrite lookup_empty in Hx. discriminate.
      + rewrite Ha1 in Hl. injection Hl as <-. simpl. intros s x Hx.
        rewrite lookup_empty in Hx. discriminate.
      + rewrite Ha2 in Hl. injection Hl as <-. simpl. split.
        * eapply holds_lookup in Ha0. exact Ha0.
        * eapply holds_lookup in Ha1. exact Ha1. }
  (* the first loop *)
  destruct (copyServiceMetrics_ok n0 (map_to_list sm) ha ∅ Hha Ha0)
    as (hb & dm' & Hrunb & Hhb & Eb & Hdstb & Hfrb & Hbb & HAb & HBb & HCb).
  { apply map_to_list_holds. intros s l Hl. eapply holds_extends; [exact Ea|].
    pose proof (Hh _ _ Hsm') as Hok. simpl in Hok. eapply Hok. exact Hl. }
  { apply NoDup_fst_map_to_list. }
  assert (Hb1 : hb !! S n0 = Some (ObjHealthMap ∅)).
  { rewrite Hfrb by lia. exact Ha1. }
  (* the second loop *)
  destruct (copyHealthStats_ok (S n0) (map_to_list hm) hb ∅ Hhb Hb1)
    as (hc & dh' & Hrunc & Hhc & Ec & Hdstc & Hfrc & Hbc & HAc & HBc & HCc).
  { apply map_to_list_holds. intros s l Hl.
    eapply holds_extends; [eapply extends_trans; [exact Ea | exact Eb]|].
    pose proof (Hh _ _ Hhm') as Hok. simpl in Hok. eapply Hok. exact Hl. }
  { apply NoDup_fst_map_to_list. }
  assert (Hlenb : (length ha <= length hb)%nat) by apply Eb.
  assert (Hlenc : (length hb <= length hc)%nat) by apply Ec.
  assert (Hold : forall x, (x < n0)%nat -> hc !! x = h !! x).
  { intros x Hx. rewrite Hfrc by lia. rewrite Hfrb by lia. apply Hfra. exact Hx. }
  assert (Hc2 : hc !! S (S n0) = Some (ObjGatewayMetrics g')).
  { rewrite Hfrc by lia. rewrite Hfrb by lia. exact Ha2. }
  assert (Hc0 : hc !! n0 = Some (ObjMetricsMap dm')).
  { rewrite Hfrc by lia. exact Hdstb. }
  assert (E : extends h hc).
  { eapply extends_trans; [exact Ea|]. eapply extends_trans; eassumption. }
  exists (S (S n0)), hc. split.
  { unfold GetMetrics.
    rewrite (bind_Some _ _ _ _ _ (readGatewayMetrics_Some _ _ _ Hg)).
    rewrite (bind_Some _ _ h n0 (h ++ [ObjMetricsMap ∅])) by reflexivity.
    rewrite (bind_Some _ _ (h ++ [ObjMetricsMap ∅]) (S n0)
               ((h ++ [ObjMetricsMap ∅]) ++ [ObjHealthMap ∅]))
      by (unfold new; rewrite length_app; simpl; do 3 f_equal; unfold n0; lia).
    rewrite (bind_Some _ _ ((h ++ [ObjMetricsMap ∅]) ++ [ObjHealthMap ∅]) (S (S n0)) ha).
    2:{ unfold new. rewrite !length_app. simpl. unfold ha, g'.
        rewrite <- !app_assoc. do 3 f_equal. unfold n0. lia. }
    assert (Hsma : ha !! ServiceMetricsMap g = Some (ObjMetricsMap sm)).
    { rewrite Hfra by (eapply lookup_lt_Some; exact Hsm'). exact Hsm'. }
    rewrite (bind_Some _ _ _ _ _ (readMetricsMap_Some _ _ _ Hsma)).
    rewrite (bind_Some _ _ _ _ _ Hrunb).
    assert (Hhmb : hb !! HealthStats g = Some (ObjHealthMap hm)).
    { assert (HealthStats g < n0)%nat by (eapply lookup_lt_Some; exact Hhm').
      rewrite Hfrb by lia. rewrite Hfra by lia. exact Hhm'. }
    rewrite (bind_Some _ _ _ _ _ (readHealthMap_Some _ _ _ Hhmb)).
    rewrite (bind_Some _ _ _ _ _ Hrunc). reflexivity. }
  split; [eapply wellFormed_extends; eassumption|].
  split; [exact E|].
  split; [intros x Hx; apply Hold; lia|].
  split.
  { intros Hb. apply Hbc, Hbb. unfold ha.
    rewrite !app_assoc.
    apply allBalanced_alloc; [apply allBalanced_alloc; [apply allBalanced_alloc|]|];
      try exact I; [exact Hb|]. simpl. apply (Hb _ _ Hg). }
  assert (Hview : view hc (S (S n0)) = view h (metrics gp)).
  { unfold view. rewrite Hc2, Hg. simpl ServiceMetricsMap. simpl HealthStats.
    rewrite Hc0, Hdstc, Hsm', Hhm'. simpl. f_equal. f_equal.
    - apply map_eq. intros s. rewrite !lookup_omap.
      destruct (sm !! s) as [l|] eqn:Hl.
      + assert (Hin : (s, l) ∈ map_to_list sm) by (apply elem_of_map_to_list; exact Hl).
        pose proof (HAb s l Hin) as HA.
        assert (Hlt : (l < n0)%nat).
        { pose proof (Hh _ _ Hsm') as Hok. simpl in Hok.
          destruct (Hok _ _ Hl) as (o' & Ho' & _). eapply lookup_lt_Some. exact Ho'. }
        assert (Hsl : serviceAt ha l = serviceAt h l).
        { unfold serviceAt. rewrite Hfra by exact Hlt. reflexivity. }
        rewrite Hsl in HA.
        destruct (dm' !! s) as [c|] eqn:Hc; simpl in HA |- *.
        * assert (Hcb : holds 0 hb c).
          { pose proof (Hhb _ _ Hdstb) as Hok. simpl in Hok. eapply Hok. exact Hc. }
          destruct Hcb as (o & Ho & Ht).
          assert (Hne : c <> S n0).
          { eapply tag_ne_loc; [exact Ho | exact Hb1 | rewrite Ht; discriminate]. }
          unfold serviceAt at 1. rewrite Hfrc by (try (eapply lookup_lt_Some; exact Ho); exact Hne).
          exact HA.
        * exact HA.
      + rewrite HBb, lookup_empty; [reflexivity|].
        intros Hin. apply list_elem_of_fmap in Hin as ([s' l'] & -> & Hin).
        apply elem_of_map_to_list in Hin. simpl in Hl. congruence.
    - apply map_eq. intros s. rewrite !lookup_omap.
      destruct (hm !! s) as [l|] eqn:Hl.
      + assert (Hin : (s, l) ∈ map_to_list hm) by (apply elem_of_map_to_list; exact Hl).
        rewrite (HAc s l Hin).
        pose proof (Hh _ _ Hhm') as Hok. simpl in Hok.
        destruct (Hok _ _ Hl) as (o' & Ho' & _).
        assert (Hlt : (l < n0)%nat) by (eapply lookup_lt_Some; exact Ho').
        unfold healthAt. rewrite Hfrb by lia. rewrite Hfra by lia. reflexivity.
      + rewrite HBc, lookup_empty; [reflexivity|].
        intros Hin. apply list_elem_of_fmap in Hin as ([s' l'] & -> & Hin).
        apply elem_of_map_to_list in Hin. simpl in Hl. congruence. }
  split; [exact Hview|].
  split.
  { rewrite Hview. unfold view. rewrite Hg, Hsm', Hhm'. eexists. reflexivity. }
  split.
  - intros l Hl. unfold reach in Hl. rewrite Hc2 in Hl. simpl ServiceMetricsMap in Hl.
    simpl HealthStats in Hl. rewrite Hc0, Hdstc in Hl.
    assert (Hlenc' : (S (S (S n0)) <= length hc)%nat) by lia.
    apply elem_of_cons in Hl as [->|Hl]; [fold n0; lia|].
    apply elem_of_cons in Hl as [->|Hl]; [fold n0; lia|].
    apply elem_of_cons in Hl as [->|Hl]; [fold n0; lia|].
    apply elem_of_app in Hl as [Hl|Hl].
    + apply list_elem_of_fmap in Hl as ([s c] & -> & Hin).
      apply elem_of_map_to_list in Hin. simpl.
      destruct (HCb s c Hin) as [Hd|Hge]; [rewrite lookup_empty in Hd; discriminate|].
      pose proof (Hhb _ _ Hdstb) as Hok. simpl in Hok.
      destruct (Hok _ _ Hin) as (o & Ho & _). apply lookup_lt_Some in Ho.
      fold n0. lia.
    + apply list_elem_of_fmap in Hl as ([s c] & -> & Hin).
      apply elem_of_map_to_list in Hin. simpl.
      destruct (HCc s c Hin) as [Hd|Hge]; [rewrite lookup_empty in Hd; discriminate|].
      pose proof (Hhc _ _ Hdstc) as Hok. simpl in Hok.
      destruct (Hok _ _ Hin) as (o & Ho & _). apply lookup_lt_Some in Ho.
      fold n0. lia.
  - intros l Hl. unfold reach in Hl. rewrite Hg, Hsm', Hhm' in Hl.
    apply elem_of_cons in Hl as [->|Hl]; [eapply lookup_lt_Some; exact Hg|].
    apply elem_of_cons in Hl as [->|Hl]; [eapply lookup_lt_Some; exact Hsm'|].
    apply elem_of_cons in Hl as [->|Hl]; [eapply lookup_lt_Some; exact Hhm'|].
    apply elem_of_app in Hl as [Hl|Hl];
      apply list_elem_of_fmap in Hl as ([s c] & -> & Hin);
      apply elem_of_map_to_list in Hin; simpl.
    + pose proof (Hh _ _ Hsm') as Hok. simpl in Hok.
      destruct (Hok _ _ Hin) as (o & Ho & _). eapply lookup_lt_Some. exact Ho.
    + pose proof (Hh _ _ Hhm') as Hok. simpl in Hok.
      destruct (Hok _ _ Hin) as (o & Ho & _). eapply lookup_lt_Some. exact Ho.
Qed.

(** *** Setting up *)

Lemma NewGatewayProcessor_ok startTime :
  exists gp h,
    NewGatewayProcessor startTime [] = Some (gp, h) /\
    wellFormed gp h /\ allBalanced h /\ services gp = ∅.
Proof.
  eexists _, _. split; [reflexivity|]. simpl.
  assert (Hcases : forall (l : nat) (o : object) (P : object -> Prop),
            P (ObjHealthMap ∅) -> P (ObjMetricsMap ∅) ->
            P (ObjGatewayMetrics (mkGatewayMetrics 0 0 0 zero 1 2 startTime)) ->
            [ObjHealthMap ∅; ObjMetricsMap ∅; ObjHealthMap ∅;
             ObjGatewayMetrics (mkGatewayMetrics 0 0 0 zero 1 2 startTime)] !! l = Some o ->
            P o).
  { intros l o P P1 P2 P3 Hl.
    destruct l as [|[|[|[|l]]]]; simpl in Hl; try discriminate;
      injection Hl as <-; assumption. }
  split; [split; [|split]|split].
  - intros l o Hl. apply (Hcases l o (objectOK _)); try exact Hl; simpl.
    + intros s x Hx. rewrite lookup_empty in Hx. discriminate.
    + intros s x Hx. rewrite lookup_empty in Hx. discriminate.
    + split; eexists; (split; [reflexivity|reflexivity]).
  - eexists. split; reflexivity.
  - eexists. split; reflexivity.
  - intros l o Hl. apply (Hcases l o balancedObject); try exact Hl; simpl; try exact I.
    reflexivity.
  - reflexivity.
Qed.

Lemma register_ok gp name info (h : heap) :
  wellFormed gp h ->
  exists h',
    register gp name info h =
      Some (mkProcessor (<[name := info]> (services gp)) (healthStats gp) (metrics gp), h') /\
    wellFormed gp h' /\ extends h h' /\ (allBalanced h -> allBalanced h').
Proof.
  intros Hwf. pose proof Hwf as (Hh & Hm & Hs).
  destruct (holds_GatewayMetrics _ _ Hm) as [g Hg].
  pose proof (Hh _ _ Hg) as [Hsm _]. simpl in Hsm.
  destruct (holds_MetricsMap _ _ Hsm) as [sm Hsm'].
  set (c := length h).
  set (h1 := h ++ [ObjServiceMetrics (mkServiceMetrics 0 0 0 zero 0)]).
  assert (E1 : extends h h1) by apply extends_alloc.
  assert (Hh1 : heapOK h1) by (apply heapOK_alloc; [exact Hh | exact I]).
  assert (Hc1 : h1 !! c = Some (ObjServiceMetrics (mkServiceMetrics 0 0 0 zero 0))).
  { unfold h1, c. rewrite lookup_app_r by lia. rewrite Nat.sub_diag. reflexivity. }
  assert (Hsm1 : h1 !! ServiceMetricsMap g = Some (ObjMetricsMap sm)).
  { unfold h1. rewrite lookup_app_l by (eapply lookup_lt_Some; exact Hsm'). exact Hsm'. }
  set (h2 := <[ServiceMetricsMap g := ObjMetricsMap (<[name := c]> sm)]> h1).
  assert (E2 : extends h1 h2) by (eapply extends_write; [exact Hsm1 | reflexivity]).
  assert (Hh2 : heapOK h2).
  { eapply heapOK_write; [exact Hh1 | exact Hsm1 | reflexivity |].
    simpl. intros s x Hx. eapply holds_extends; [exact E2|].
    destruct (decide (s = name)) as [->|Hne].
    - rewrite lookup_insert_eq in Hx. injection Hx as <-.
      eapply holds_lookup in Hc1. exact Hc1.
    - rewrite lookup_insert_ne in Hx by congruence.
      pose proof (Hh1 _ _ Hsm1) as Hok. simpl in Hok. eapply Hok. exact Hx. }
  assert (E : extends h h2) by (eapply extends_trans; eassumption).
  exists h2. split.
  { unfold register.
    rewrite (bind_Some _ _ _ _ _ (readGatewayMetrics_Some _ _ _ Hg)).
    rewrite (bind_Some _ _ h c h1) by reflexivity.
    rewrite (bind_Some _ _ _ _ _ (putMetricsMap_Some _ _ _ _ _ Hsm1)).
    reflexivity. }
  split; [eapply wellFormed_extends; eassumption|].
  split; [exact E|].
  intros Hb. unfold h2, h1.
  apply allBalanced_write; [apply allBalanced_alloc; [exact Hb|]|exact I].
  reflexivity.
Qed.

Lemma wellFormed_services gp gp' (h : heap) :
  healthStats gp' = healthStats gp -> metrics gp' = metrics gp ->
  wellFormed gp h -> wellFormed gp' h.
Proof. intros E1 E2 (Hh & Hm & Hs). unfold wellFormed. rewrite E1, E2. auto. Qed.

Lemma registerAll_ok : forall entries gp (h : heap),
  wellFormed gp h -> allBalanced h ->
  exists gp' h',
    registerAll gp entries h = Some (gp', h') /\
    wellFormed gp' h' /\ allBalanced h'.
Proof.
  induction entries as [|[name info] rest IH]; intros gp h Hwf Hb.
  - exists gp, h. split; [reflexivity|]. auto.
  - destruct (register_ok gp name info h Hwf) as (h1 & Hrun & Hwf1 & _ & Hb1).
    set (gp1 := mkProcessor (<[name := info]> (services gp)) (healthStats gp) (metrics gp)) in *.
    destruct (IH gp1 h1) as (gp' & h' & Hrun' & Hwf' & Hb').
    { eapply wellFormed_services; [| |exact Hwf1]; reflexivity. }
    { apply Hb1. exact Hb. }
    exists gp', h'. split; [|auto].
    simpl registerAll. rewrite (bind_Some _ _ _ _ _ Hrun). exact Hrun'.
Qed.

Lemma boot_ok startTime registry :
  exists gp h,
    boot startTime registry [] = Some (gp, h) /\ wellFormed gp h /\ allBalanced h.
Proof.
  destruct (NewGatewayProcessor_ok startTime) as (gp0 & h0 & Hnew & Hwf0 & Hb0 & _).
  destruct (registerAll_ok (map_to_list registry) gp0 h0 Hwf0 Hb0)
    as (gp & h & Hrun & Hwf & Hb).
  exists gp, h. split; [|auto].
  unfold boot. rewrite (bind_Some _ _ _ _ _ Hnew). exact Hrun.
Qed.

(** *** Sequences of updates *)

Lemma liveBelow_agree n gp (h h' : heap) :
  liveBelow n gp h -> agree 0 (length h) h h' -> liveBelow n gp h'.
Proof.
  intros (L1 & L2 & g & sm & Hg & L3 & L4 & Hsm & L5) Ha.
  split; [exact L1|]. split; [exact L2|]. exists g, sm.
  rewrite (Ha (metrics gp)) by (split; [lia | eapply lookup_lt_Some; exact Hg]).
  rewrite (Ha (ServiceMetricsMap g)) by (split; [lia | eapply lookup_lt_Some; exact Hsm]).
  auto 10.
Qed.

Lemma liveBelow_wellFormed gp (h : heap) : wellFormed gp h -> liveBelow (length h) gp h.
Proof.
  intros (Hh & Hm & Hs).
  destruct (holds_GatewayMetrics _ _ Hm) as [g Hg].
  pose proof (Hh _ _ Hg) as [Hsm Hhm]. simpl in Hsm, Hhm.
  destruct (holds_MetricsMap _ _ Hsm) as [sm Hsm'].
  destruct Hs as (o & Ho & _). destruct Hhm as (o' & Ho' & _).
  split; [eapply lookup_lt_Some; exact Hg|].
  split; [eapply lookup_lt_Some; exact Ho|].
  exists g, sm. split; [exact Hg|].
  split; [eapply lookup_lt_Some; exact Hsm'|].
  split; [eapply lookup_lt_Some; exact Ho'|].
  split; [exact Hsm'|].
  intros s l Hl. pose proof (Hh _ _ Hsm') as Hok. simpl in Hok.
  destruct (Hok _ _ Hl) as (o'' & Ho'' & _). eapply lookup_lt_Some. exact Ho''.
Qed.

Lemma balanced_countRequest g success :
  balancedObject (ObjGatewayMetrics g) ->
  balancedObject (ObjGatewayMetrics (countRequest g success)).
Proof. simpl. apply balanced_count. Qed.

Lemma balanced_countServiceRequest m success now :
  balancedObject (ObjServiceMetrics m) ->
  balancedObject (ObjServiceMetrics (countServiceRequest m success now)).
Proof. simpl. apply balanced_count. Qed.

Lemma updateRequestMetrics_ok gp service success now (h : heap) :
  wellFormed gp h ->
  exists h',
    updateRequestMetrics gp service success now h = Some (tt, h') /\
    wellFormed gp h' /\ extends h h' /\
    (allBalanced h -> allBalanced h') /\
    (forall n b, liveBelow n gp h -> agree n b h h' /\ liveBelow n gp h').
Proof.
  intros Hwf. rewrite updateRequestMetrics_shape.
  destruct (updateMetrics_ok gp service (fun g => countRequest g success)
              (fun m => countServiceRequest m success now) h Hwf)
    as (h' & Hrun & Hwf' & E & Hb & Hl); [intros g; split; reflexivity|].
  exists h'. split; [exact Hrun|]. split; [exact Hwf'|]. split; [exact E|].
  split; [|exact Hl].
  apply Hb; intros; [apply balanced_countRequest | apply balanced_countServiceRequest];
    assumption.
Qed.

Lemma updateLatencyMetrics_ok gp service duration (h : heap) :
  wellFormed gp h ->
  exists h',
    updateLatencyMetrics gp service duration h = Some (tt, h') /\
    wellFormed gp h' /\ extends h h' /\
    (allBalanced h -> allBalanced h') /\
    (forall n b, liveBelow n gp h -> agree n b h h' /\ liveBelow n gp h').
Proof.
  intros Hwf. rewrite updateLatencyMetrics_shape.
  destruct (updateMetrics_ok gp service
              (fun g => withLatency g (float64_of_int (Milliseconds duration)))
              (fun m => withServiceLatency m (float64_of_int (Milliseconds duration))) h Hwf)
    as (h' & Hrun & Hwf' & E & Hb & Hl); [intros g; split; reflexivity|].
  exists h'. split; [exact Hrun|]. split; [exact Hwf'|]. split; [exact E|].
  split; [|exact Hl].
  apply Hb; intros x Hx; exact Hx.
Qed.

Lemma apply_ok gp u (h : heap) :
  wellFormed gp h ->
  exists h',
    apply gp u h = Some (tt, h') /\
    wellFormed gp h' /\ extends h h' /\
    (allBalanced h -> allBalanced h') /\
    (forall n b, liveBelow n gp h -> (b <= length h)%nat ->
                 agree n b h h' /\ liveBelow n gp h').
Proof.
  intros Hwf. destruct u as [service success now|service duration|service info p|]; simpl apply.
  - destruct (updateRequestMetrics_ok gp service success now h Hwf)
      as (h' & Hrun & Hwf' & E & Hb & Hl).
    exists h'. repeat (split; [assumption|]). intros n b Hlive _. apply Hl. exact Hlive.
  - destruct (updateLatencyMetrics_ok gp service duration h Hwf)
      as (h' & Hrun & Hwf' & E & Hb & Hl).
    exists h'. repeat (split; [assumption|]). intros n b Hlive _. apply Hl. exact Hlive.
  - destruct (outcome p) as [e|reply] eqn:Hout.
    + exists h. split.
      { rewrite (bind_Some _ _ _ _ _ (performHealthCheck_build_error gp service info p e h Hout)).
        reflexivity. }
      split; [exact Hwf|]. split; [apply extends_refl|]. split; [auto|].
      intros n b Hlive _. split; [apply agree_refl | exact Hlive].
    + destruct (performHealthCheck_sent gp service info p reply h Hwf Hout)
        as (h' & Hrun & Hwf' & E & Hb & Hl & _).
      exists h'. split; [rewrite (bind_Some _ _ _ _ _ Hrun); reflexivity|].
      repeat (split; [assumption|]). exact Hl.
  - destruct (GetMetrics_ok gp h Hwf) as (r & h' & Hrun & Hwf' & E & Ha & Hb & _).
    exists h'. split; [rewrite (bind_Some _ _ _ _ _ Hrun); reflexivity|].
    repeat (split; [assumption|]).
    intros n b Hlive Hbl. split.
    + intros l Hl. apply Ha. lia.
    + eapply liveBelow_agree; eassumption.
Qed.

Lemma applyAll_ok gp : forall us (h : heap),
  wellFormed gp h ->
  exists h',
    applyAll gp us h = Some (tt, h') /\
    wellFormed gp h' /\ extends h h' /\
    (allBalanced h -> allBalanced h') /\
    (forall n b, liveBelow n gp h -> (b <= length h)%nat ->
                 agree n b h h' /\ liveBelow n gp h').
Proof.
  induction us as [|u us IH]; intros h Hwf.
  - exists h. split; [reflexivity|]. split; [exact Hwf|]. split; [apply extends_refl|].
    split; [auto|]. intros n b Hlive _. split; [apply agree_refl | exact Hlive].
  - destruct (apply_ok gp u h Hwf) as (h1 & Hrun1 & Hwf1 & E1 & Hb1 & Hl1).
    destruct (IH h1 Hwf1) as (h2 & Hrun2 & Hwf2 & E2 & Hb2 & Hl2).
    exists h2. split.
    { simpl applyAll. rewrite (bind_Some _ _ _ _ _ Hrun1). exact Hrun2. }
    split; [exact Hwf2|]. split; [eapply extends_trans; eassumption|].
    split; [auto|].
    intros n b Hlive Hbl. destruct (Hl1 n b Hlive Hbl) as [Ha1 Hlive1].
    assert (Hlen : (length h <= length h1)%nat) by apply E1.
    destruct (Hl2 n b Hlive1 ltac:(lia)) as [Ha2 Hlive2].
    split; [eapply agree_trans; eassumption | exact Hlive2].
Qed.

Lemma reachable_ok gp (h : heap) : reachable gp h -> wellFormed gp h /\ allBalanced h.
Proof.
  intros (startTime & registry & us & h0 & Hboot & Hrun).
  destruct (boot_ok startTime registry) as (gp' & h0' & Hboot' & Hwf0 & Hb0).
  rewrite Hboot in Hboot'. injection Hboot' as <- <-.
  destruct (applyAll_ok gp us h0 Hwf0) as (h' & Hrun' & Hwf & _ & Hb & _).
  rewrite Hrun in Hrun'. injection Hrun' as <-. auto.
Qed.

Lemma countersBalanced_ok gp (h : heap) :
  wellFormed gp h -> allBalanced h -> countersBalanced h (metrics gp).
Proof.
  intros (Hh & Hm & Hs) Hb.
  destruct (holds_GatewayMetrics _ _ Hm) as [g Hg].
  pose proof (Hh _ _ Hg) as [Hsm Hhm]. simpl in Hsm, Hhm.
  destruct (holds_MetricsMap _ _ Hsm) as [sm Hsm'].
  destruct (holds_HealthMap _ _ Hhm) as [hm Hhm'].
  unfold countersBalanced, view. rewrite Hg, Hsm', Hhm'.
  eexists. split; [reflexivity|]. simpl. split.
  - apply (Hb _ _ Hg).
  - intros service m Hl. rewrite lookup_omap in Hl.
    destruct (sm !! service) as [l|]; [|discriminate]. simpl in Hl.
    apply serviceAt_Some in Hl. apply (Hb _ _ Hl).
Qed.

(** *** The example state *)

Lemma example_reachable : reachable example_gp example_heap.
Proof. exists 0, example_registry, [], example_heap. split; vm_compute; reflexivity. Qed.

(** *** Snapshots *)

Lemma reach_cases (h h' : heap) r :
  (forall l, l ∈ reach h r -> h' !! l = h !! l) ->
  h' !! r = h !! r /\
  forall g, h !! r = Some (ObjGatewayMetrics g) ->
    h' !! ServiceMetricsMap g = h !! ServiceMetricsMap g /\
    h' !! HealthStats g = h !! HealthStats g /\
    forall sm hm,
      h !! ServiceMetricsMap g = Some (ObjMetricsMap sm) ->
      h !! HealthStats g = Some (ObjHealthMap hm) ->
      (forall s l, sm !! s = Some l -> h' !! l = h !! l) /\
      (forall s l, hm !! s = Some l -> h' !! l = h !! l).
Proof.
  intros Ha. unfold reach in Ha. split.
  - apply Ha. destruct (h !! r) as [[| | | |g]|]; set_solver.
  - intros g Hg. rewrite Hg in Ha.
    split; [apply Ha; set_solver|]. split; [apply Ha; set_solver|].
    intros sm hm Hsm Hhm. rewrite Hsm, Hhm in Ha. split; intros s l Hl; apply Ha.
    + do 3 (apply elem_of_cons; right). apply elem_of_app. left.
      apply list_elem_of_fmap. exists (s, l). split; [reflexivity|].
      apply elem_of_map_to_list. exact Hl.
    + do 3 (apply elem_of_cons; right). apply elem_of_app. right.
      apply list_elem_of_fmap. exists (s, l). split; [reflexivity|].
      apply elem_of_map_to_list. exact Hl.
Qed.

Lemma view_agree (h h' : heap) r :
  (forall l, l ∈ reach h r -> h' !! l = h !! l) -> view h' r = view h r.
Proof.
  intros Ha. destruct (reach_cases h h' r Ha) as [Er Hg]. unfold view. rewrite Er.
  destruct (h !! r) as [[| | | |g]|]; try reflexivity.
  destruct (Hg g eq_refl) as (Esm & Ehm & Hmaps). rewrite Esm, Ehm.
  destruct (h !! ServiceMetricsMap g) as [[| |sm| |]|]; try reflexivity.
  destruct (h !! HealthStats g) as [[| | |hm|]|]; try reflexivity.
  destruct (Hmaps sm hm eq_refl eq_refl) as [Hs Hh].
  f_equal. f_equal.
  - apply map_eq. intros s. rewrite !lookup_omap.
    destruct (sm !! s) as [l|] eqn:Hl; [|reflexivity]. simpl.
    unfold serviceAt. rewrite (Hs s l Hl). reflexivity.
  - apply map_eq. intros s. rewrite !lookup_omap.
    destruct (hm !! s) as [l|] eqn:Hl; [|reflexivity]. simpl.
    unfold healthAt. rewrite (Hh s l Hl). reflexivity.
Qed.

Lemma reach_agree (h h' : heap) r :
  (forall l, l ∈ reach h r -> h' !! l = h !! l) -> reach h' r = reach h r.
Proof.
  intros Ha. destruct (reach_cases h h' r Ha) as [Er Hg]. unfold reach. rewrite Er.
  destruct (h !! r) as [[| | | |g]|]; try reflexivity.
  destruct (Hg g eq_refl) as (Esm & Ehm & _). rewrite Esm, Ehm. reflexivity.
Qed.

(** *** The sweep of the health checker *)

Lemma probeAll_ok gp probe : forall schedule (h : heap),
  wellFormed gp h -> NoDup schedule.*1 ->
  exists h',
    probeAll gp probe schedule h = Some (tt, h') /\
    wellFormed gp h' /\
    (forall service info reply,
       (service, info) ∈ schedule -> outcome (probe service) = Sent reply ->
       storedHealth gp h' service = Some (probeResult service info (probe service) reply)) /\
    (forall service, service ∉ schedule.*1 ->
       storedHealth gp h' service = storedHealth gp h service).
Proof.
  induction schedule as [|[s i] rest IH]; intros h Hwf Hnd.
  - exists h. split; [reflexivity|]. split; [exact Hwf|]. split.
    + intros service info reply Hin. apply elem_of_nil in Hin. destruct Hin.
    + reflexivity.
  - simpl in Hnd. apply NoDup_cons in Hnd as [Hs Hnd].
    assert (Hstep : exists res h1,
              performHealthCheck gp s i (probe s) h = Some (res, h1) /\
              wellFormed gp h1 /\
              (forall reply, outcome (probe s) = Sent reply ->
                 storedHealth gp h1 s = Some (probeResult s i (probe s) reply)) /\
              (forall x, x <> s -> storedHealth gp h1 x = storedHealth gp h x)).
    { destruct (outcome (probe s)) as [e|reply] eqn:Hout.
      - exists (inr ("failed to create health check request: " +:+ e)), h.
        split; [apply performHealthCheck_build_error; exact Hout|].
        split; [exact Hwf|]. split; [intros reply Hr; discriminate | reflexivity].
      - destruct (performHealthCheck_sent gp s i (probe s) reply h Hwf Hout)
          as (h1 & Hrun & Hwf1 & _ & _ & _ & Hst & Hoth & _).
        exists (inl (length h)), h1. split; [exact Hrun|]. split; [exact Hwf1|].
        split; [|exact Hoth].
        intros reply' Hr. injection Hr as <-. exact Hst. }
    destruct Hstep as (res & h1 & Hrun1 & Hwf1 & Hst1 & Hoth1).
    destruct (IH h1 Hwf1 Hnd) as (h2 & Hrun2 & Hwf2 & Hst2 & Hoth2).
    exists h2. split.
    { simpl probeAll. rewrite (bind_Some _ _ _ _ _ Hrun1). exact Hrun2. }
    split; [exact Hwf2|]. split.
    + intros service info reply Hin Hout. apply elem_of_cons in Hin as [Heq|Hin].
      * injection Heq as -> ->. rewrite (Hoth2 s Hs). apply Hst1. exact Hout.
      * eapply Hst2; eassumption.
    + intros service Hnin. simpl in Hnin. apply not_elem_of_cons in Hnin as [Hne Hnin].
      rewrite (Hoth2 service Hnin). apply Hoth1. exact Hne.
Qed.

(** *** Requests for the metrics *)

Lemma updateRequestMetrics_run gp service success now (h : heap) :
  wellFormed gp h ->
  exists h', updateRequestMetrics gp service success now h = Some (tt, h') /\
             wellFormed gp h'.
Proof.
  intros Hwf.
  destruct (updateRequestMetrics_ok gp service success now h Hwf) as (h' & Hrun & Hwf' & _).
  exists h'. auto.
Qed.

End ProcessorFacts.

Module ProcessorTheorems.
Import GoInt Float64 Clock Processor ProcessorFacts.

(** C4: whatever the sequence of updates of the live state (requests
    counted, latencies recorded, health results stored, snapshots taken), it
    runs to its end from the state [main] sets up, and after it the total
    count equals the sum of the success and error counts (in the arithmetic
    of [int64]), for the gateway's counters and for those of every service.
    Every prefix of a sequence being a sequence, this holds after each
    update. *)
Theorem counters_balanced_after_updates startTime registry us :
  exists gp h0 h,
    boot startTime registry [] = Some (gp, h0) /\
    applyAll gp us h0 = Some (tt, h) /\
    countersBalanced h (metrics gp).
Proof.
  destruct (boot_ok startTime registry) as (gp & h0 & Hboot & Hwf0 & Hb0).
  destruct (applyAll_ok gp us h0 Hwf0) as (h & Hrun & Hwf & _ & Hb & _).
  exists gp, h0, h. split; [exact Hboot|]. split; [exact Hrun|].
  apply countersBalanced_ok; auto.
Qed.

(** C9: in every state the processor gets into, [GetMetrics] returns a
    structure that shows what the live metrics show, that shares no location
    with what the live metrics reach, and that shows the same after any
    sequence of later updates of the live state. *)
Theorem snapshot_unaffected_by_updates gp h :
  reachable gp h ->
  exists r h1,
    GetMetrics gp h = Some (r, h1) /\
    is_Some (view h1 r) /\
    view h1 r = view h (metrics gp) /\
    (forall l, l ∈ reach h1 r -> l ∉ reach h1 (metrics gp)) /\
    forall us, exists h2,
      applyAll gp us h1 = Some (tt, h2) /\ view h2 r = view h1 r.
Proof.
  intros Hreach. destruct (reachable_ok gp h Hreach) as [Hwf _].
  destruct (GetMetrics_ok gp h Hwf)
    as (r & h1 & Hrun & Hwf1 & E & Ha & _ & Hview & Hsome & Hnew & Hold).
  exists r, h1. split; [exact Hrun|]. split; [exact Hsome|]. split; [exact Hview|].
  assert (Hlive : reach h1 (metrics gp) = reach h (metrics gp)).
  { apply reach_agree. intros l Hl. apply Ha. specialize (Hold l Hl). lia. }
  split.
  - intros l Hl Hl'. rewrite Hlive in Hl'.
    specialize (Hnew l Hl). specialize (Hold l Hl'). lia.
  - intros us.
    assert (Hbelow : liveBelow (length h) gp h1).
    { eapply liveBelow_agree; [apply liveBelow_wellFormed; exact Hwf | exact Ha]. }
    destruct (applyAll_ok gp us h1 Hwf1) as (h2 & Hrun2 & _ & _ & _ & Hframe).
    exists h2. split; [exact Hrun2|].
    destruct (Hframe (length h) (length h1) Hbelow (le_n _)) as [Hagree _].
    apply view_agree. intros l Hl. apply Hagree. apply Hnew. exact Hl.
Qed.

Lemma snapshot_unaffected_by_updates_witness :
  reachable example_gp example_heap /\
  exists r h1,
    GetMetrics example_gp example_heap = Some (r, h1) /\
    is_Some (view h1 r) /\
    view h1 r = view example_heap (metrics example_gp) /\
    (forall l, l ∈ reach h1 r -> l ∉ reach h1 (metrics example_gp)) /\
    forall us, exists h2,
      applyAll example_gp us h1 = Some (tt, h2) /\ view h2 r = view h1 r.
Proof.
  split; [exact example_reachable|].
  apply (snapshot_unaffected_by_updates example_gp example_heap).
  exists 0, example_registry, [], example_heap. split; vm_compute; reflexivity.
Defined.

(** C7: in every state the processor gets into, [ProxyRequest] for a
    service that is not in the registry returns the error
    "service <name> not found", and the only thing the call sends out is the
    log entry of the request: the HTTP client is not called. *)
Theorem unknown_service_not_forwarded gp h service path method body headers userID env :
  reachable gp h -> services gp !! service = None ->
  exists events h',
    ProxyRequest gp service path method body headers userID env h =
      Some ((inr ("service " +:+ service +:+ " not found"), events), h') /\
    events = [PublishLog "info" (method +:+ " " +:+ path +:+ " proxied to " +:+ service)
                service (uuid env)] /\
    networkCalls events = [].
Proof.
  intros Hreach Hnone. destruct (reachable_ok gp h Hreach) as [Hwf _].
  destruct (updateRequestMetrics_run gp service true (nowAt env 1) h Hwf)
    as (h1 & Hrun1 & Hwf1).
  destruct (updateRequestMetrics_run gp service false (nowAt env 2) h1 Hwf1)
    as (h2 & Hrun2 & _).
  eexists _, h2. split; [|split; reflexivity].
  unfold ProxyRequest. rewrite (bind_Some _ _ _ _ _ Hrun1), Hnone.
  rewrite (bind_Some _ _ _ _ _ Hrun2). reflexivity.
Qed.

Lemma unknown_service_not_forwarded_witness :
  exists events h',
    ProxyRequest example_gp "ghost" "/" "GET" None ∅ "u1" (example_env 200) example_heap =
      Some ((inr "service ghost not found", events), h') /\
    events = [PublishLog "info" "GET / proxied to ghost" "ghost" (uuid (example_env 200))] /\
    networkCalls events = [].
Proof.
  apply (unknown_service_not_forwarded example_gp example_heap "ghost" "/" "GET" None ∅ "u1"
           (example_env 200)).
  - exists 0, example_registry, [], example_heap. split; vm_compute; reflexivity.
  - vm_compute. reflexivity.
Defined.

(** C8, as the claim has it, fails: when the request of the probe cannot be
    built, [performHealthCheck] returns an error in place of a result, and
    nothing is stored for the service. *)
Lemma probe_error_returned_counterexample :
  performHealthCheck example_gp "echo" example_info
      (mkProbe (BuildError "invalid URL") 1000 0) example_heap =
    Some (inr "failed to create health check request: invalid URL", example_heap) /\
  storedHealth example_gp example_heap "echo" = None.
Proof. split; vm_compute; reflexivity. Qed.

(** C8, amended: in every state the processor gets into,
    - a probe whose request was sent returns a result, never an error; the
      result is the one stored for the service; when the probe failed (a
      transport error, or a status other than 200) its status is "unhealthy"
      and its error field holds the cause;
    - a probe whose request could not be built returns that error and
      leaves the state as it was;
    - a sweep over distinct services runs to its end whatever the probes
      do, and stores for each service whose request was sent the result of
      its own probe. *)
Theorem probe_failures_recorded gp h :
  reachable gp h ->
  (forall service info p reply, outcome p = Sent reply ->
     exists l h',
       performHealthCheck gp service info p h = Some (inl l, h') /\
       healthAt h' l = Some (probeResult service info p reply) /\
       storedHealth gp h' service = Some (probeResult service info p reply)) /\
  (forall service info p reply, reply <> ProbeResponse 200 ->
     Status (probeResult service info p reply) = "unhealthy" /\
     Error (probeResult service info p reply) =
       match reply with
       | TransportError e => e
       | ProbeResponse code => "status code: " +:+ pretty code
       end) /\
  (forall service info p e, outcome p = BuildError e ->
     performHealthCheck gp service info p h =
       Some (inr ("failed to create health check request: " +:+ e), h)) /\
  (forall probe schedule, NoDup schedule.*1 ->
     exists counts h',
       checkAllServices gp probe schedule h = Some (counts, h') /\
       forall service info reply,
         (service, info) ∈ schedule -> outcome (probe service) = Sent reply ->
         storedHealth gp h' service =
           Some (probeResult service info (probe service) reply)).
Proof.
  intros Hreach. destruct (reachable_ok gp h Hreach) as [Hwf _].
  split; [|split; [|split]].
  - intros service info p reply Hout.
    destruct (performHealthCheck_sent gp service info p reply h Hwf Hout)
      as (h' & Hrun & _ & _ & _ & _ & Hst & _ & Hat).
    exists (length h), h'. auto.
  - intros service info p reply Hne. destruct reply as [e|code]; simpl.
    + split; reflexivity.
    + destruct (code =? 200) eqn:Hc.
      * apply Z.eqb_eq in Hc. subst code. congruence.
      * split; reflexivity.
  - intros service info p e Hout. apply performHealthCheck_build_error. exact Hout.
  - intros probe schedule Hnd.
    destruct (probeAll_ok gp probe schedule h Hwf Hnd) as (h' & Hrun & Hwf' & Hst & _).
    destruct Hwf' as (_ & _ & Hs). destruct (holds_HealthMap _ _ Hs) as [hs Hhs].
    eexists _, h'. split; [|exact Hst].
    unfold checkAllServices. rewrite (bind_Some _ _ _ _ _ Hrun).
    rewrite (bind_Some _ _ _ _ _ (readHealthMap_Some _ _ _ Hhs)). reflexivity.
Qed.

Lemma probe_failures_recorded_witness :
  exists l h',
    performHealthCheck example_gp "echo" example_info
        (mkProbe (Sent (ProbeResponse 503)) 1000 2000000) example_heap = Some (inl l, h') /\
    healthAt h' l =
      Some (mkHealthCheckResult "echo" "unhealthy" "http://echo:8080/health" 2000000
              "status code: 503" 1000) /\
    storedHealth example_gp h' "echo" =
      Some (mkHealthCheckResult "echo" "unhealthy" "http://echo:8080/health" 2000000
              "status code: 503" 1000).
Proof.
  assert (Hreach : reachable example_gp example_heap).
  { exists 0, example_registry, [], example_heap. split; vm_compute; reflexivity. }
  destruct (probe_failures_recorded example_gp example_heap Hreach) as [Hsent _].
  apply (Hsent "echo" example_info (mkProbe (Sent (ProbeResponse 503)) 1000 2000000)
           (ProbeResponse 503)).
  reflexivity.
Defined.

(** C1, as the claim has it, fails, by a slip of the code: [ProxyRequest]
    counts every call as a success when it starts, and counts it again as an
    error when the status is not in [200, 400).  For the one service of the
    example, whatever the status [s] the upstream answers with, the success
    counts go up by one; outside [200, 400) the error counts go up by one as
    well, and the totals by two. *)
Theorem failed_response_counted_as_success (s : Z) :
  exists resp events h' v m,
    ProxyRequest example_gp "echo" "/" "GET" None ∅ "u1" (example_env s) example_heap =
      Some ((inl resp, events), h') /\
    StatusCode resp = s /\
    view example_heap (metrics example_gp) =
      Some (mkView 0 0 0 zero 0 {[ "echo" := mkServiceMetrics 0 0 0 zero 0 ]} ∅) /\
    view h' (metrics example_gp) = Some v /\
    vServiceMetrics v !! "echo" = Some m /\
    vSuccessRequests v = 1 /\ sSuccessRequests m = 1 /\
    vErrorRequests v = (if isSuccess s then 0 else 1) /\
    sErrorRequests m = (if isSuccess s then 0 else 1) /\
    vTotalRequests v = (if isSuccess s then 1 else 2) /\
    sTotalRequests m = (if isSuccess s then 1 else 2).
Proof.
  assert (Hsvc : services example_gp !! "echo" = Some example_info)
    by (vm_compute; reflexivity).
  unfold ProxyRequest. rewrite Hsvc.
  cbv beta iota delta [example_env upstream newRequestError].
  destruct (isSuccess s) eqn:Hs.
  - do 5 eexists. split; [vm_compute; reflexivity|].
    split; [reflexivity|]. split; [vm_compute; reflexivity|].
    split; [vm_compute; reflexivity|]. split; [vm_compute; reflexivity|].
    repeat split; reflexivity.
  - do 5 eexists. split; [vm_compute; reflexivity|].
    split; [reflexivity|]. split; [vm_compute; reflexivity|].
    split; [vm_compute; reflexivity|]. split; [vm_compute; reflexivity|].
    repeat split; reflexivity.
Qed.

End ProcessorTheorems.

(** ** The proxy handler *)

Module HandlerFacts.
Import GoInt Float64 Clock Http Processor ProcessorFacts Handler.

Lemma bind_inv {A B} (c : M A) (k : A -> M B) (h : heap) b h' :
  (c ≫= k) h = Some (b, h') ->
  exists a h1, c h = Some (a, h1) /\ k a h1 = Some (b, h').
Proof.
  unfold mbind, M_bind. destruct (c h) as [[a h1]|]; [|discriminate].
  intros H. exists a, h1. auto.
Qed.

Lemma mret_inv {A} (a b : A) (h h' : heap) :
  (mret a : M A) h = Some (b, h') -> a = b /\ h = h'.
Proof. unfold mret, M_ret. intros H. injection H as <- <-. auto. Qed.

(** The headers of every request [ProxyRequest] hands to the HTTP client. *)
Lemma ProxyRequest_calls gp service path method body headers userID env (h : heap)
    res events h' :
  ProxyRequest gp service path method body headers userID env h = Some ((res, events), h') ->
  forall req, req ∈ networkCalls events ->
    Header req = outboundHeader headers (uuid env) userID
                   (formatRFC3339 env (nowAt env 0)) service.
Proof.
  unfold ProxyRequest. intros Hrun.
  apply bind_inv in Hrun as (u & h1 & _ & Hrun).
  assert (Hnone : forall (e : string) (h2 : heap) logged,
            networkCalls logged = [] ->
            (updateRequestMetrics gp service false (nowAt env 2) ;;
             mret (inr e : ProxyResponse + string, logged)) h2 = Some ((res, events), h') ->
            networkCalls events = []).
  { intros e h2 logged Hl H. apply bind_inv in H as (u' & h3 & _ & H).
    apply mret_inv in H as [H _]. injection H as _ <-. exact Hl. }
  assert (Hnil : forall req : Request, req ∈ networkCalls events ->
                 networkCalls events = [] -> False).
  { intros req Hin E. rewrite E in Hin. apply elem_of_nil in Hin. exact Hin. }
  destruct (services gp !! service) as [serviceInfo|].
  2:{ intros req Hin. exfalso. eapply Hnil; [exact Hin|]. eapply Hnone; [|exact Hrun].
      reflexivity. }
  assert (Hsend : forall bodyBytes,
    match newRequestError env method (URL serviceInfo +:+ path) with
    | Some e =>
        updateRequestMetrics gp service false (nowAt env 2) ;;
        mret (inr ("failed to create request: " +:+ e),
              [PublishLog "info" (method +:+ " " +:+ path +:+ " proxied to " +:+ service)
                 service (uuid env)])
    | None =>
        let req := mkRequest method (URL serviceInfo +:+ path)
                     (outboundHeader headers (uuid env) userID
                        (formatRFC3339 env (nowAt env 0)) service) bodyBytes in
        let duration := Sub (finishedAt env) (nowAt env 0) in
        match upstream env req with
        | UpstreamError e =>
            updateRequestMetrics gp service false (nowAt env 2) ;;
            updateLatencyMetrics gp service duration ;;
            mret (inr ("request failed: " +:+ e),
                  [PublishLog "info" (method +:+ " " +:+ path +:+ " proxied to " +:+ service)
                     service (uuid env)] ++
                  [HttpDo req; PublishMetrics "request" service 0 (uuid env)])
        | UpstreamResponse statusCode respHeader (inr e) =>
            updateRequestMetrics gp service false (nowAt env 2) ;;
            mret (inr ("failed to read response: " +:+ e),
                  [PublishLog "info" (method +:+ " " +:+ path +:+ " proxied to " +:+ service)
                     service (uuid env)] ++ [HttpDo req])
        | UpstreamResponse statusCode respHeader (inl responseBody) =>
            (if isSuccess statusCode then mret tt
             else updateRequestMetrics gp service false (nowAt env 2)) ;;
            updateLatencyMetrics gp service duration ;;
            mret (inl (mkProxyResponse statusCode (decodeBody env responseBody)
                         (firstValues respHeader) duration),
                  [PublishLog "info" (method +:+ " " +:+ path +:+ " proxied to " +:+ service)
                     service (uuid env)] ++
                  [HttpDo req; PublishMetrics "request" service statusCode (uuid env)])
        end
    end h1 = Some ((res, events), h') ->
    forall req, req ∈ networkCalls events ->
      Header req = outboundHeader headers (uuid env) userID
                     (formatRFC3339 env (nowAt env 0)) service).
  { intros bodyBytes H req Hin.
    destruct (newRequestError env method (URL serviceInfo +:+ path)) as [e|].
    { exfalso. eapply Hnil; [exact Hin|]. eapply Hnone; [|exact H]. reflexivity. }
    cbv zeta in H.
    match type of H with
    | context [upstream env ?q] =>
        destruct (upstream env q) as [e|statusCode respHeader [responseBody|e]]
    end.
    - apply bind_inv in H as (u1 & h2 & _ & H).
      apply bind_inv in H as (u2 & h3 & _ & H).
      apply mret_inv in H as [H _]. injection H as _ <-.
      simpl in Hin. apply list_elem_of_singleton in Hin. subst req. reflexivity.
    - apply bind_inv in H as (u1 & h2 & _ & H).
      apply bind_inv in H as (u2 & h3 & _ & H).
      apply mret_inv in H as [H _]. injection H as _ <-.
      simpl in Hin. apply list_elem_of_singleton in Hin. subst req. reflexivity.
    - apply bind_inv in H as (u1 & h2 & _ & H).
      apply mret_inv in H as [H _]. injection H as _ <-.
      simpl in Hin. apply list_elem_of_singleton in Hin. subst req. reflexivity. }
  destruct body as [[b|e]|].
  - apply (Hsend b). exact Hrun.
  - intros req Hin. exfalso. eapply Hnil; [exact Hin|]. eapply Hnone; [|exact Hrun].
    reflexivity.
  - apply (Hsend ""). exact Hrun.
Qed.

(** Setting headers whose names are canonical, one after the other, gives
    the map of these headers. *)
Lemma map_fold_Set (headers : gmap string string) :
  (forall key value, headers !! key = Some value -> CanonicalMIMEHeaderKey key = key) ->
  map_fold (fun key value h => Set_ h key value) ∅ headers = headers.
Proof.
  apply (map_fold_weak_ind
           (fun (r : gmap string string) (m : gmap string string) =>
              (forall key value, m !! key = Some value -> CanonicalMIMEHeaderKey key = key) ->
              r = m)).
  - reflexivity.
  - intros i x m r Hi IH Hcanon. unfold Set_.
    rewrite (Hcanon i x) by apply lookup_insert_eq.
    f_equal. apply IH. intros key value Hk. apply (Hcanon key value).
    rewrite lookup_insert_ne; [exact Hk|]. congruence.
Qed.

Lemma extractHeaders_lookup r key :
  extractHeaders r !! key =
    if isSystemHeader key then None else reqHeader r !! key ≫= head.
Proof.
  unfold extractHeaders. rewrite map_lookup_imap.
  destruct (reqHeader r !! key) as [values|]; simpl.
  - reflexivity.
  - destruct (isSystemHeader key); reflexivity.
Qed.

Lemma outboundHeader_lookup r service env key :
  (forall name values, reqHeader r !! name = Some values ->
     CanonicalMIMEHeaderKey name = name) ->
  outboundHeader (extractHeaders r) (uuid env) (getUserID r)
      (formatRFC3339 env (nowAt env 0)) service !! key =
    expectedHeader r service env key.
Proof.
  intros Hcanon. unfold outboundHeader, expectedHeader.
  rewrite map_fold_Set.
  2:{ intros name value Hl. rewrite extractHeaders_lookup in Hl.
      destruct (isSystemHeader name); [discriminate|].
      destruct (reqHeader r !! name) as [values|] eqn:Hn; [|discriminate].
      eapply Hcanon. exact Hn. }
  unfold Set_.
  change (CanonicalMIMEHeaderKey "X-Service-Name") with "X-Service-Name".
  change (CanonicalMIMEHeaderKey "X-Gateway-Timestamp") with "X-Gateway-Timestamp".
  change (CanonicalMIMEHeaderKey "X-User-ID") with "X-User-Id".
  change (CanonicalMIMEHeaderKey "X-Request-ID") with "X-Request-Id".
  destruct (String.eqb_spec key "X-Service-Name") as [->|N1].
  { apply lookup_insert_eq. }
  rewrite lookup_insert_ne by congruence.
  destruct (String.eqb_spec key "X-Gateway-Timestamp") as [->|N2].
  { apply lookup_insert_eq. }
  rewrite lookup_insert_ne by congruence.
  destruct (String.eqb_spec key "X-User-Id") as [->|N3].
  { apply lookup_insert_eq. }
  rewrite lookup_insert_ne by congruence.
  destruct (String.eqb_spec key "X-Request-Id") as [->|N4].
  { apply lookup_insert_eq. }
  rewrite lookup_insert_ne by congruence.
  apply extractHeaders_lookup.
Qed.

End HandlerFacts.

Module HandlerTheorems.
Import GoInt Float64 Clock Http Processor ProcessorFacts Handler HandlerFacts.

(** C3, as the claim has it, fails: [Authorization] is on the list of
    [isSystemHeader], and the request handed to the HTTP client has no such
    header, while a header that is not on the list passes. *)
Lemma authorization_stripped_counterexample :
  let r := mkHttpRequest "GET" "/api/proxy/echo/items"
             {[ "Authorization" := ["Bearer abc"]; "X-Trace" := ["t1"] ]} None None in
  exists status events h' req,
    Proxy example_gp "echo" r (example_env 200) example_heap = Some ((status, events), h') /\
    networkCalls events = [req] /\
    Target req = "http://echo:8080/items" /\
    reqHeader r !! "Authorization" = Some ["Bearer abc"] /\
    Header req !! "Authorization" = None /\
    Header req !! "X-Trace" = Some "t1".
Proof. do 4 eexists. repeat split; vm_compute; reflexivity. Qed.

(** C3, amended: for every inbound request whose header names are in the
    canonical form in which the HTTP server stores them, every request that
    [Proxy] hands to the HTTP client has as headers: under the four tracing
    names, the generated id, the caller's identity, the time stamp of the
    start of the call and the service name; under the names of
    [isSystemHeader], [Authorization] among them, nothing; under any other
    name, the first value the caller sent under it, if any. *)
Theorem outbound_headers gp service r env h status events h' :
  (forall name values, reqHeader r !! name = Some values ->
     CanonicalMIMEHeaderKey name = name) ->
  Proxy gp service r env h = Some ((status, events), h') ->
  forall req, req ∈ networkCalls events ->
    (forall key, Header req !! key = expectedHeader r service env key) /\
    Header req !! "X-Request-Id" = Some (uuid env) /\
    Header req !! "X-User-Id" = Some (getUserID r) /\
    Header req !! "X-Gateway-Timestamp" = Some (formatRFC3339 env (nowAt env 0)) /\
    Header req !! "X-Service-Name" = Some service /\
    Header req !! "Authorization" = None.
Proof.
  intros Hcanon Hrun req Hin.
  assert (Hall : forall key, Header req !! key = expectedHeader r service env key).
  { unfold Proxy in Hrun. destruct (String.eqb service "").
    { apply mret_inv in Hrun as [Hrun _]. injection Hrun as _ <-.
      apply elem_of_nil in Hin. destruct Hin. }
    apply bind_inv in Hrun as ([res events0] & h1 & Hrun & Hret).
    assert (events0 = events).
    { destruct res; apply mret_inv in Hret as [Hret _]; injection Hret as _ <-;
        reflexivity. }
    subst events0. intros key.
    rewrite (ProxyRequest_calls _ _ _ _ _ _ _ _ _ _ _ _ Hrun req Hin).
    apply outboundHeader_lookup. exact Hcanon. }
  split; [exact Hall|]. rewrite !Hall. repeat split; reflexivity.
Qed.

Lemma outbound_headers_witness :
  let r := mkHttpRequest "GET" "/api/proxy/echo/items"
             {[ "Authorization" := ["Bearer abc"]; "X-Trace" := ["t1"] ]} None (Some "u1") in
  let req := mkRequest "GET" "http://echo:8080/items"
               (outboundHeader (extractHeaders r) (uuid (example_env 200)) "u1"
                  "2024-05-01T10:00:00Z" "echo") "" in
  (exists h',
     Proxy example_gp "echo" r (example_env 200) example_heap =
       Some ((Wrote 200,
              [PublishLog "info" "GET /items proxied to echo" "echo" (uuid (example_env 200));
               HttpDo req;
               PublishMetrics "request" "echo" 200 (uuid (example_env 200))]), h')) /\
  (forall key, Header req !! key = expectedHeader r "echo" (example_env 200) key) /\
  Header req !! "X-Request-Id" = Some (uuid (example_env 200)) /\
  Header req !! "X-User-Id" = Some "u1" /\
  Header req !! "X-Gateway-Timestamp" = Some "2024-05-01T10:00:00Z" /\
  Header req !! "X-Service-Name" = Some "echo" /\
  Header req !! "Authorization" = None.
Proof.
  intros r req.
  assert (Hrun : exists h',
     Proxy example_gp "echo" r (example_env 200) example_heap =
       Some ((Wrote 200,
              [PublishLog "info" "GET /items proxied to echo" "echo" (uuid (example_env 200));
               HttpDo req;
               PublishMetrics "request" "echo" 200 (uuid (example_env 200))]), h')).
  { eexists. vm_compute. reflexivity. }
  split; [exact Hrun|]. destruct Hrun as [h' Hrun].
  refine (outbound_headers example_gp "echo" r (example_env 200) example_heap _ _ _
            _ Hrun req _).
  - intros name values Hl. subst r. simpl in Hl.
    apply lookup_insert_Some in Hl as [[<- _]|[_ Hl]]; [reflexivity|].
    apply lookup_singleton_Some in Hl as [<- _]. reflexivity.
  - simpl. apply list_elem_of_singleton. reflexivity.
Defined.

End HandlerTheorems.

(** ** Token validation *)

Module AuthFacts.
Import Auth.

Lemma findResponse_None env requestID : forall messages,
  (forall message, message ∈ messages -> ~ answers env requestID message) ->
  findResponse env requestID messages = None.
Proof.
  induction messages as [|message rest IH]; intros Hno; [reflexivity|].
  assert (Hrest : findResponse env requestID rest = None).
  { apply IH. intros m Hm. apply Hno. apply elem_of_cons. right. exact Hm. }
  simpl. destruct (Data message) as [data|] eqn:Hd; [|exact Hrest].
  destruct (unmarshal env data) as [response|] eqn:Hu; [|exact Hrest].
  destruct (String.eqb_spec (RequestID response) requestID) as [Heq|_]; [|exact Hrest].
  exfalso. apply (Hno message); [apply elem_of_cons; left; reflexivity|].
  exists data, response. auto.
Qed.

Lemma findResponse_Some env requestID : forall messages message response,
  findResponse env requestID messages = Some (message, response) ->
  message ∈ messages /\ answers env requestID message /\
  RequestID response = requestID.
Proof.
  induction messages as [|m rest IH]; intros message response H; [discriminate|].
  assert (Hrest : findResponse env requestID rest = Some (message, response) ->
                  message ∈ m :: rest /\ answers env requestID message /\
                  RequestID response = requestID).
  { intros H'. destruct (IH _ _ H') as (Hin & Ha & He).
    split; [apply elem_of_cons; right; exact Hin | auto]. }
  simpl in H. destruct (Data m) as [data|] eqn:Hd; [|auto].
  destruct (unmarshal env data) as [resp|] eqn:Hu; [|auto].
  destruct (String.eqb_spec (RequestID resp) requestID) as [Heq|_]; [|auto].
  injection H as <- <-. split; [apply elem_of_cons; left; reflexivity|].
  split; [|exact Heq]. exists data, resp. auto.
Qed.

End AuthFacts.

Module AuthTheorems.
Import Auth AuthFacts.

(** C2, as the claim has it, fails: a message with another request id ends
    the wait.  Read 100 ms into the window, it makes the call fail at once
    with "no response received for token validation", not with the timeout
    error. *)
Lemma mismatched_response_counterexample :
  let other := mkAuthResponse "0b0e7a52-58a3-4c5e-9a0f-3f1d2c4b5a69" true None "" in
  let env := mkAuthEnv "7c9e6679-7425-40de-944b-e07fc1f90ae7" 1714557600
               (fun _ => inl "request") (fun _ => None)
               (fun _ _ => mkRead (ReplyStreams [[mkMessage "1-0" (Some "other")]]) 100)
               (fun _ => Some other) in
  blocksWithin timeout (xreadgroup env "gateway-7c9e6679" timeout) /\
  ~ answers env (newUUID env) (mkMessage "1-0" (Some "other")) /\
  validateTokenViaRedis env "token" = mkValidation (inr NoResponse) [] 100 /\
  100 < timeout.
Proof.
  intros other env. split; [|split; [|split]].
  - unfold blocksWithin, timeout. simpl. lia.
  - intros (data & response & Hd & Hu & Hid). simpl in Hd, Hu.
    injection Hu as <-. simpl in Hid. discriminate.
  - reflexivity.
  - reflexivity.
Qed.

(** C2, amended: when the request was sent, the blocking read keeps to its
    window of 5 seconds, and no message it returns answers the generated
    request id, the call fails and acknowledges nothing.  It fails with the
    timeout error exactly when the read ran out with no message, and then
    after the whole window; a message with another request id is never
    returned as the answer, but it ends the call within the window, with
    "no response received for token validation". *)
Theorem unanswered_validation_fails env token requestData :
  let rd := xreadgroup env ("gateway-" +:+ substring 0 8 (newUUID env)) timeout in
  marshal env (mkAuthRequest (newUUID env) token (unixNow env)) = inl requestData ->
  xadd env requestData = None ->
  blocksWithin timeout rd ->
  (forall streams message,
     reply rd = ReplyStreams streams -> message ∈ concat streams ->
     ~ answers env (newUUID env) message) ->
  acked (validateTokenViaRedis env token) = [] /\
  match reply rd with
  | ReplyNil =>
      result (validateTokenViaRedis env token) = inr WaitTimedOut /\
      waited (validateTokenViaRedis env token) = timeout
  | ReplyError e =>
      result (validateTokenViaRedis env token) = inr (ReadFailed e) /\
      0 <= waited (validateTokenViaRedis env token) <= timeout
  | ReplyStreams _ =>
      result (validateTokenViaRedis env token) = inr NoResponse /\
      0 <= waited (validateTokenViaRedis env token) <= timeout
  end.
Proof.
  intros rd Hm Hx Hblock Hno. unfold validateTokenViaRedis. rewrite Hm, Hx.
  fold rd. unfold blocksWithin in Hblock.
  destruct (reply rd) as [|e|streams] eqn:Hr.
  - simpl. auto.
  - simpl. auto.
  - rewrite (findResponse_None env (newUUID env) (concat streams)).
    + simpl. auto.
    + intros message Hin. eapply Hno; [reflexivity | exact Hin].
Qed.

Lemma unanswered_validation_fails_witness :
  let env := mkAuthEnv "7c9e6679-7425-40de-944b-e07fc1f90ae7" 1714557600
               (fun _ => inl "request") (fun _ => None)
               (fun _ _ => mkRead ReplyNil 5000) (fun _ => None) in
  acked (validateTokenViaRedis env "token") = [] /\
  result (validateTokenViaRedis env "token") = inr WaitTimedOut /\
  waited (validateTokenViaRedis env "token") = timeout.
Proof.
  intros env.
  apply (unanswered_validation_fails env "token" "request").
  - reflexivity.
  - reflexivity.
  - reflexivity.
  - intros streams message Hr. discriminate Hr.
Defined.

End AuthTheorems.

(** ** Strings *)

Module StringsFacts.
Import Strings.

Lemma has_app c s1 s2 : has c (s1 +:+ s2) = has c s1 || has c s2.
Proof.
  induction s1 as [|a s1 IH]; [reflexivity|].
  change (String a s1 +:+ s2) with (String a (s1 +:+ s2)). simpl.
  rewrite IH. apply orb_assoc.
Qed.

Lemma cut_no_sep c : forall s, has c s = false -> cut s c = (s, []).
Proof.
  induction s as [|a s IH]; [reflexivity|]. simpl. intros H.
  apply orb_false_iff in H as [Ha Hs]. rewrite (IH Hs), Ha. reflexivity.
Qed.

Lemma Split_no_sep c s : has c s = false -> Split s c = [s].
Proof. intros H. unfold Split. rewrite (cut_no_sep c s H). reflexivity. Qed.

Lemma Split_app c : forall s1 s2,
  has c s1 = false -> Split (s1 +:+ String c s2) c = s1 :: Split s2 c.
Proof.
  induction s1 as [|a s1 IH]; intros s2 H.
  - change ("" +:+ String c s2) with (String c s2). unfold Split. simpl.
    destruct (cut s2 c) as [first others]. rewrite Ascii.eqb_refl. reflexivity.
  - simpl in H. apply orb_false_iff in H as [Ha Hs].
    change (String a s1 +:+ String c s2) with (String a (s1 +:+ String c s2)).
    specialize (IH s2 Hs). unfold Split in *. simpl.
    destruct (cut (s1 +:+ String c s2) c) as [first others].
    rewrite Ha. injection IH as -> ->. reflexivity.
Qed.

(** Joining the pieces with the separator gives the text back. *)
Lemma Join_Split c : forall s, Join (Split s c) (String c "") = s.
Proof.
  unfold Split. induction s as [|a s IH]; [reflexivity|]. simpl.
  destruct (cut s c) as [first others].
  destruct (Ascii.eqb_spec a c) as [->|_].
  - change (Join ("" :: first :: others) (String c ""))
      with (String c (Join (first :: others) (String c ""))).
    rewrite IH. reflexivity.
  - destruct others as [|x others].
    + simpl in IH. simpl. rewrite IH. reflexivity.
    + change (Join (String a first :: x :: others) (String c ""))
        with (String a (first +:+ String c "" +:+ Join (x :: others) (String c ""))).
      change (Join (first :: x :: others) (String c ""))
        with (first +:+ String c "" +:+ Join (x :: others) (String c "")) in IH.
      rewrite IH. reflexivity.
Qed.

Lemma app_sep c s1 s2 : s1 +:+ String c "" +:+ s2 = s1 +:+ String c s2.
Proof. reflexivity. Qed.

(** Splitting the joined pieces gives the pieces back, when none holds the
    separator. *)
Lemma Split_Join c : forall elems,
  elems <> [] -> Forall (fun e => has c e = false) elems ->
  Split (Join elems (String c "")) c = elems.
Proof.
  induction elems as [|e rest IH]; intros Hne Hall; [congruence|].
  apply Forall_cons in Hall as [He Hrest].
  destruct rest as [|x rest].
  - simpl. apply Split_no_sep. exact He.
  - change (Join (e :: x :: rest) (String c ""))
      with (e +:+ String c "" +:+ Join (x :: rest) (String c "")).
    rewrite app_sep, Split_app by exact He.
    rewrite IH; [reflexivity | discriminate | exact Hrest].
Qed.

Lemma Split_two c s a b :
  Split s c = [a; b] -> s = a +:+ String c b /\ has c a = false /\ has c b = false.
Proof.
  intros H. pose proof (Join_Split c s) as HJ. rewrite H in HJ.
  change (Join [a; b] (String c "")) with (a +:+ String c b) in HJ.
  split; [symmetry; exact HJ|].
  assert (Hcut : forall s first others, cut s c = (first, others) ->
            has c first = false /\ (others = [] -> has c s = false)).
  { clear. induction s as [|x s IH]; intros first others Hc.
    - injection Hc as <- <-. auto.
    - simpl in Hc. destruct (cut s c) as [f o].
      destruct (IH f o eq_refl) as [Hf Ho].
      destruct (Ascii.eqb x c) eqn:Hx.
      + injection Hc as <- <-. split; [reflexivity|discriminate].
      + injection Hc as <- <-. split; simpl; rewrite Hx; [exact Hf|].
        intros Hnil. apply Ho. exact Hnil. }
  assert (Hpieces : forall s, Forall (fun e => has c e = false) (Split s c)).
  { clear -Hcut. unfold Split. induction s as [|x s IH].
    - simpl. repeat constructor.
    - simpl. destruct (cut s c) as [f o].
      apply Forall_cons in IH as [Hf Ho].
      destruct (Ascii.eqb x c) eqn:Hx.
      + repeat constructor; assumption.
      + constructor; [simpl; rewrite Hx; exact Hf | exact Ho]. }
  specialize (Hpieces s). rewrite H in Hpieces.
  apply Forall_cons in Hpieces as [Ha Hb]. apply Forall_cons in Hb as [Hb _]. auto.
Qed.

Lemma LastIndex_no_sep c : forall s, has c s = false -> LastIndex s c = None.
Proof.
  induction s as [|a s IH]; [reflexivity|]. simpl. intros H.
  apply orb_false_iff in H as [Ha Hs]. rewrite (IH Hs), Ha. reflexivity.
Qed.

Lemma LastIndex_app c : forall s1 s2,
  has c s2 = false -> LastIndex (s1 +:+ String c s2) c = Some (String.length s1).
Proof.
  induction s1 as [|a s1 IH]; intros s2 H.
  - change ("" +:+ String c s2) with (String c s2). simpl.
    rewrite (LastIndex_no_sep c s2 H), Ascii.eqb_refl. reflexivity.
  - change (String a s1 +:+ String c s2) with (String a (s1 +:+ String c s2)).
    simpl. rewrite (IH s2 H). reflexivity.
Qed.

Lemma substring_app s1 : forall s2, substring 0 (String.length s1) (s1 +:+ s2) = s1.
Proof.
  induction s1 as [|a s1 IH]; intros s2.
  - simpl. destruct s2; reflexivity.
  - change (String a s1 +:+ s2) with (String a (s1 +:+ s2)). simpl.
    rewrite IH. reflexivity.
Qed.

End StringsFacts.

(** ** The configuration *)

Module ConfigFacts.
Import Strings StringsFacts Processor Config.

Lemma Split_has c : forall s,
  has c s = true -> exists p1 p2 rest, Split s c = p1 :: p2 :: rest.
Proof.
  unfold Split. induction s as [|a s IH]; [discriminate|]. simpl. intros H.
  destruct (cut s c) as [first others] eqn:Hc.
  destruct (Ascii.eqb a c) eqn:Ha.
  - eauto.
  - simpl in H. destruct (IH H) as (p1 & p2 & rest & E).
    injection E as -> ->. eauto.
Qed.

Lemma parseService_entry services name url :
  has ":" name = false -> has ":" url = true ->
  parseService services (name +:+ ":" +:+ url) =
    <[name := mkServiceInfo url (url +:+ "/health") 5]> services.
Proof.
  intros Hn Hu. unfold parseService.
  change (name +:+ ":" +:+ url) with (name +:+ String ":" url).
  rewrite Split_app by exact Hn.
  destruct (Split_has ":" url Hu) as (p1 & p2 & rest & E).
  pose proof (Join_Split ":" url) as HJ. rewrite E in HJ |- *.
  change (String ":" "") with ":" in HJ. rewrite HJ. reflexivity.
Qed.

Lemma foldl_insert {A} : forall (l : list (string * A)) (m : gmap string A),
  foldl (fun acc kv => <[kv.1 := kv.2]> acc) m l = list_to_map (reverse l) ∪ m.
Proof.
  induction l as [|[k v] l IH]; intros m.
  - simpl. rewrite (left_id_L ∅ (∪)). reflexivity.
  - simpl foldl. rewrite IH, reverse_cons, list_to_map_app. simpl.
    rewrite <- (assoc_L (∪)). f_equal.
    rewrite insert_empty, <- insert_union_singleton_l. reflexivity.
Qed.

Lemma entryText_no_comma entry :
  has "," entry.1 = false -> has "," entry.2 = false -> has "," (entryText entry) = false.
Proof.
  intros H1 H2. unfold entryText. rewrite !has_app, H1, H2. reflexivity.
Qed.

Lemma Join_nonempty sep : forall elems e,
  e <> EmptyString -> Join (e :: elems) sep <> EmptyString.
Proof.
  intros elems e He. destruct elems as [|x elems]; [exact He|].
  change (Join (e :: x :: elems) sep) with (e +:+ sep +:+ Join (x :: elems) sep).
  destruct e; [congruence|discriminate].
Qed.

End ConfigFacts.

Module ConfigTheorems.
Import Strings StringsFacts Processor Config ConfigFacts.

(** X1: a non-empty list of entries [name:url], joined by commas in
    [SERVICES], is read back as the registry of these entries, each with the
    health check [url/health] and the timeout 5, a later entry replacing an
    earlier one of the same name; provided no name holds a colon or a comma,
    and every URL holds a colon and no comma. *)
Theorem parseServices_reads_entries environ entries :
  entries <> [] ->
  Forall (fun e => has ":" e.1 = false /\ has "," e.1 = false /\
                   has ":" e.2 = true /\ has "," e.2 = false) entries ->
  environ !! "SERVICES" = Some (Join (map entryText entries) ",") ->
  parseServices environ = list_to_map (reverse (map entryInfo entries)).
Proof.
  intros Hne Hall Henv. unfold parseServices, getEnv. rewrite Henv.
  assert (Htext : Join (map entryText entries) "," <> EmptyString).
  { destruct entries as [|e entries]; [congruence|]. simpl map.
    apply Join_nonempty. apply Forall_cons in Hall as [(_ & _ & Hu & _) _].
    unfold entryText. destruct e.1; [|discriminate].
    destruct e.2; [discriminate|discriminate]. }
  apply String.eqb_neq in Htext. rewrite Htext, Htext.
  rewrite (Split_Join "," (map entryText entries)).
  2:{ destruct entries; [congruence|discriminate]. }
  2:{ apply Forall_fmap. eapply Forall_impl; [exact Hall|].
      intros e (_ & H1 & _ & H2). apply entryText_no_comma; assumption. }
  rewrite <- (right_id_L ∅ (∪) (list_to_map _)), <- foldl_insert.
  clear Hne Henv Htext. generalize (∅ : gmap string ServiceInfo).
  induction entries as [|e entries IH]; intros m; [reflexivity|].
  apply Forall_cons in Hall as [(Hn & _ & Hu & _) Hall].
  simpl. unfold entryText at 1. rewrite (parseService_entry m e.1 e.2 Hn Hu).
  apply IH. exact Hall.
Qed.

Lemma parseServices_reads_entries_witness :
  parseServices {[ "SERVICES" :=
                     Join (map entryText [("auth", "http://auth:8081");
                                          ("devices", "http://devices:8082")]) "," ]}
  = list_to_map (reverse (map entryInfo [("auth", "http://auth:8081");
                                         ("devices", "http://devices:8082")])).
Proof.
  apply parseServices_reads_entries.
  - discriminate.
  - repeat constructor.
  - reflexivity.
Defined.

(** X2: an entry of [SERVICES] with fewer than two colons, such as a name
    alone or a name with a bare host, is dropped without a word: the
    registry stays as it was. *)
Theorem parseService_drops_short_entry services name host :
  has ":" name = false -> has ":" host = false ->
  parseService services name = services /\
  parseService services (name +:+ ":" +:+ host) = services.
Proof.
  intros Hn Hh. unfold parseService. split.
  - rewrite Split_no_sep by exact Hn. reflexivity.
  - change (name +:+ ":" +:+ host) with (name +:+ String ":" host).
    rewrite Split_app by exact Hn. rewrite Split_no_sep by exact Hh. reflexivity.
Qed.

Lemma parseService_drops_short_entry_witness :
  parseService defaultServices "cache" = defaultServices /\
  parseService defaultServices ("cache" +:+ ":" +:+ "localhost") = defaultServices.
Proof.
  apply parseService_drops_short_entry; reflexivity.
Defined.

End ConfigTheorems.

(** ** The middleware *)

Module MiddlewareFacts.
Import GoInt Float64 Clock RateLimiter RateLimiterFacts Http Strings StringsFacts Auth Middleware.

Lemma wrap_range z : minInt <= wrap z <= maxInt.
Proof.
  unfold wrap, minInt, maxInt.
  pose proof (Z.mod_pos_bound (z + 2 ^ 63) (2 ^ 64) ltac:(lia)) as H.
  change (2 ^ 64) with (2 * 2 ^ 63) in *. lia.
Qed.

(** The results of a client's calls depend on the limiter through the
    client's record and the configuration alone. *)
Lemma run_ext clientID : forall clock rl1 rl2,
  clients rl1 !! clientID = clients rl2 !! clientID ->
  rpm rl1 = rpm rl2 -> burst rl1 = burst rl2 ->
  fst (run rl1 clientID clock) = fst (run rl2 clientID clock) /\
  clients (snd (run rl1 clientID clock)) !! clientID =
    clients (snd (run rl2 clientID clock)) !! clientID.
Proof.
  induction clock as [|[created now] clock IH]; intros rl1 rl2 Hc Hr Hb.
  - simpl. auto.
  - rewrite !run_cons, !Allow_spec. simpl fst. simpl snd.
    assert (Hcl : client_of rl1 clientID created = client_of rl2 clientID created).
    { unfold client_of. rewrite Hc, Hb. reflexivity. }
    rewrite Hcl, Hr, Hb.
    destruct (IH (mkLimiter
                    (<[clientID := snd (allow (client_of rl2 clientID created)
                                          (rpm rl2) (burst rl2) now)]> (clients rl1))
                    (rpm rl2) (burst rl2))
                 (mkLimiter
                    (<[clientID := snd (allow (client_of rl2 clientID created)
                                          (rpm rl2) (burst rl2) now)]> (clients rl2))
                    (rpm rl2) (burst rl2))) as [IH1 IH2].
    + simpl. rewrite !lookup_insert_eq. reflexivity.
    + reflexivity.
    + reflexivity.
    + rewrite IH1, IH2. auto.
Qed.

(** The calls of a client leave the records of the others, and the
    configuration, as they were. *)
Lemma run_frame clientID other : forall clock rl,
  other <> clientID ->
  clients (snd (run rl clientID clock)) !! other = clients rl !! other /\
  rpm (snd (run rl clientID clock)) = rpm rl /\
  burst (snd (run rl clientID clock)) = burst rl.
Proof.
  induction clock as [|[created now] clock IH]; intros rl Hne.
  - simpl. auto.
  - rewrite run_cons, Allow_spec. simpl snd.
    destruct (IH (mkLimiter
                    (<[clientID := snd (allow (client_of rl clientID created)
                                          (rpm rl) (burst rl) now)]> (clients rl))
                    (rpm rl) (burst rl)) Hne) as (H1 & H2 & H3).
    rewrite H1, H2, H3. simpl. rewrite lookup_insert_ne by congruence. auto.
Qed.

(** The first call for an identifier the limiter holds no record of, the
    record being made at the instant of the call. *)
Lemma Allow_new rl clientID t :
  clients rl !! clientID = None ->
  1 <= burst rl <= maxInt -> minInt <= rpm rl <= maxInt ->
  Allow rl clientID t t =
    (true, mkLimiter (<[clientID := mkClient (burst rl - 1) t]> (clients rl))
                     (rpm rl) (burst rl)).
Proof.
  intros Hnew Hb Hr. rewrite Allow_spec. unfold client_of. rewrite Hnew.
  rewrite allow_no_refill.
  - simpl tokens. rewrite Z.min_id.
    destruct (Z.ltb_spec 0 (burst rl)) as [_|]; [reflexivity|lia].
  - simpl. rewrite Sub_same. apply tokensToAdd_no_elapsed. exact Hr.
  - simpl. unfold minInt, maxInt in *. lia.
Qed.

Lemma Sub_within now last bound :
  0 <= bound < maxInt ->
  (Sub now last <= bound <-> now - last <= bound).
Proof. unfold Sub, saturate, minInt, maxInt. lia. Qed.

(** Calls that come too soon after one another to be refilled: no more of
    them are admitted than the bucket holds tokens. *)
Lemma run_no_refill clientID : forall gaps rl cl,
  clients rl !! clientID = Some cl ->
  minInt <= tokens cl <= maxInt ->
  0 < rpm rl <= maxInt ->
  minInt <= burst rl ->
  Forall (fun g => 0 <= g /\ g * rpm rl < period) gaps ->
  Z.of_nat (length (filter (fun ok => ok = true)
                      (fst (run rl clientID (readings (lastRefill cl) gaps)))))
    <= Z.max 0 (Z.min (tokens cl) (burst rl)).
Proof.
  induction gaps as [|g gaps IH]; intros rl cl Hcl Htk Hr Hb Hg.
  - simpl. lia.
  - apply Forall_cons in Hg as [[Hg0 Hg1] Hg].
    assert (Hgm : g <= maxInt).
    { unfold period, Second, maxInt in *. nia. }
    simpl readings. rewrite run_cons, Allow_spec, (client_of_known _ _ _ _ Hcl).
    simpl fst. simpl snd.
    rewrite allow_no_refill;
      [| rewrite Sub_gap by lia; apply tokensToAdd_lt_period; [lia | exact Hr | exact Hg1]
       | exact Htk].
    destruct (Z.ltb_spec 0 (Z.min (tokens cl) (burst rl))) as [Hpos|Hle];
      simpl fst; simpl snd.
    + set (cl1 := mkClient _ _). set (rl1 := mkLimiter _ _ _).
      assert (IH1 : Z.of_nat (length (filter (fun ok => ok = true)
                        (fst (run rl1 clientID (readings (lastRefill cl1) gaps)))))
                    <= Z.max 0 (Z.min (tokens cl1) (burst rl1))).
      { apply IH; [apply lookup_insert_eq | | exact Hr | exact Hb | exact Hg].
        unfold cl1. simpl. unfold minInt, maxInt in *. lia. }
      rewrite filter_cons_True by reflexivity. simpl length.
      change (lastRefill cl1) with (lastRefill cl + g) in IH1.
      change (tokens cl1) with (Z.min (tokens cl) (burst rl) - 1) in IH1.
      change (burst rl1) with (burst rl) in IH1. lia.
    + set (cl1 := mkClient _ _). set (rl1 := mkLimiter _ _ _).
      assert (IH1 : Z.of_nat (length (filter (fun ok => ok = true)
                        (fst (run rl1 clientID (readings (lastRefill cl1) gaps)))))
                    <= Z.max 0 (Z.min (tokens cl1) (burst rl1))).
      { apply IH; [apply lookup_insert_eq | | exact Hr | exact Hb | exact Hg].
        unfold cl1. simpl. unfold minInt, maxInt in *. lia. }
      rewrite filter_cons_False by discriminate.
      change (lastRefill cl1) with (lastRefill cl + g) in IH1.
      change (tokens cl1) with (Z.min (tokens cl) (burst rl)) in IH1.
      change (burst rl1) with (burst rl) in IH1. lia.
Qed.

(** [Auth] on a header made of [Bearer], one space and a token without a
    space: the validation decides. *)
Lemma Auth_Bearer env r token :
  Get (inHeader r) "Authorization" = "Bearer " +:+ token ->
  has " " token = false ->
  Auth env r =
    match result (validateTokenViaRedis env token) with
    | inr _ => Responded 401 "invalid token"
    | inl None => Panic
    | inl (Some user) =>
        Next (withValue (withValue (withValue r "user_id" (ID user)) "role" (Role user))
                "email" (Email user))
    end.
Proof.
  intros Hh Ht. unfold Auth. rewrite Hh.
  change ("Bearer " +:+ token) with ("Bearer" +:+ String " " token).
  rewrite Split_app by reflexivity. rewrite Split_no_sep by exact Ht.
  reflexivity.
Qed.

(** A request [Auth] hands on has such a header. *)
Lemma Auth_Next_header env r r' :
  Auth env r = Next r' ->
  exists token,
    Get (inHeader r) "Authorization" = "Bearer " +:+ token /\ has " " token = false.
Proof.
  unfold Auth. intros H.
  destruct (String.eqb (Get (inHeader r) "Authorization") ""); [discriminate|].
  destruct (Split (Get (inHeader r) "Authorization") " ") as [|scheme [|token [|x l]]] eqn:Hs;
    try discriminate.
  destruct (String.eqb_spec scheme "Bearer") as [->|_]; [|discriminate].
  destruct (Split_two _ _ _ _ Hs) as (Hh & _ & Ht).
  exists token. auto.
Qed.

End MiddlewareFacts.

Module MiddlewareTheorems.
Import GoInt Float64 Clock RateLimiter RateLimiterFacts Http Strings StringsFacts Auth.
Import Middleware MiddlewareFacts.

(** X3: whatever a record held and whatever the clock readings, after a
    call of [allow] the bucket holds at most [burst] tokens; an admitted
    call leaves fewer than [burst] and at least none, a denied call finds
    none to take; and the record is stamped with the reading of the call. *)
Theorem allow_keeps_bucket_bounded cl r b now :
  minInt <= b <= maxInt ->
  tokens (snd (allow cl r b now)) <= b /\
  (fst (allow cl r b now) = true -> 0 <= tokens (snd (allow cl r b now)) < b) /\
  (fst (allow cl r b now) = false -> tokens (snd (allow cl r b now)) <= 0) /\
  lastRefill (snd (allow cl r b now)) = now.
Proof.
  intros Hb. unfold allow, add, sub.
  pose proof (wrap_range (tokens cl + tokensToAdd (Sub now (lastRefill cl)) r)) as Hw.
  set (refilled := wrap (tokens cl + tokensToAdd (Sub now (lastRefill cl)) r)) in *.
  set (capped := if b <? refilled then b else refilled).
  assert (Hc : capped <= b /\ minInt <= capped).
  { unfold capped. destruct (Z.ltb_spec b refilled); lia. }
  destruct (Z.ltb_spec 0 capped) as [Hpos|Hneg]; simpl.
  - rewrite wrap_small by (unfold minInt, maxInt in *; lia).
    repeat split; intros; try lia; discriminate.
  - repeat split; intros; try lia; discriminate.
Qed.

Lemma allow_keeps_bucket_bounded_witness :
  tokens (snd (allow (mkClient 500 0) 100 20 1000)) <= 20 /\
  (fst (allow (mkClient 500 0) 100 20 1000) = true ->
   0 <= tokens (snd (allow (mkClient 500 0) 100 20 1000)) < 20) /\
  (fst (allow (mkClient 500 0) 100 20 1000) = false ->
   tokens (snd (allow (mkClient 500 0) 100 20 1000)) <= 0) /\
  lastRefill (snd (allow (mkClient 500 0) 100 20 1000)) = 1000.
Proof.
  apply (allow_keeps_bucket_bounded (mkClient 500 0) 100 20 1000).
  unfold minInt, maxInt. lia.
Defined.

(** X4: clients are limited independently: the calls of one client, however
    many, change neither what the calls of another client return nor the
    record they leave. *)
Theorem clients_limited_independently rl a b clockA clockB :
  a <> b ->
  fst (run (snd (run rl a clockA)) b clockB) = fst (run rl b clockB) /\
  clients (snd (run (snd (run rl a clockA)) b clockB)) !! b =
    clients (snd (run rl b clockB)) !! b.
Proof.
  intros Hne.
  destruct (run_frame a b clockA rl) as (H1 & H2 & H3); [congruence|].
  apply run_ext; assumption.
Qed.

Lemma clients_limited_independently_witness :
  fst (run (snd (run (mkLimiter ∅ 100 2) "10.0.0.7" [(0, 0); (0, 0); (0, 0)]))
         "10.0.0.8" [(0, 0); (0, 0); (0, 0)])
  = fst (run (mkLimiter ∅ 100 2) "10.0.0.8" [(0, 0); (0, 0); (0, 0)]) /\
  clients (snd (run (snd (run (mkLimiter ∅ 100 2) "10.0.0.7" [(0, 0); (0, 0); (0, 0)]))
                  "10.0.0.8" [(0, 0); (0, 0); (0, 0)])) !! "10.0.0.8"
  = clients (snd (run (mkLimiter ∅ 100 2) "10.0.0.8" [(0, 0); (0, 0); (0, 0)])) !! "10.0.0.8".
Proof.
  apply (clients_limited_independently (mkLimiter ∅ 100 2) "10.0.0.7" "10.0.0.8").
  discriminate.
Defined.

(** X5: a turn of [cleanup] that comes within ten minutes of a client's
    last call keeps the client's record as the call left it. *)
Theorem cleanup_keeps_recent_client rl clientID created now later :
  0 <= later - now <= 10 * Minute ->
  is_Some (clients (snd (Allow rl clientID created now)) !! clientID) /\
  clients (cleanup (snd (Allow rl clientID created now)) later) !! clientID =
    clients (snd (Allow rl clientID created now)) !! clientID.
Proof.
  intros Hgap. rewrite Allow_spec. simpl snd. unfold cleanup. simpl clients.
  rewrite lookup_insert_eq. split; [eexists; reflexivity|].
  apply map_lookup_filter_Some. split; [apply lookup_insert_eq|].
  simpl. rewrite allow_lastRefill.
  apply Sub_within; [unfold Minute, Second, maxInt; lia | lia].
Qed.

Lemma cleanup_keeps_recent_client_witness :
  is_Some (clients (snd (Allow (mkLimiter ∅ 100 20) "10.0.0.7" 0 0)) !! "10.0.0.7") /\
  clients (cleanup (snd (Allow (mkLimiter ∅ 100 20) "10.0.0.7" 0 0)) 600000000000)
    !! "10.0.0.7" =
  clients (snd (Allow (mkLimiter ∅ 100 20) "10.0.0.7" 0 0)) !! "10.0.0.7".
Proof.
  apply (cleanup_keeps_recent_client (mkLimiter ∅ 100 20) "10.0.0.7" 0 0 600000000000).
  unfold Minute, Second. lia.
Defined.

(** X6: a turn of [cleanup] deletes the record of a client whose last call
    is more than ten minutes old, and leaves every other record and the
    configuration alone; the next call of that client is then a first
    call, admitted on a full bucket whatever the deleted record held. *)
Theorem cleanup_resets_idle_client rl clientID cl now t :
  clients rl !! clientID = Some cl ->
  10 * Minute < now - lastRefill cl ->
  1 <= burst rl <= maxInt -> minInt <= rpm rl <= maxInt ->
  clients (cleanup rl now) !! clientID = None /\
  (forall other cl', clients (cleanup rl now) !! other = Some cl' ->
     clients rl !! other = Some cl') /\
  Allow (cleanup rl now) clientID t t =
    (true, mkLimiter (<[clientID := mkClient (burst rl - 1) t]> (clients (cleanup rl now)))
                     (rpm rl) (burst rl)).
Proof.
  intros Hcl Hidle Hb Hr.
  assert (Hgone : clients (cleanup rl now) !! clientID = None).
  { unfold cleanup. simpl. apply map_lookup_filter_None. right.
    intros cl0 Hcl0 Hkeep. rewrite Hcl in Hcl0. injection Hcl0 as <-. simpl in Hkeep.
    apply Sub_within in Hkeep; [lia|]. unfold Minute, Second, maxInt. lia. }
  split; [exact Hgone|]. split.
  - intros other cl' H. unfold cleanup in H. simpl in H.
    apply map_lookup_filter_Some in H as [H _]. exact H.
  - apply (Allow_new (cleanup rl now) clientID t Hgone); assumption.
Qed.

Lemma cleanup_resets_idle_client_witness :
  clients (cleanup (mkLimiter {["10.0.0.7" := mkClient 0 0]} 100 20) 600000000001)
    !! "10.0.0.7" = None /\
  (forall other cl',
     clients (cleanup (mkLimiter {["10.0.0.7" := mkClient 0 0]} 100 20) 600000000001)
       !! other = Some cl' ->
     clients (mkLimiter {["10.0.0.7" := mkClient 0 0]} 100 20) !! other = Some cl') /\
  Allow (cleanup (mkLimiter {["10.0.0.7" := mkClient 0 0]} 100 20) 600000000001)
    "10.0.0.7" 600000000001 600000000001 =
    (true,
     mkLimiter (<["10.0.0.7" := mkClient (20 - 1) 600000000001]>
                  (clients (cleanup (mkLimiter {["10.0.0.7" := mkClient 0 0]} 100 20)
                              600000000001)))
               100 20).
Proof.
  apply (cleanup_resets_idle_client (mkLimiter {["10.0.0.7" := mkClient 0 0]} 100 20)
           "10.0.0.7" (mkClient 0 0) 600000000001 600000000001).
  - reflexivity.
  - unfold Minute, Second. simpl. lia.
  - simpl. unfold maxInt. lia.
  - simpl. unfold minInt, maxInt. lia.
Defined.

(** X7: without an [X-Forwarded-For] or [X-Real-IP] header, [getClientIP]
    gives the remote address [host:port] without its port: what stands
    before the last colon, the brackets of an IPv6 host included. *)
Theorem getClientIP_strips_port TrimSpace r host port :
  Get (inHeader r) "X-Forwarded-For" = "" ->
  Get (inHeader r) "X-Real-IP" = "" ->
  RemoteAddr r = host +:+ ":" +:+ port ->
  has ":" port = false ->
  getClientIP TrimSpace r = host.
Proof.
  intros Hxff Hxri Haddr Hport. unfold getClientIP. rewrite Hxff, Hxri, Haddr. simpl.
  change (host +:+ ":" +:+ port) with (host +:+ String ":" port).
  rewrite LastIndex_app by exact Hport. apply substring_app.
Qed.

Lemma getClientIP_strips_port_witness :
  getClientIP (fun s => s) (mkInbound ∅ "[::1]:52044" ∅) = "[::1]".
Proof.
  apply (getClientIP_strips_port (fun s => s) (mkInbound ∅ "[::1]:52044" ∅) "[::1]" "52044");
    reflexivity.
Defined.

(** X8: the bucket a request is charged to is named by the request itself:
    with a non-empty [X-Forwarded-For] header the identifier is the trimmed
    text before its first comma, whatever the remote address; so a request
    naming an identifier the limiter has no record of is admitted (for
    [burst >= 1]), and the records under all other identifiers, that of the
    remote address among them, are left as they were. *)
Theorem RateLimit_keyed_by_forwarded_for TrimSpace rl r xff t :
  Get (inHeader r) "X-Forwarded-For" = xff -> xff <> "" ->
  clients rl !! TrimSpace (cut xff ",").1 = None ->
  1 <= burst rl <= maxInt -> minInt <= rpm rl <= maxInt ->
  getClientIP TrimSpace r = TrimSpace (cut xff ",").1 /\
  fst (RateLimit TrimSpace rl r t t) = Next r /\
  forall other, other <> TrimSpace (cut xff ",").1 ->
    clients (snd (RateLimit TrimSpace rl r t t)) !! other = clients rl !! other.
Proof.
  intros Hxff Hne Hnew Hb Hr.
  assert (Hip : getClientIP TrimSpace r = TrimSpace (cut xff ",").1).
  { unfold getClientIP. rewrite Hxff. apply String.eqb_neq in Hne. rewrite Hne. simpl.
    unfold Split. destruct (cut xff ",") as [first others]. reflexivity. }
  split; [exact Hip|]. unfold RateLimit. rewrite Hip.
  rewrite (Allow_new rl _ t Hnew Hb Hr). split; [reflexivity|].
  intros other Ho. simpl. apply lookup_insert_ne. congruence.
Qed.

Lemma RateLimit_keyed_by_forwarded_for_witness :
  let r := mkInbound {[ "X-Forwarded-For" := ["203.0.113.9, 10.0.0.1"] ]} "10.0.0.7:52044" ∅ in
  let rl := mkLimiter {[ "10.0.0.7" := mkClient 0 0 ]} 100 20 in
  getClientIP (fun s => s) r = "203.0.113.9" /\
  fst (RateLimit (fun s => s) rl r 0 0) = Next r /\
  forall other, other <> "203.0.113.9" ->
    clients (snd (RateLimit (fun s => s) rl r 0 0)) !! other = clients rl !! other.
Proof.
  intros r rl.
  apply (RateLimit_keyed_by_forwarded_for (fun s => s) rl r "203.0.113.9, 10.0.0.1" 0).
  - reflexivity.
  - discriminate.
  - reflexivity.
  - simpl. unfold maxInt. lia.
  - simpl. unfold minInt, maxInt. lia.
Defined.

(** X9: [Auth] hands a request on exactly when its [Authorization] header
    is [Bearer], one space, and a token without a space that the validation
    answers with a user; the request handed on is the one received, with
    the user's id, role and email in its context. *)
Theorem Auth_passes_bearer_tokens_only env r r' :
  Auth env r = Next r' <->
  exists token user,
    Get (inHeader r) "Authorization" = "Bearer " +:+ token /\
    has " " token = false /\
    result (validateTokenViaRedis env token) = inl (Some user) /\
    r' = mkInbound (inHeader r) (RemoteAddr r)
           (<["email" := Email user]>
              (<["role" := Role user]> (<["user_id" := ID user]> (ctx r)))).
Proof.
  split.
  - intros H. destruct (Auth_Next_header env r r' H) as (token & Hh & Ht).
    rewrite (Auth_Bearer env r token Hh Ht) in H.
    destruct (result (validateTokenViaRedis env token)) as [[user|]|e] eqn:Hv;
      try discriminate.
    injection H as <-. exists token, user. repeat split; assumption.
  - intros (token & user & Hh & Ht & Hv & ->).
    rewrite (Auth_Bearer env r token Hh Ht), Hv. reflexivity.
Qed.

(** X10: a validation that answers "valid" without a user makes [Auth]
    panic on the nil user, where a rejection would answer 401. *)
Theorem Auth_panics_without_user env r token :
  Get (inHeader r) "Authorization" = "Bearer " +:+ token ->
  has " " token = false ->
  result (validateTokenViaRedis env token) = inl None ->
  Auth env r = Panic.
Proof.
  intros Hh Ht Hv. rewrite (Auth_Bearer env r token Hh Ht), Hv. reflexivity.
Qed.

Lemma Auth_panics_without_user_witness :
  let env := mkAuthEnv "7c9e6679-7425-40de-944b-e07fc1f90ae7" 1714557600
               (fun _ => inl "request") (fun _ => None)
               (fun _ _ => mkRead (ReplyStreams [[mkMessage "1-0" (Some "answer")]]) 100)
               (fun _ => Some (mkAuthResponse "7c9e6679-7425-40de-944b-e07fc1f90ae7"
                                 true None "")) in
  Auth env (mkInbound {[ "Authorization" := ["Bearer abc"] ]} "10.0.0.7:52044" ∅) = Panic.
Proof.
  intros env.
  apply (Auth_panics_without_user env
           (mkInbound {[ "Authorization" := ["Bearer abc"] ]} "10.0.0.7:52044" ∅) "abc");
    reflexivity.
Defined.

(** X11: a request passes [Auth] and then [RequireRole] exactly when its
    bearer token is validated with a user whose role is the required
    one. *)
Theorem RequireRole_after_Auth env requiredRole r :
  (exists r' r'', Auth env r = Next r' /\ RequireRole requiredRole r' = Next r'') <->
  exists token user,
    Get (inHeader r) "Authorization" = "Bearer " +:+ token /\
    has " " token = false /\
    result (validateTokenViaRedis env token) = inl (Some user) /\
    Role user = requiredRole.
Proof.
  split.
  - intros (r' & r'' & Ha & Hr).
    destruct (Auth_Next_header env r r' Ha) as (token & Hh & Ht).
    rewrite (Auth_Bearer env r token Hh Ht) in Ha.
    destruct (result (validateTokenViaRedis env token)) as [[user|]|e] eqn:Hv;
      try discriminate.
    injection Ha as <-. exists token, user. repeat split; try assumption.
    unfold RequireRole in Hr. simpl in Hr.
    rewrite lookup_insert_ne in Hr by discriminate. rewrite lookup_insert_eq in Hr.
    destruct (String.eqb_spec (Role user) requiredRole); [assumption|discriminate].
  - intros (token & user & Hh & Ht & Hv & Hrole).
    eexists _, _. split.
    + rewrite (Auth_Bearer env r token Hh Ht), Hv. reflexivity.
    + unfold RequireRole. simpl.
      rewrite lookup_insert_ne by discriminate. rewrite lookup_insert_eq.
      rewrite Hrole, String.eqb_refl. reflexivity.
Qed.

(** X21: a client whose calls all come within the refill period of the call
    before (however many calls, over however long) is admitted at most as
    many times as its bucket held tokens at the start, and never more than
    [burst] times. *)
Theorem admitted_at_most_tokens_without_refill rl clientID cl gaps :
  clients rl !! clientID = Some cl ->
  minInt <= tokens cl <= maxInt ->
  0 < rpm rl <= maxInt ->
  minInt <= burst rl ->
  Forall (fun g => 0 <= g /\ g * rpm rl < period) gaps ->
  Z.of_nat (length (filter (fun ok => ok = true)
                      (fst (run rl clientID (readings (lastRefill cl) gaps)))))
    <= Z.max 0 (Z.min (tokens cl) (burst rl)) /\
  length (fst (run rl clientID (readings (lastRefill cl) gaps))) = length gaps.
Proof.
  intros Hcl Htk Hr Hb Hg. split; [apply run_no_refill; assumption|].
  clear. generalize (lastRefill cl). revert rl.
  induction gaps as [|g gaps IH]; intros rl start; [reflexivity|].
  simpl readings. rewrite run_cons. simpl. rewrite IH. reflexivity.
Qed.

Lemma admitted_at_most_tokens_without_refill_witness :
  Z.of_nat (length (filter (fun ok => ok = true)
                      (fst (run (mkLimiter {["10.0.0.7" := mkClient 2 0]} 100 20) "10.0.0.7"
                              (readings 0 [100000000; 100000000; 100000000; 100000000])))))
    <= Z.max 0 (Z.min 2 20) /\
  length (fst (run (mkLimiter {["10.0.0.7" := mkClient 2 0]} 100 20) "10.0.0.7"
                 (readings 0 [100000000; 100000000; 100000000; 100000000]))) = 4%nat.
Proof.
  apply (admitted_at_most_tokens_without_refill
           (mkLimiter {["10.0.0.7" := mkClient 2 0]} 100 20) "10.0.0.7" (mkClient 2 0)
           [100000000; 100000000; 100000000; 100000000]).
  - reflexivity.
  - simpl. unfold minInt, maxInt. lia.
  - simpl. unfold maxInt. lia.
  - simpl. unfold minInt. lia.
  - unfold period, Second. simpl. repeat constructor; lia.
Defined.

End MiddlewareTheorems.

(** ** Forwarding, call by call *)

Module ProxyFacts.
Import GoInt Float64 Clock Http Processor ProcessorFacts Handler HandlerFacts Routes.

Lemma healthAt_write (h : heap) l o o0 x :
  h !! l = Some o0 -> tagOf o0 <> 1%nat -> tagOf o <> 1%nat ->
  healthAt (<[l := o]> h) x = healthAt h x.
Proof.
  intros Ho H0 H1. unfold healthAt.
  destruct (decide (x = l)) as [->|Hne].
  - rewrite list_lookup_insert_eq by (eapply lookup_lt_Some; exact Ho).
    rewrite Ho. destruct o; destruct o0; simpl in *; congruence.
  - rewrite list_lookup_insert_ne by congruence. reflexivity.
Qed.

(** What the shared update leaves in the heap: the metrics rewritten by
    [fg], those of the service by [fm], the maps and the health results as
    they were. *)
Lemma updateMetrics_exact gp service fg fm (h : heap) g sm hm :
  wellFormed gp h ->
  (forall g, ServiceMetricsMap (fg g) = ServiceMetricsMap g /\
             HealthStats (fg g) = HealthStats g) ->
  h !! metrics gp = Some (ObjGatewayMetrics g) ->
  h !! ServiceMetricsMap g = Some (ObjMetricsMap sm) ->
  h !! HealthStats g = Some (ObjHealthMap hm) ->
  exists h',
    updateMetrics gp service fg fm h = Some (tt, h') /\
    wellFormed gp h' /\
    h' !! metrics gp = Some (ObjGatewayMetrics (fg g)) /\
    h' !! ServiceMetricsMap g = Some (ObjMetricsMap sm) /\
    h' !! HealthStats g = Some (ObjHealthMap hm) /\
    (sm !! service ≫= serviceAt h') = fm <$> (sm !! service ≫= serviceAt h) /\
    (forall x, healthAt h' x = healthAt h x).
Proof.
  intros Hwf Hfg Hg Hsm Hhm. pose proof Hwf as (Hh & _ & _).
  destruct (updateMetrics_ok gp service fg fm h Hwf Hfg) as (h' & Hrun & Hwf' & _).
  exists h'. split; [exact Hrun|]. split; [exact Hwf'|].
  set (h1 := <[metrics gp := ObjGatewayMetrics (fg g)]> h).
  assert (Hlt : (metrics gp < length h)%nat) by (eapply lookup_lt_Some; exact Hg).
  assert (Hg1 : h1 !! metrics gp = Some (ObjGatewayMetrics (fg g))).
  { unfold h1. apply list_lookup_insert_eq. exact Hlt. }
  assert (Hsm1 : h1 !! ServiceMetricsMap g = Some (ObjMetricsMap sm)).
  { unfold h1. eapply lookup_insert_other_tag; [exact Hsm | exact Hg | discriminate]. }
  assert (Hhm1 : h1 !! HealthStats g = Some (ObjHealthMap hm)).
  { unfold h1. eapply lookup_insert_other_tag; [exact Hhm | exact Hg | discriminate]. }
  assert (Hat1 : forall x, healthAt h1 x = healthAt h x).
  { intros x. unfold h1. eapply healthAt_write; [exact Hg | discriminate | discriminate]. }
  assert (Hrun1 : updateMetrics gp service fg fm h =
            match sm !! service with
            | Some l => (m ← readServiceMetrics l; write l (ObjServiceMetrics (fm m))) h1
            | None => Some (tt, h1)
            end).
  { unfold updateMetrics.
    rewrite (bind_Some _ _ _ _ _ (readGatewayMetrics_Some _ _ _ Hg)).
    rewrite (bind_Some _ _ h _ h1) by (apply write_Some; exact Hlt).
    rewrite (bind_Some _ _ _ _ _ (readMetricsMap_Some _ _ _ Hsm1)).
    destruct (sm !! service); reflexivity. }
  rewrite Hrun1 in Hrun. clear Hrun1.
  destruct (sm !! service) as [l|] eqn:Hl.
  - pose proof (Hh _ _ Hsm) as Hmap. simpl in Hmap.
    destruct (holds_ServiceMetrics _ _ (Hmap _ _ Hl)) as [m Hm0].
    assert (Hm1 : h1 !! l = Some (ObjServiceMetrics m)).
    { unfold h1. eapply lookup_insert_other_tag; [exact Hm0 | exact Hg | discriminate]. }
    rewrite (bind_Some _ _ _ _ _ (readServiceMetrics_Some _ _ _ Hm1)) in Hrun.
    rewrite write_Some in Hrun by (eapply lookup_lt_Some; exact Hm1).
    injection Hrun as <-.
    split; [eapply lookup_insert_other_tag; [exact Hg1 | exact Hm1 | discriminate]|].
    split; [eapply lookup_insert_other_tag; [exact Hsm1 | exact Hm1 | discriminate]|].
    split; [eapply lookup_insert_other_tag; [exact Hhm1 | exact Hm1 | discriminate]|].
    split.
    + simpl. unfold serviceAt.
      rewrite list_lookup_insert_eq by (eapply lookup_lt_Some; exact Hm1).
      rewrite Hm0. reflexivity.
    + intros x. rewrite <- Hat1.
      eapply healthAt_write; [exact Hm1 | discriminate | discriminate].
  - injection Hrun as <-. auto.
Qed.

Lemma view_Some gp (h : heap) v :
  view h (metrics gp) = Some v ->
  exists g sm hm,
    h !! metrics gp = Some (ObjGatewayMetrics g) /\
    h !! ServiceMetricsMap g = Some (ObjMetricsMap sm) /\
    h !! HealthStats g = Some (ObjHealthMap hm) /\
    v = mkView (TotalRequests g) (SuccessRequests g) (ErrorRequests g)
          (AverageLatency g) (StartTime g) (omap (serviceAt h) sm) (omap (healthAt h) hm).
Proof.
  unfold view. intros H.
  destruct (h !! metrics gp) as [[| | | |g]|] eqn:Hg; try discriminate.
  destruct (h !! ServiceMetricsMap g) as [[| |sm| |]|] eqn:Hsm; try discriminate.
  destruct (h !! HealthStats g) as [[| | |hm|]|] eqn:Hhm; try discriminate.
  injection H as <-. exists g, sm, hm. auto.
Qed.

Lemma view_wellFormed gp (h : heap) : wellFormed gp h -> is_Some (view h (metrics gp)).
Proof.
  intros (Hh & Hm & _).
  destruct (holds_GatewayMetrics _ _ Hm) as [g Hg].
  pose proof (Hh _ _ Hg) as [Hsm Hhm]. simpl in Hsm, Hhm.
  destruct (holds_MetricsMap _ _ Hsm) as [sm Hsm'].
  destruct (holds_HealthMap _ _ Hhm) as [hm Hhm'].
  unfold view. rewrite Hg, Hsm', Hhm'. eexists. reflexivity.
Qed.

(** [updateRequestMetrics], as a reader of the metrics sees it. *)
Lemma updateRequestMetrics_view gp service success now (h : heap) v :
  wellFormed gp h -> view h (metrics gp) = Some v ->
  exists h' v',
    updateRequestMetrics gp service success now h = Some (tt, h') /\
    wellFormed gp h' /\ view h' (metrics gp) = Some v' /\
    counters v' = count success (counters v) /\
    serviceCounters <$> (vServiceMetrics v' !! service) =
      count success <$> (serviceCounters <$> (vServiceMetrics v !! service)) /\
    vHealthStats v' = vHealthStats v /\ vStartTime v' = vStartTime v.
Proof.
  intros Hwf Hv. destruct (view_Some gp h v Hv) as (g & sm & hm & Hg & Hsm & Hhm & ->).
  rewrite updateRequestMetrics_shape.
  destruct (updateMetrics_exact gp service (fun g => countRequest g success)
              (fun m => countServiceRequest m success now) h g sm hm Hwf)
    as (h' & Hrun & Hwf' & Hg' & Hsm' & Hhm' & Hsvc & Hat); try assumption.
  { intros g0. split; reflexivity. }
  exists h'. eexists. split; [exact Hrun|]. split; [exact Hwf'|].
  split; [unfold view; rewrite Hg'; simpl; rewrite Hsm', Hhm'; reflexivity|].
  split; [reflexivity|]. simpl. split; [|split; [|reflexivity]].
  - rewrite !lookup_omap, Hsvc.
    destruct (sm !! service ≫= serviceAt h) as [m|]; reflexivity.
  - apply map_eq. intros s. rewrite !lookup_omap.
    destruct (hm !! s); [apply Hat | reflexivity].
Qed.

(** [updateLatencyMetrics], as a reader of the metrics sees it: the
    counters stay. *)
Lemma updateLatencyMetrics_view gp service duration (h : heap) v :
  wellFormed gp h -> view h (metrics gp) = Some v ->
  exists h' v',
    updateLatencyMetrics gp service duration h = Some (tt, h') /\
    wellFormed gp h' /\ view h' (metrics gp) = Some v' /\
    counters v' = counters v /\
    serviceCounters <$> (vServiceMetrics v' !! service) =
      serviceCounters <$> (vServiceMetrics v !! service) /\
    vHealthStats v' = vHealthStats v /\ vStartTime v' = vStartTime v.
Proof.
  intros Hwf Hv. destruct (view_Some gp h v Hv) as (g & sm & hm & Hg & Hsm & Hhm & ->).
  rewrite updateLatencyMetrics_shape.
  destruct (updateMetrics_exact gp service
              (fun g => withLatency g (float64_of_int (Milliseconds duration)))
              (fun m => withServiceLatency m (float64_of_int (Milliseconds duration)))
              h g sm hm Hwf)
    as (h' & Hrun & Hwf' & Hg' & Hsm' & Hhm' & Hsvc & Hat); try assumption.
  { intros g0. split; reflexivity. }
  exists h'. eexists. split; [exact Hrun|]. split; [exact Hwf'|].
  split; [unfold view; rewrite Hg'; simpl; rewrite Hsm', Hhm'; reflexivity|].
  split; [reflexivity|]. simpl. split; [|split; [|reflexivity]].
  - rewrite !lookup_omap, Hsvc.
    destruct (sm !! service ≫= serviceAt h) as [m|]; reflexivity.
  - apply map_eq. intros s. rewrite !lookup_omap.
    destruct (hm !! s); [apply Hat | reflexivity].
Qed.

End ProxyFacts.

Module ProxyRequestFacts.
Import GoInt Float64 Clock Http Processor ProcessorFacts Handler HandlerFacts Routes ProxyFacts.

(** Every path through [ProxyRequest] counts the call as a success, counts
    it as an error too if it failed, records the latency or not, and
    returns. *)
Lemma ProxyRequest_shape gp service path method body headers userID env (h : heap) :
  exists res events (isFailed latency : bool),
    ProxyRequest gp service path method body headers userID env h =
      (updateRequestMetrics gp service true (nowAt env 1) ;;
       (if isFailed then updateRequestMetrics gp service false (nowAt env 2) else mret tt) ;;
       (if latency
        then updateLatencyMetrics gp service (Sub (finishedAt env) (nowAt env 0))
        else mret tt) ;;
       mret (res, events)) h /\
    failed res = isFailed /\
    res =
      match services gp !! service with
      | None => inr ("service " +:+ service +:+ " not found")
      | Some info =>
          match body with
          | Some (inr e) => inr ("failed to read request body: " +:+ e)
          | _ =>
              match newRequestError env method (URL info +:+ path) with
              | Some e => inr ("failed to create request: " +:+ e)
              | None =>
                  match upstream env
                          (mkRequest method (URL info +:+ path)
                             (outboundHeader headers (uuid env) userID
                                (formatRFC3339 env (nowAt env 0)) service)
                             match body with Some (inl b) => b | _ => "" end) with
                  | UpstreamError e => inr ("request failed: " +:+ e)
                  | UpstreamResponse statusCode respHeader (inr e) =>
                      inr ("failed to read response: " +:+ e)
                  | UpstreamResponse statusCode respHeader (inl responseBody) =>
                      inl (mkProxyResponse statusCode (decodeBody env responseBody)
                             (firstValues respHeader)
                             (Sub (finishedAt env) (nowAt env 0)))
                  end
              end
          end
      end /\
    networkCalls events =
      match services gp !! service with
      | None => []
      | Some info =>
          match body with
          | Some (inr _) => []
          | _ =>
              match newRequestError env method (URL info +:+ path) with
              | Some _ => []
              | None =>
                  [mkRequest method (URL info +:+ path)
                     (outboundHeader headers (uuid env) userID
                        (formatRFC3339 env (nowAt env 0)) service)
                     match body with Some (inl b) => b | _ => "" end]
              end
          end
      end.
Proof.
  unfold ProxyRequest.
  destruct (services gp !! service) as [info|].
  2:{ eexists _, _, true, false. split; [reflexivity|]. split; [reflexivity|]. split; reflexivity. }
  assert (Hsend : forall bodyBytes,
    exists res events (isFailed latency : bool),
      (updateRequestMetrics gp service true (nowAt env 1) ;;
       match newRequestError env method (URL info +:+ path) with
       | Some e =>
           updateRequestMetrics gp service false (nowAt env 2) ;;
           mret (inr ("failed to create request: " +:+ e),
                 [PublishLog "info" (method +:+ " " +:+ path +:+ " proxied to " +:+ service)
                    service (uuid env)])
       | None =>
           let req := mkRequest method (URL info +:+ path)
                        (outboundHeader headers (uuid env) userID
                           (formatRFC3339 env (nowAt env 0)) service) bodyBytes in
           let duration := Sub (finishedAt env) (nowAt env 0) in
           match upstream env req with
           | UpstreamError e =>
               updateRequestMetrics gp service false (nowAt env 2) ;;
               updateLatencyMetrics gp service duration ;;
               mret (inr ("request failed: " +:+ e),
                     [PublishLog "info" (method +:+ " " +:+ path +:+ " proxied to " +:+ service)
                        service (uuid env)] ++
                     [HttpDo req; PublishMetrics "request" service 0 (uuid env)])
           | UpstreamResponse statusCode respHeader (inr e) =>
               updateRequestMetrics gp service false (nowAt env 2) ;;
               mret (inr ("failed to read response: " +:+ e),
                     [PublishLog "info" (method +:+ " " +:+ path +:+ " proxied to " +:+ service)
                        service (uuid env)] ++ [HttpDo req])
           | UpstreamResponse statusCode respHeader (inl responseBody) =>
               (if isSuccess statusCode then mret tt
                else updateRequestMetrics gp service false (nowAt env 2)) ;;
               updateLatencyMetrics gp service duration ;;
               mret (inl (mkProxyResponse statusCode (decodeBody env responseBody)
                            (firstValues respHeader) duration),
                     [PublishLog "info" (method +:+ " " +:+ path +:+ " proxied to " +:+ service)
                        service (uuid env)] ++
                     [HttpDo req; PublishMetrics "request" service statusCode (uuid env)])
           end
       end) h =
      (updateRequestMetrics gp service true (nowAt env 1) ;;
       (if isFailed then updateRequestMetrics gp service false (nowAt env 2) else mret tt) ;;
       (if latency
        then updateLatencyMetrics gp service (Sub (finishedAt env) (nowAt env 0))
        else mret tt) ;;
       mret (res, events)) h /\
      failed res = isFailed /\
      res =
        match newRequestError env method (URL info +:+ path) with
        | Some e => inr ("failed to create request: " +:+ e)
        | None =>
            match upstream env
                    (mkRequest method (URL info +:+ path)
                       (outboundHeader headers (uuid env) userID
                          (formatRFC3339 env (nowAt env 0)) service) bodyBytes) with
            | UpstreamError e => inr ("request failed: " +:+ e)
            | UpstreamResponse statusCode respHeader (inr e) =>
                inr ("failed to read response: " +:+ e)
            | UpstreamResponse statusCode respHeader (inl responseBody) =>
                inl (mkProxyResponse statusCode (decodeBody env responseBody)
                       (firstValues respHeader)
                       (Sub (finishedAt env) (nowAt env 0)))
            end
        end /\
      networkCalls events =
        match newRequestError env method (URL info +:+ path) with
        | Some _ => []
        | None =>
            [mkRequest method (URL info +:+ path)
               (outboundHeader headers (uuid env) userID
                  (formatRFC3339 env (nowAt env 0)) service) bodyBytes]
        end).
  { intros bodyBytes.
    destruct (newRequestError env method (URL info +:+ path)) as [e|].
    { eexists _, _, true, false. split; [reflexivity|]. split; [reflexivity|]. split; reflexivity. }
    cbv zeta.
    destruct (upstream env _) as [e|statusCode respHeader [responseBody|e]].
    - eexists _, _, true, true. split; [reflexivity|]. split; [reflexivity|]. split; reflexivity.
    - destruct (isSuccess statusCode) eqn:Hok.
      + eexists _, _, false, true. split; [reflexivity|]. split; [|split; reflexivity].
        simpl. rewrite Hok. reflexivity.
      + eexists _, _, true, true. split; [reflexivity|]. split; [|split; reflexivity].
        simpl. rewrite Hok. reflexivity.
    - eexists _, _, true, false. split; [reflexivity|]. split; [reflexivity|]. split; reflexivity. }
  destruct body as [[b|e]|].
  - apply (Hsend b).
  - eexists _, _, true, false. split; [reflexivity|]. split; [reflexivity|]. split; reflexivity.
  - apply (Hsend "").
Qed.

(** What a call of [ProxyRequest] does in a well-formed state: it returns,
    and a reader of the metrics sees the call counted. *)
Lemma ProxyRequest_ok gp service path method body headers userID env (h : heap) v :
  wellFormed gp h -> view h (metrics gp) = Some v ->
  exists res events h' v',
    ProxyRequest gp service path method body headers userID env h =
      Some ((res, events), h') /\
    wellFormed gp h' /\ view h' (metrics gp) = Some v' /\
    counters v' =
      (if failed res then count false (count true (counters v))
       else count true (counters v)) /\
    serviceCounters <$> (vServiceMetrics v' !! service) =
      (fun c => if failed res then count false (count true c) else count true c) <$>
        (serviceCounters <$> (vServiceMetrics v !! service)) /\
    vHealthStats v' = vHealthStats v /\
    res =
      match services gp !! service with
      | None => inr ("service " +:+ service +:+ " not found")
      | Some info =>
          match body with
          | Some (inr e) => inr ("failed to read request body: " +:+ e)
          | _ =>
              match newRequestError env method (URL info +:+ path) with
              | Some e => inr ("failed to create request: " +:+ e)
              | None =>
                  match upstream env
                          (mkRequest method (URL info +:+ path)
                             (outboundHeader headers (uuid env) userID
                                (formatRFC3339 env (nowAt env 0)) service)
                             match body with Some (inl b) => b | _ => "" end) with
                  | UpstreamError e => inr ("request failed: " +:+ e)
                  | UpstreamResponse statusCode respHeader (inr e) =>
                      inr ("failed to read response: " +:+ e)
                  | UpstreamResponse statusCode respHeader (inl responseBody) =>
                      inl (mkProxyResponse statusCode (decodeBody env responseBody)
                             (firstValues respHeader)
                             (Sub (finishedAt env) (nowAt env 0)))
                  end
              end
          end
      end /\
    networkCalls events =
      match services gp !! service with
      | None => []
      | Some info =>
          match body with
          | Some (inr _) => []
          | _ =>
              match newRequestError env method (URL info +:+ path) with
              | Some _ => []
              | None =>
                  [mkRequest method (URL info +:+ path)
                     (outboundHeader headers (uuid env) userID
                        (formatRFC3339 env (nowAt env 0)) service)
                     match body with Some (inl b) => b | _ => "" end]
              end
          end
      end.
Proof.
  intros Hwf Hv.
  destruct (ProxyRequest_shape gp service path method body headers userID env h)
    as (res & events & isFailed & latency & Hrun & Hfailed & Hres & Hcalls).
  rewrite Hrun. clear Hrun. subst isFailed. exists res, events.
  generalize (failed res). intros isFailed.
  destruct (updateRequestMetrics_view gp service true (nowAt env 1) h v Hwf Hv)
    as (h1 & v1 & Hrun1 & Hwf1 & Hv1 & Hc1 & Hs1 & Hh1 & _).
  rewrite (bind_Some _ _ _ _ _ Hrun1).
  assert (Hstep2 : exists h2 v2,
            (if isFailed then updateRequestMetrics gp service false (nowAt env 2)
             else mret tt) h1 = Some (tt, h2) /\
            wellFormed gp h2 /\ view h2 (metrics gp) = Some v2 /\
            counters v2 = (if isFailed then count false (counters v1) else counters v1) /\
            serviceCounters <$> (vServiceMetrics v2 !! service) =
              (fun c => if isFailed then count false c else c) <$>
                (serviceCounters <$> (vServiceMetrics v1 !! service)) /\
            vHealthStats v2 = vHealthStats v1).
  { destruct isFailed.
    - destruct (updateRequestMetrics_view gp service false (nowAt env 2) h1 v1 Hwf1 Hv1)
        as (h2 & v2 & Hrun2 & Hwf2 & Hv2 & Hc2 & Hs2 & Hh2 & _).
      exists h2, v2. auto 10.
    - exists h1, v1. split; [reflexivity|]. split; [exact Hwf1|]. split; [exact Hv1|].
      split; [reflexivity|]. split; [|reflexivity].
      destruct (vServiceMetrics v1 !! service); reflexivity. }
  destruct Hstep2 as (h2 & v2 & Hrun2 & Hwf2 & Hv2 & Hc2 & Hs2 & Hh2).
  rewrite (bind_Some _ _ _ _ _ Hrun2).
  assert (Hstep3 : exists h3 v3,
            (if latency
             then updateLatencyMetrics gp service (Sub (finishedAt env) (nowAt env 0))
             else mret tt) h2 = Some (tt, h3) /\
            wellFormed gp h3 /\ view h3 (metrics gp) = Some v3 /\
            counters v3 = counters v2 /\
            serviceCounters <$> (vServiceMetrics v3 !! service) =
              serviceCounters <$> (vServiceMetrics v2 !! service) /\
            vHealthStats v3 = vHealthStats v2).
  { destruct latency.
    - destruct (updateLatencyMetrics_view gp service (Sub (finishedAt env) (nowAt env 0))
                  h2 v2 Hwf2 Hv2)
        as (h3 & v3 & Hrun3 & Hwf3 & Hv3 & Hc3 & Hs3 & Hh3 & _).
      exists h3, v3. auto 10.
    - exists h2, v2. auto 10. }
  destruct Hstep3 as (h3 & v3 & Hrun3 & Hwf3 & Hv3 & Hc3 & Hs3 & Hh3).
  rewrite (bind_Some _ _ _ _ _ Hrun3).
  exists h3, v3. split; [reflexivity|]. split; [exact Hwf3|]. split; [exact Hv3|].
  split; [|split; [|split; [congruence | split; [exact Hres | exact Hcalls]]]].
  - rewrite Hc3, Hc2, Hc1. destruct isFailed; reflexivity.
  - rewrite Hs3, Hs2, Hs1.
    destruct (vServiceMetrics v !! service); simpl; destruct isFailed; reflexivity.
Qed.

Lemma reachable_view gp (h : heap) :
  reachable gp h -> wellFormed gp h /\ exists v, view h (metrics gp) = Some v.
Proof.
  intros Hr. destruct (reachable_ok gp h Hr) as [Hwf _].
  split; [exact Hwf|]. destruct (view_wellFormed gp h Hwf) as [v Hv]. eauto.
Qed.

End ProxyRequestFacts.

Module ProxyTheorems.
Import GoInt Float64 Clock Http Processor ProcessorFacts Handler HandlerFacts Routes.
Import ProxyFacts ProxyRequestFacts.

(** X12: in every state the processor gets into, a call of [ProxyRequest]
    returns, and is counted by what it ends in: the success counts and the
    totals go up by one for every call; a call that fails (an error, or a
    status outside [200, 400)) is counted once more, as an error, total and
    error count going up by one again.  This holds for the counters of the
    gateway and, when the service has metrics, for those of the service. *)
Theorem ProxyRequest_counts_every_call gp h service path method body headers userID env :
  reachable gp h ->
  exists res events h' v v',
    ProxyRequest gp service path method body headers userID env h =
      Some ((res, events), h') /\
    view h (metrics gp) = Some v /\ view h' (metrics gp) = Some v' /\
    counters v' =
      (if failed res then count false (count true (counters v))
       else count true (counters v)) /\
    serviceCounters <$> (vServiceMetrics v' !! service) =
      (fun c => if failed res then count false (count true c) else count true c) <$>
        (serviceCounters <$> (vServiceMetrics v !! service)).
Proof.
  intros Hr. destruct (reachable_view gp h Hr) as (Hwf & v & Hv).
  destruct (ProxyRequest_ok gp service path method body headers userID env h v Hwf Hv)
    as (res & events & h' & v' & Hrun & _ & Hv' & Hc & Hs & _).
  exists res, events, h', v, v'. auto.
Qed.

Lemma ProxyRequest_counts_every_call_witness :
  exists res events h' v v',
    ProxyRequest example_gp "echo" "/" "GET" None ∅ "u1" (example_env 404) example_heap =
      Some ((res, events), h') /\
    view example_heap (metrics example_gp) = Some v /\
    view h' (metrics example_gp) = Some v' /\
    counters v' =
      (if failed res then count false (count true (counters v))
       else count true (counters v)) /\
    serviceCounters <$> (vServiceMetrics v' !! "echo") =
      (fun c => if failed res then count false (count true c) else count true c) <$>
        (serviceCounters <$> (vServiceMetrics v !! "echo")).
Proof.
  apply (ProxyRequest_counts_every_call example_gp example_heap "echo" "/" "GET" None ∅ "u1"
           (example_env 404)).
  exists 0, example_registry, [], example_heap. split; vm_compute; reflexivity.
Defined.



End ProxyTheorems.

(** ** The handlers *)

Module RoutesFacts.
Import GoInt Float64 Clock Http Processor ProcessorFacts Handler HandlerFacts Routes.
Import ProxyFacts ProxyRequestFacts.

Lemma prefix_app p : forall rest, String.prefix p (p +:+ rest) = true.
Proof.
  induction p as [|a p IH]; intros rest.
  - destruct rest; reflexivity.
  - change (String a p +:+ rest) with (String a (p +:+ rest)). simpl.
    destruct (ascii_dec a a) as [_|N]; [apply IH | congruence].
Qed.

Lemma length_append p : forall rest,
  String.length (p +:+ rest) = (String.length p + String.length rest)%nat.
Proof.
  induction p as [|a p IH]; intros rest; [reflexivity|].
  change (String a p +:+ rest) with (String a (p +:+ rest)). simpl. rewrite IH. reflexivity.
Qed.

Lemma substring_all : forall s, substring 0 (String.length s) s = s.
Proof. induction s as [|a s IH]; [reflexivity|]. simpl. rewrite IH. reflexivity. Qed.

Lemma substring_skip p : forall rest n,
  substring (String.length p) n (p +:+ rest) = substring 0 n rest.
Proof.
  induction p as [|a p IH]; intros rest n; [reflexivity|].
  change (String a p +:+ rest) with (String a (p +:+ rest)). simpl. apply IH.
Qed.

(** [TrimPrefix] takes a prefix off. *)
Lemma TrimPrefix_app p rest : TrimPrefix (p +:+ rest) p = rest.
Proof.
  unfold TrimPrefix. rewrite prefix_app, length_append, substring_skip.
  replace (String.length p + String.length rest - String.length p)%nat
    with (String.length rest) by lia.
  apply substring_all.
Qed.

(** A handler that forwards hands [WriteHeader] the status of the response,
    or 502 for an error; a status [WriteHeader] takes is written as it is. *)
Lemma WriteHeader_valid code : 100 <= code <= 999 -> WriteHeader code = Wrote code.
Proof.
  intros H. unfold WriteHeader.
  destruct (Z.ltb_spec code 100); [lia|]. destruct (Z.ltb_spec 999 code); [lia|]. reflexivity.
Qed.

Lemma WriteHeader_invalid code :
  code < 100 \/ 999 < code -> WriteHeader code = WriteHeaderPanic code.
Proof.
  intros H. unfold WriteHeader.
  destruct (Z.ltb_spec code 100); [reflexivity|].
  destruct (Z.ltb_spec 999 code); [reflexivity|lia].
Qed.

Lemma Proxy_status gp service r env (h : heap) res events h' :
  String.eqb service "" = false ->
  ProxyRequest gp service
      (if String.eqb (TrimPrefix (reqPath r) ("/api/proxy/" +:+ service)) "" then "/"
       else TrimPrefix (reqPath r) ("/api/proxy/" +:+ service))
      (reqMethod r) (reqBody r) (extractHeaders r) (getUserID r) env h =
    Some ((res, events), h') ->
  Proxy gp service r env h =
    Some ((WriteHeader match res with inr _ => 502 | inl resp => StatusCode resp end,
           events), h').
Proof.
  intros Hs Hrun. unfold Proxy. rewrite Hs.
  rewrite (bind_Some _ _ _ _ _ Hrun). destruct res; reflexivity.
Qed.

Lemma ProxyToService_status gp serviceName r env (h : heap) res events h' :
  ProxyRequest gp serviceName (TrimPrefix (reqPath r) "/api")
      (reqMethod r) (reqBody r) (extractHeaders r) (getUserID r) env h =
    Some ((res, events), h') ->
  ProxyToService gp serviceName r env h =
    Some ((WriteHeader match res with inr _ => 502 | inl resp => StatusCode resp end,
           events), h').
Proof.
  intros Hrun. unfold ProxyToService.
  rewrite (bind_Some _ _ _ _ _ Hrun). destruct res; reflexivity.
Qed.

Lemma outboundHeader_user headers requestID userID timestamp service :
  outboundHeader headers requestID userID timestamp service !! "X-User-Id" = Some userID.
Proof.
  unfold outboundHeader, Set_.
  change (CanonicalMIMEHeaderKey "X-Service-Name") with "X-Service-Name".
  change (CanonicalMIMEHeaderKey "X-Gateway-Timestamp") with "X-Gateway-Timestamp".
  change (CanonicalMIMEHeaderKey "X-User-ID") with "X-User-Id".
  rewrite lookup_insert_ne by discriminate.
  rewrite lookup_insert_ne by discriminate.
  apply lookup_insert_eq.
Qed.

End RoutesFacts.

Module RoutesTheorems.
Import GoInt Float64 Clock Http Processor ProcessorFacts Handler HandlerFacts Routes.
Import ProxyFacts ProxyRequestFacts RoutesFacts.

(** X14: in every state the processor gets into, [Proxy] forwards a request
    for [/api/proxy/<service><rest>], the service being registered, to the
    URL of the service followed by [rest] ([/] when [rest] is empty), with
    the method and body it came with; and when the upstream answers,
    [Proxy] hands the status of the answer to [WriteHeader]: a status from
    100 to 999 is written as it is, and on any other [WriteHeader] panics,
    the call to the upstream having been made. *)
Theorem Proxy_forwards_path_and_status gp h service info r env rest statusCode respHeader
    responseBody :
  let req := mkRequest (reqMethod r)
               (URL info +:+ (if String.eqb rest "" then "/" else rest))
               (outboundHeader (extractHeaders r) (uuid env) (getUserID r)
                  (formatRFC3339 env (nowAt env 0)) service)
               match reqBody r with Some (inl b) => b | _ => "" end in
  reachable gp h ->
  service <> "" ->
  services gp !! service = Some info ->
  reqPath r = "/api/proxy/" +:+ service +:+ rest ->
  (forall e, reqBody r <> Some (inr e)) ->
  newRequestError env (reqMethod r)
    (URL info +:+ (if String.eqb rest "" then "/" else rest)) = None ->
  upstream env req = UpstreamResponse statusCode respHeader (inl responseBody) ->
  exists events h',
    networkCalls events = [req] /\
    (100 <= statusCode <= 999 ->
     Proxy gp service r env h = Some ((Wrote statusCode, events), h')) /\
    (statusCode < 100 \/ 999 < statusCode ->
     Proxy gp service r env h = Some ((WriteHeaderPanic statusCode, events), h')).
Proof.
  intros req Hr Hne Hinfo Hpath Hbody Hbuild Hup.
  destruct (reachable_view gp h Hr) as (Hwf & v & Hv).
  assert (Htrim : TrimPrefix (reqPath r) ("/api/proxy/" +:+ service) = rest).
  { rewrite Hpath.
    change ("/api/proxy/" +:+ service +:+ rest) with (("/api/proxy/" +:+ service) +:+ rest).
    apply TrimPrefix_app. }
  destruct (ProxyRequest_ok gp service (if String.eqb rest "" then "/" else rest)
              (reqMethod r) (reqBody r) (extractHeaders r) (getUserID r) env h v Hwf Hv)
    as (res & events & h' & v' & Hrun & _ & _ & _ & _ & _ & Hres & Hcalls).
  rewrite Hinfo, Hbuild in Hres, Hcalls.
  assert (Hres' : res = inl (mkProxyResponse statusCode (decodeBody env responseBody)
                               (firstValues respHeader)
                               (Sub (finishedAt env) (nowAt env 0))) /\
                  networkCalls events = [req]).
  { fold req in Hres, Hcalls.
    destruct (reqBody r) as [[b|e]|] eqn:Hb.
    - rewrite Hup in Hres. auto.
    - exfalso. apply (Hbody e). reflexivity.
    - rewrite Hup in Hres. auto. }
  destruct Hres' as [-> Hcalls'].
  exists events, h'. split; [exact Hcalls'|].
  apply String.eqb_neq in Hne.
  rewrite <- Htrim in Hrun.
  rewrite (Proxy_status gp service r env h _ events h' Hne Hrun). simpl StatusCode.
  split; intros Hcode.
  - rewrite (WriteHeader_valid _ Hcode). reflexivity.
  - rewrite (WriteHeader_invalid _ Hcode). reflexivity.
Qed.

Lemma Proxy_forwards_path_and_status_witness :
  let r := mkHttpRequest "GET" "/api/proxy/echo/items/7" ∅ None (Some "u1") in
  exists events h',
    networkCalls events =
      [mkRequest "GET" "http://echo:8080/items/7"
         (outboundHeader (extractHeaders r) (uuid (example_env 503)) (getUserID r)
            "2024-05-01T10:00:00Z" "echo") ""] /\
    Proxy example_gp "echo" r (example_env 503) example_heap =
      Some ((Wrote 503, events), h').
Proof.
  intros r.
  destruct (Proxy_forwards_path_and_status example_gp example_heap "echo" example_info r
              (example_env 503) "/items/7" 503 ∅ "")
    as (events & h' & Hcalls & Hvalid & _).
  - exists 0, example_registry, [], example_heap. split; vm_compute; reflexivity.
  - discriminate.
  - vm_compute. reflexivity.
  - reflexivity.
  - intros e. discriminate.
  - reflexivity.
  - reflexivity.
  - exists events, h'. split; [exact Hcalls|]. apply Hvalid. lia.
Defined.

(** X15: in every state the processor gets into, [Proxy] answers 400
    without touching anything when the route names no service, and 502
    when the service is not registered (no call being made) or when the
    call to the upstream fails. *)
Theorem Proxy_answers_errors gp h service r env :
  reachable gp h ->
  (service = "" -> Proxy gp service r env h = Some ((Wrote 400, []), h)) /\
  (service <> "" -> services gp !! service = None ->
   exists events h',
     Proxy gp service r env h = Some ((Wrote 502, events), h') /\
     networkCalls events = []) /\
  (forall info e,
     service <> "" -> services gp !! service = Some info ->
     (forall e', reqBody r <> Some (inr e')) ->
     let path := if String.eqb (TrimPrefix (reqPath r) ("/api/proxy/" +:+ service)) ""
                 then "/" else TrimPrefix (reqPath r) ("/api/proxy/" +:+ service) in
     let req := mkRequest (reqMethod r) (URL info +:+ path)
                  (outboundHeader (extractHeaders r) (uuid env) (getUserID r)
                     (formatRFC3339 env (nowAt env 0)) service)
                  match reqBody r with Some (inl b) => b | _ => "" end in
     newRequestError env (reqMethod r) (URL info +:+ path) = None ->
     upstream env req = UpstreamError e ->
     exists events h',
       Proxy gp service r env h = Some ((Wrote 502, events), h') /\
       networkCalls events = [req]).
Proof.
  intros Hr. destruct (reachable_view gp h Hr) as (Hwf & v & Hv).
  split; [|split].
  - intros ->. reflexivity.
  - intros Hne Hnone.
    destruct (ProxyRequest_ok gp service
                (if String.eqb (TrimPrefix (reqPath r) ("/api/proxy/" +:+ service)) ""
                 then "/" else TrimPrefix (reqPath r) ("/api/proxy/" +:+ service))
                (reqMethod r) (reqBody r) (extractHeaders r) (getUserID r) env h v Hwf Hv)
      as (res & events & h' & v' & Hrun & _ & _ & _ & _ & _ & Hres & Hcalls).
    rewrite Hnone in Hres, Hcalls. subst res.
    exists events, h'. split; [|exact Hcalls].
    apply String.eqb_neq in Hne.
    rewrite (Proxy_status gp service r env h _ events h' Hne Hrun). reflexivity.
  - intros info e Hne Hinfo Hbody path req Hbuild Hup.
    destruct (ProxyRequest_ok gp service path
                (reqMethod r) (reqBody r) (extractHeaders r) (getUserID r) env h v Hwf Hv)
      as (res & events & h' & v' & Hrun & _ & _ & _ & _ & _ & Hres & Hcalls).
    rewrite Hinfo, Hbuild in Hres, Hcalls. fold req in Hres, Hcalls.
    assert (Hres' : res = inr ("request failed: " +:+ e) /\ networkCalls events = [req]).
    { destruct (reqBody r) as [[b|e']|] eqn:Hb.
      - rewrite Hup in Hres. auto.
      - exfalso. apply (Hbody e'). reflexivity.
      - rewrite Hup in Hres. auto. }
    destruct Hres' as [-> Hcalls'].
    exists events, h'. split; [|exact Hcalls'].
    apply String.eqb_neq in Hne.
    rewrite (Proxy_status gp service r env h _ events h' Hne Hrun). reflexivity.
Qed.

Lemma Proxy_answers_errors_witness :
  let r := mkHttpRequest "GET" "/api/proxy/ghost/items" ∅ None None in
  Proxy example_gp "" r (example_env 200) example_heap =
    Some ((Wrote 400, []), example_heap) /\
  exists events h',
    Proxy example_gp "ghost" r (example_env 200) example_heap =
      Some ((Wrote 502, events), h') /\
    networkCalls events = [].
Proof.
  intros r.
  assert (Hr : reachable example_gp example_heap).
  { exists 0, example_registry, [], example_heap. split; vm_compute; reflexivity. }
  split.
  - apply (Proxy_answers_errors example_gp example_heap "" r (example_env 200) Hr).
    reflexivity.
  - apply (Proxy_answers_errors example_gp example_heap "ghost" r (example_env 200) Hr).
    + discriminate.
    + vm_compute. reflexivity.
Defined.

(** X16: in every state the processor gets into, the handler
    [ProxyToService] makes for a registered service forwards a request for
    [/api<rest>] to the URL of the service followed by [rest], with the
    method and body it came with, and hands the status the upstream
    answers with to [WriteHeader]: a status from 100 to 999 is written as
    it is, and on any other [WriteHeader] panics, the call to the upstream
    having been made. *)
Theorem ProxyToService_forwards gp h serviceName info r env rest statusCode respHeader
    responseBody :
  let req := mkRequest (reqMethod r) (URL info +:+ rest)
               (outboundHeader (extractHeaders r) (uuid env) (getUserID r)
                  (formatRFC3339 env (nowAt env 0)) serviceName)
               match reqBody r with Some (inl b) => b | _ => "" end in
  reachable gp h ->
  services gp !! serviceName = Some info ->
  reqPath r = "/api" +:+ rest ->
  (forall e, reqBody r <> Some (inr e)) ->
  newRequestError env (reqMethod r) (URL info +:+ rest) = None ->
  upstream env req = UpstreamResponse statusCode respHeader (inl responseBody) ->
  exists events h',
    networkCalls events = [req] /\
    (100 <= statusCode <= 999 ->
     ProxyToService gp serviceName r env h = Some ((Wrote statusCode, events), h')) /\
    (statusCode < 100 \/ 999 < statusCode ->
     ProxyToService gp serviceName r env h =
       Some ((WriteHeaderPanic statusCode, events), h')).
Proof.
  intros req Hr Hinfo Hpath Hbody Hbuild Hup.
  destruct (reachable_view gp h Hr) as (Hwf & v & Hv).
  assert (Htrim : TrimPrefix (reqPath r) "/api" = rest).
  { rewrite Hpath. apply TrimPrefix_app. }
  destruct (ProxyRequest_ok gp serviceName rest
              (reqMethod r) (reqBody r) (extractHeaders r) (getUserID r) env h v Hwf Hv)
    as (res & events & h' & v' & Hrun & _ & _ & _ & _ & _ & Hres & Hcalls).
  rewrite Hinfo, Hbuild in Hres, Hcalls.
  assert (Hres' : res = inl (mkProxyResponse statusCode (decodeBody env responseBody)
                               (firstValues respHeader)
                               (Sub (finishedAt env) (nowAt env 0))) /\
                  networkCalls events = [req]).
  { fold req in Hres, Hcalls.
    destruct (reqBody r) as [[b|e]|] eqn:Hb.
    - rewrite Hup in Hres. auto.
    - exfalso. apply (Hbody e). reflexivity.
    - rewrite Hup in Hres. auto. }
  destruct Hres' as [-> Hcalls'].
  exists events, h'. split; [exact Hcalls'|].
  rewrite <- Htrim in Hrun.
  rewrite (ProxyToService_status gp serviceName r env h _ events h' Hrun). simpl StatusCode.
  split; intros Hcode.
  - rewrite (WriteHeader_valid _ Hcode). reflexivity.
  - rewrite (WriteHeader_invalid _ Hcode). reflexivity.
Qed.

Lemma ProxyToService_forwards_witness :
  let r := mkHttpRequest "PUT" "/api/devices/42" ∅ (Some (inl "{}")) (Some "u1") in
  exists events h',
    networkCalls events =
      [mkRequest "PUT" "http://echo:8080/devices/42"
         (outboundHeader (extractHeaders r) (uuid (example_env 204)) (getUserID r)
            "2024-05-01T10:00:00Z" "echo") "{}"] /\
    ProxyToService example_gp "echo" r (example_env 204) example_heap =
      Some ((Wrote 204, events), h').
Proof.
  intros r.
  destruct (ProxyToService_forwards example_gp example_heap "echo" example_info r
              (example_env 204) "/devices/42" 204 ∅ "")
    as (events & h' & Hcalls & Hvalid & _).
  - exists 0, example_registry, [], example_heap. split; vm_compute; reflexivity.
  - vm_compute. reflexivity.
  - reflexivity.
  - intros e. discriminate.
  - reflexivity.
  - reflexivity.
  - exists events, h'. split; [exact Hcalls|]. apply Hvalid. lia.
Defined.

(** X17: the identity sent upstream is the caller's to choose: when the
    inbound request carries a non-empty [X-User-ID] header, every request
    [Proxy] hands to the HTTP client carries that value as [X-User-Id],
    whatever user id the authentication left in the context. *)
Theorem caller_header_overrides_user_id gp h service r env claimed :
  reachable gp h ->
  Get (reqHeader r) "X-User-ID" = claimed -> claimed <> "" ->
  getUserID r = claimed /\
  exists status events h',
    Proxy gp service r env h = Some ((status, events), h') /\
    forall req, req ∈ networkCalls events -> Header req !! "X-User-Id" = Some claimed.
Proof.
  intros Hr Hget Hne.
  assert (Hid : getUserID r = claimed).
  { unfold getUserID. rewrite Hget. apply String.eqb_neq in Hne. rewrite Hne. reflexivity. }
  split; [exact Hid|].
  destruct (reachable_view gp h Hr) as (Hwf & v & Hv).
  destruct (String.eqb service "") eqn:Hs.
  - exists (Wrote 400), [], h. unfold Proxy. rewrite Hs. split; [reflexivity|].
    intros req Hin. apply elem_of_nil in Hin. destruct Hin.
  - destruct (ProxyRequest_ok gp service
                (if String.eqb (TrimPrefix (reqPath r) ("/api/proxy/" +:+ service)) ""
                 then "/" else TrimPrefix (reqPath r) ("/api/proxy/" +:+ service))
                (reqMethod r) (reqBody r) (extractHeaders r) (getUserID r) env h v Hwf Hv)
      as (res & events & h' & v' & Hrun & _).
    eexists _, events, h'. split; [apply (Proxy_status _ _ _ _ _ _ _ _ Hs Hrun)|].
    intros req Hin.
    rewrite (ProxyRequest_calls _ _ _ _ _ _ _ _ _ _ _ _ Hrun req Hin), Hid.
    apply outboundHeader_user.
Qed.

Lemma caller_header_overrides_user_id_witness :
  let r := mkHttpRequest "GET" "/api/proxy/echo/items" {[ "X-User-Id" := ["admin"] ]}
             None (Some "u1") in
  getUserID r = "admin" /\
  exists status events h',
    Proxy example_gp "echo" r (example_env 200) example_heap = Some ((status, events), h') /\
    forall req, req ∈ networkCalls events -> Header req !! "X-User-Id" = Some "admin".
Proof.
  intros r.
  apply (caller_header_overrides_user_id example_gp example_heap "echo" r (example_env 200)
           "admin").
  - exists 0, example_registry, [], example_heap. split; vm_compute; reflexivity.
  - reflexivity.
  - discriminate.
Defined.

(** X18: in every state the processor gets into, the handler
    [CheckServiceHealth] answers 400 when the route names no service and
    404 when the service is not registered, the state staying as it was;
    for a registered service it answers 200 once the probe was sent,
    healthy or not, the result being stored; and 404, "service not found",
    when the request of the probe could not be built, nothing being
    stored. *)
Theorem CheckServiceHealth_statuses gp h service p :
  reachable gp h ->
  (service = "" -> CheckServiceHealth gp service p h = Some (400, h)) /\
  (service <> "" -> services gp !! service = None ->
   CheckServiceHealth gp service p h = Some (404, h)) /\
  (forall info reply,
     service <> "" -> services gp !! service = Some info -> outcome p = Sent reply ->
     exists h',
       CheckServiceHealth gp service p h = Some (200, h') /\
       storedHealth gp h' service = Some (probeResult service info p reply)) /\
  (forall info e,
     service <> "" -> services gp !! service = Some info -> outcome p = BuildError e ->
     CheckServiceHealth gp service p h = Some (404, h)).
Proof.
  intros Hr. destruct (reachable_ok gp h Hr) as [Hwf _].
  split; [|split; [|split]].
  - intros ->. reflexivity.
  - intros Hne Hnone. apply String.eqb_neq in Hne.
    unfold CheckServiceHealth, Processor.CheckServiceHealth. rewrite Hne, Hnone. reflexivity.
  - intros info reply Hne Hinfo Hout. apply String.eqb_neq in Hne.
    destruct (performHealthCheck_sent gp service info p reply h Hwf Hout)
      as (h' & Hrun & _ & _ & _ & _ & Hst & _).
    exists h'. split; [|exact Hst].
    unfold CheckServiceHealth, Processor.CheckServiceHealth. rewrite Hne, Hinfo.
    rewrite (bind_Some _ _ _ _ _ Hrun). reflexivity.
  - intros info e Hne Hinfo Hout. apply String.eqb_neq in Hne.
    unfold CheckServiceHealth, Processor.CheckServiceHealth. rewrite Hne, Hinfo.
    rewrite (bind_Some _ _ _ _ _ (performHealthCheck_build_error gp service info p e h Hout)).
    reflexivity.
Qed.

Lemma CheckServiceHealth_statuses_witness :
  exists h',
    CheckServiceHealth example_gp "echo" (mkProbe (Sent (TransportError "refused")) 1000 5)
      example_heap = Some (200, h') /\
    storedHealth example_gp h' "echo" =
      Some (probeResult "echo" example_info
              (mkProbe (Sent (TransportError "refused")) 1000 5) (TransportError "refused")).
Proof.
  assert (Hr : reachable example_gp example_heap).
  { exists 0, example_registry, [], example_heap. split; vm_compute; reflexivity. }
  apply (CheckServiceHealth_statuses example_gp example_heap "echo"
           (mkProbe (Sent (TransportError "refused")) 1000 5) Hr).
  - discriminate.
  - vm_compute. reflexivity.
  - reflexivity.
Defined.

End RoutesTheorems.

(** ** Setting up, and the status of the services *)

Module StartFacts.
Import GoInt Float64 Clock Http Processor ProcessorFacts Routes ProxyFacts ConfigFacts.

(** Entering the entries of a map one after the other gives the map. *)
Lemma foldl_insert_map_to_list {A B} (f : A -> B) (m : gmap string A) :
  foldl (fun acc kv => <[kv.1 := f kv.2]> acc) ∅ (map_to_list m) = f <$> m.
Proof.
  rewrite <- (foldl_fmap (fun acc (kv : string * B) => <[kv.1 := kv.2]> acc) ∅
                (map_to_list m) (prod_map id f)).
  rewrite foldl_insert, (right_id_L ∅ (∪)).
  rewrite (list_to_map_proper _ (prod_map id f <$> map_to_list m)).
  - rewrite list_to_map_fmap, list_to_map_to_list. reflexivity.
  - rewrite reverse_Permutation, <- list_fmap_compose.
    rewrite (list_fmap_ext _ fst (map_to_list m)) by (intros ? [? ?]; reflexivity).
    apply NoDup_fst_map_to_list.
  - apply reverse_Permutation.
Qed.

(** One turn of the loop of [Start], as a reader of the metrics sees it. *)
Lemma register_view gp name info (h : heap) v :
  wellFormed gp h -> view h (metrics gp) = Some v ->
  exists h' v',
    register gp name info h =
      Some (mkProcessor (<[name := info]> (services gp)) (healthStats gp) (metrics gp), h') /\
    wellFormed gp h' /\ view h' (metrics gp) = Some v' /\
    counters v' = counters v /\ vStartTime v' = vStartTime v /\
    vAverageLatency v' = vAverageLatency v /\
    vHealthStats v' = vHealthStats v /\
    vServiceMetrics v' = <[name := mkServiceMetrics 0 0 0 zero 0]> (vServiceMetrics v) /\
    (forall s, storedHealth gp h' s = storedHealth gp h s).
Proof.
  intros Hwf Hv. pose proof Hwf as (Hh & _ & Hs).
  destruct (view_Some gp h v Hv) as (g & sm & hm & Hg & Hsm & Hhm & ->).
  destruct (register_ok gp name info h Hwf) as (h' & Hrun & Hwf' & _).
  exists h'. eexists. split; [exact Hrun|]. split; [exact Hwf'|].
  set (c := length h).
  set (h1 := h ++ [ObjServiceMetrics (mkServiceMetrics 0 0 0 zero 0)]).
  assert (Hold : forall x o, h !! x = Some o -> h1 !! x = Some o).
  { intros x o Hx. unfold h1. rewrite lookup_app_l by (eapply lookup_lt_Some; exact Hx).
    exact Hx. }
  assert (Hc1 : h1 !! c = Some (ObjServiceMetrics (mkServiceMetrics 0 0 0 zero 0))).
  { unfold h1, c. rewrite lookup_app_r by lia. rewrite Nat.sub_diag. reflexivity. }
  pose proof (Hold _ _ Hsm) as Hsm1.
  set (h2 := <[ServiceMetricsMap g := ObjMetricsMap (<[name := c]> sm)]> h1).
  assert (Hrun2 : register gp name info h =
            Some (mkProcessor (<[name := info]> (services gp)) (healthStats gp) (metrics gp),
                  h2)).
  { unfold register.
    rewrite (bind_Some _ _ _ _ _ (readGatewayMetrics_Some _ _ _ Hg)).
    rewrite (bind_Some _ _ h c h1) by reflexivity.
    rewrite (bind_Some _ _ _ _ _ (putMetricsMap_Some _ _ _ _ _ Hsm1)).
    reflexivity. }
  rewrite Hrun2 in Hrun. injection Hrun as <-.
  assert (Hother : forall x o, h !! x = Some o -> tagOf o <> 2%nat -> h2 !! x = Some o).
  { intros x o Hx Ht. unfold h2.
    eapply lookup_insert_other_tag; [apply Hold; exact Hx | exact Hsm1 | exact Ht]. }
  assert (Hmap2 : h2 !! ServiceMetricsMap g = Some (ObjMetricsMap (<[name := c]> sm))).
  { unfold h2. apply list_lookup_insert_eq. eapply lookup_lt_Some. exact Hsm1. }
  assert (Hc2 : h2 !! c = Some (ObjServiceMetrics (mkServiceMetrics 0 0 0 zero 0))).
  { unfold h2. eapply lookup_insert_other_tag; [exact Hc1 | exact Hsm1 | discriminate]. }
  assert (Hat : forall x, healthAt h2 x = healthAt h x).
  { intros x. unfold h2.
    rewrite (healthAt_write h1 _ _ _ x Hsm1) by discriminate.
    destruct (decide (x < length h)%nat) as [Hlt|Hge].
    - apply healthAt_alloc. exact Hlt.
    - unfold healthAt. rewrite (lookup_ge_None_2 h x) by lia.
      destruct (decide (x = c)) as [->|Hne]; [rewrite Hc1; reflexivity|].
      rewrite (lookup_ge_None_2 h1 x); [reflexivity|].
      unfold h1. rewrite length_app. simpl. unfold c in Hne. lia. }
  split.
  { unfold view. rewrite (Hother _ _ Hg) by discriminate.
    rewrite Hmap2, (Hother _ _ Hhm) by discriminate. reflexivity. }
  split; [reflexivity|]. split; [reflexivity|]. split; [reflexivity|]. simpl.
  split; [|split].
  - apply map_eq. intros s. rewrite !lookup_omap.
    destruct (hm !! s); [apply Hat | reflexivity].
  - apply map_eq. intros s. rewrite lookup_omap.
    destruct (decide (s = name)) as [->|Hne].
    + rewrite !lookup_insert_eq.
      assert (Hsc : serviceAt h2 c = Some (mkServiceMetrics 0 0 0 zero 0))
        by (unfold serviceAt; rewrite Hc2; reflexivity).
      exact Hsc.
    + rewrite !lookup_insert_ne by congruence. rewrite lookup_omap.
      destruct (sm !! s) as [l|] eqn:Hl; [|reflexivity].
      pose proof (Hh _ _ Hsm) as Hok. simpl in Hok.
      destruct (Hok _ _ Hl) as (o & Ho & Ht).
      assert (Hsl : serviceAt h2 l = serviceAt h l).
      { unfold serviceAt. rewrite (Hother _ _ Ho) by (rewrite Ht; discriminate).
        rewrite Ho. reflexivity. }
      exact Hsl.
  - intros s. unfold storedHealth.
    destruct (holds_HealthMap _ _ Hs) as [hs Hhs].
    rewrite (Hother _ _ Hhs) by discriminate. rewrite Hhs.
    destruct (hs !! s); [apply Hat | reflexivity].
Qed.

Lemma registerAll_view : forall entries gp (h : heap) v,
  wellFormed gp h -> view h (metrics gp) = Some v ->
  exists gp' h' v',
    registerAll gp entries h = Some (gp', h') /\
    wellFormed gp' h' /\
    metrics gp' = metrics gp /\ healthStats gp' = healthStats gp /\
    services gp' = foldl (fun acc kv => <[kv.1 := kv.2]> acc) (services gp) entries /\
    view h' (metrics gp) = Some v' /\
    counters v' = counters v /\ vStartTime v' = vStartTime v /\
    vAverageLatency v' = vAverageLatency v /\
    vHealthStats v' = vHealthStats v /\
    vServiceMetrics v' =
      foldl (fun acc kv => <[kv.1 := (fun _ : ServiceInfo => mkServiceMetrics 0 0 0 zero 0) kv.2]> acc)
        (vServiceMetrics v) entries /\
    (forall s, storedHealth gp' h' s = storedHealth gp h s).
Proof.
  induction entries as [|[name info] rest IH]; intros gp h v Hwf Hv.
  - exists gp, h, v. split; [reflexivity|]. auto 15.
  - destruct (register_view gp name info h v Hwf Hv)
      as (h1 & v1 & Hrun1 & Hwf1 & Hv1 & Hc1 & Ht1 & Ha1 & Hh1 & Hs1 & Hst1).
    set (gp1 := mkProcessor (<[name := info]> (services gp)) (healthStats gp) (metrics gp)) in *.
    destruct (IH gp1 h1 v1) as (gp' & h' & v' & Hrun & Hwf' & Hm & Hhs & Hsv & Hv' &
                                 Hc & Ht & Ha & Hh & Hs & Hst).
    { eapply wellFormed_services; [| |exact Hwf1]; reflexivity. }
    { exact Hv1. }
    exists gp', h', v'. split.
    { simpl registerAll. rewrite (bind_Some _ _ _ _ _ Hrun1). exact Hrun. }
    split; [exact Hwf'|]. split; [exact Hm|]. split; [exact Hhs|].
    split; [exact Hsv|]. split; [exact Hv'|].
    split; [congruence|]. split; [congruence|]. split; [congruence|]. split; [congruence|].
    split.
    + rewrite Hs, Hs1. reflexivity.
    + intros s. rewrite Hst. apply Hst1.
Qed.

End StartFacts.

Module StartTheorems.
Import GoInt Float64 Clock Http Processor ProcessorFacts Routes ProxyFacts StartFacts.

(** X19: [NewGatewayProcessor] followed by [Start] leaves the processor with
    the configured registry as its services, all counters at zero, the
    start time it was made at, metrics for exactly the configured services,
    each with zero counts, and no health result for any service. *)
Theorem Start_registers_configured_services startTime registry :
  exists gp h v,
    boot startTime registry [] = Some (gp, h) /\
    services gp = registry /\
    view h (metrics gp) = Some v /\
    counters v = (0, 0, 0) /\ vStartTime v = startTime /\
    vServiceMetrics v = (fun _ => mkServiceMetrics 0 0 0 zero 0) <$> registry /\
    vHealthStats v = ∅ /\
    forall service, storedHealth gp h service = None.
Proof.
  destruct (NewGatewayProcessor_ok startTime) as (gp0 & h0 & Hnew & Hwf0 & _ & Hsv0).
  assert (Hshape : gp0 = mkProcessor ∅ 0 3 /\
                   h0 = [ObjHealthMap ∅; ObjMetricsMap ∅; ObjHealthMap ∅;
                         ObjGatewayMetrics (mkGatewayMetrics 0 0 0 zero 1 2 startTime)]).
  { assert (E : NewGatewayProcessor startTime [] =
                  Some (mkProcessor ∅ 0 3,
                        [ObjHealthMap ∅; ObjMetricsMap ∅; ObjHealthMap ∅;
                         ObjGatewayMetrics (mkGatewayMetrics 0 0 0 zero 1 2 startTime)]))
      by reflexivity.
    rewrite E in Hnew. injection Hnew as <- <-. auto. }
  destruct Hshape as [-> ->].
  destruct (registerAll_view (map_to_list registry) (mkProcessor ∅ 0 3) _
              (mkView 0 0 0 zero startTime ∅ ∅) Hwf0)
    as (gp & h & v & Hrun & Hwf & Hm & Hhs & Hsv & Hv & Hc & Ht & Ha & Hh & Hs & Hst).
  { reflexivity. }
  exists gp, h, v. split.
  { unfold boot. rewrite (bind_Some _ _ _ _ _ Hnew). exact Hrun. }
  split.
  { rewrite Hsv. simpl services.
    rewrite (foldl_insert_map_to_list (fun x => x) registry). apply map_fmap_id. }
  rewrite Hm. split; [exact Hv|]. split; [exact Hc|]. split; [exact Ht|].
  split; [rewrite Hs; exact (foldl_insert_map_to_list
                              (fun _ : ServiceInfo => mkServiceMetrics 0 0 0 zero 0) registry)|].
  split; [exact Hh|].
  intros service. rewrite Hst. reflexivity.
Qed.

End StartTheorems.

Module StatusFacts.
Import GoInt Float64 Clock Http Processor ProcessorFacts Routes ProxyFacts.

(** The entry [GetServicesStatus] makes for a service it has no result
    of. *)
Lemma addUnknown_ok dst nowFor : forall names (h : heap) dm,
  heapOK h -> h !! dst = Some (ObjHealthMap dm) ->
  exists h' dm',
    addUnknown dst names nowFor h = Some (tt, h') /\
    heapOK h' /\ extends h h' /\
    h' !! dst = Some (ObjHealthMap dm') /\
    (forall x, (x < length h)%nat -> x <> dst -> h' !! x = h !! x) /\
    forall s,
      dm' !! s ≫= healthAt h' =
        match dm !! s ≫= healthAt h with
        | Some result => Some result
        | None =>
            if decide (s ∈ names)
            then Some (mkHealthCheckResult s "unknown" "" 0 "" (nowFor s))
            else None
        end.
Proof.
  induction names as [|service rest IH]; intros h dm Hh Hdst.
  - exists h, dm. split; [reflexivity|]. split; [exact Hh|]. split; [apply extends_refl|].
    split; [exact Hdst|]. split; [reflexivity|].
    intros s. destruct (dm !! s ≫= healthAt h); [reflexivity|].
    destruct (decide (s ∈ [])) as [Hin|_]; [apply elem_of_nil in Hin; destruct Hin|reflexivity].
  - assert (Hpresent : forall s l, dm !! s = Some l -> is_Some (healthAt h l)).
    { intros s l Hl. pose proof (Hh _ _ Hdst) as Hok. simpl in Hok.
      destruct (holds_Health _ _ (Hok _ _ Hl)) as [r Hr].
      exists r. apply healthAt_Some. exact Hr. }
    simpl addUnknown. rewrite (bind_Some _ _ _ _ _ (readHealthMap_Some _ _ _ Hdst)).
    destruct (dm !! service) as [l|] eqn:Hl.
    + destruct (IH h dm Hh Hdst) as (h' & dm' & Hrun & Hh' & E & Hdst' & Hfr & Hview).
      exists h', dm'. split; [exact Hrun|]. split; [exact Hh'|]. split; [exact E|].
      split; [exact Hdst'|]. split; [exact Hfr|].
      intros s. rewrite Hview.
      destruct (dm !! s ≫= healthAt h) as [r|] eqn:Hs; [reflexivity|].
      assert (Hne : s <> service).
      { intros ->. rewrite Hl in Hs. simpl in Hs.
        destruct (Hpresent _ _ Hl) as [r Hr]. congruence. }
      destruct (decide (s ∈ rest)) as [Hin|Hnin];
        destruct (decide (s ∈ service :: rest)) as [Hin'|Hnin']; try reflexivity.
      * exfalso. apply Hnin'. apply elem_of_cons. right. exact Hin.
      * exfalso. apply elem_of_cons in Hin' as [->|Hin']; [congruence | apply Hnin; exact Hin'].
    + set (unknown := mkHealthCheckResult service "unknown" "" 0 "" (nowFor service)).
      set (c := length h).
      set (h1 := h ++ [ObjHealth unknown]).
      assert (E1 : extends h h1) by apply extends_alloc.
      assert (Hh1 : heapOK h1) by (apply heapOK_alloc; [exact Hh | exact I]).
      assert (Hc1 : h1 !! c = Some (ObjHealth unknown)).
      { unfold h1, c. rewrite lookup_app_r by lia. rewrite Nat.sub_diag. reflexivity. }
      assert (Hdst1 : h1 !! dst = Some (ObjHealthMap dm)).
      { unfold h1. rewrite lookup_app_l by (eapply lookup_lt_Some; exact Hdst). exact Hdst. }
      destruct (putHealthMap_ok h1 dst service c Hh1) as (dm0 & Hdm0 & Hput & Hh2 & E2).
      { eapply holds_lookup in Hdst1. exact Hdst1. }
      { eapply holds_lookup in Hc1. exact Hc1. }
      assert (dm0 = dm) by congruence. subst dm0.
      set (h2 := <[dst := ObjHealthMap (<[service := c]> dm)]> h1) in *.
      assert (Hdst2 : h2 !! dst = Some (ObjHealthMap (<[service := c]> dm))).
      { unfold h2. apply list_lookup_insert_eq. eapply lookup_lt_Some. exact Hdst1. }
      destruct (IH h2 (<[service := c]> dm) Hh2 Hdst2)
        as (h' & dm' & Hrun & Hh' & E & Hdst' & Hfr & Hview).
      assert (Hlen1 : length h1 = S (length h)).
      { unfold h1. rewrite length_app. simpl. lia. }
      assert (Hlen2 : length h2 = S (length h)).
      { unfold h2. rewrite length_insert. exact Hlen1. }
      assert (Hat2 : forall x, (x < length h)%nat -> healthAt h2 x = healthAt h x).
      { intros x Hx. unfold h2. rewrite healthAt_write_map.
        - apply healthAt_alloc. exact Hx.
        - eapply holds_lookup in Hdst1. exact Hdst1. }
      assert (Hatc : healthAt h2 c = Some unknown).
      { unfold h2. rewrite healthAt_write_map.
        - apply healthAt_Some. exact Hc1.
        - eapply holds_lookup in Hdst1. exact Hdst1. }
      exists h', dm'. split.
      { assert (Hstep : (x ← new (ObjHealth unknown); putHealthMap dst service x) h =
                          Some (tt, h2)).
        { rewrite (bind_Some _ _ h c h1) by reflexivity. exact Hput. }
        rewrite (bind_Some _ _ _ _ _ Hstep). exact Hrun. }
      split; [exact Hh'|].
      split; [eapply extends_trans; [exact E1|]; eapply extends_trans; eassumption|].
      split; [exact Hdst'|].
      split.
      { intros x Hx Hne. rewrite Hfr by (try rewrite Hlen2; try lia; exact Hne).
        unfold h2. rewrite list_lookup_insert_ne by congruence.
        unfold h1. apply lookup_app_l. exact Hx. }
      intros s. rewrite Hview.
      destruct (decide (s = service)) as [->|Hne].
      * rewrite lookup_insert_eq, Hl. simpl. rewrite Hatc.
        destruct (decide (service ∈ service :: rest)) as [_|Hnin]; [reflexivity|].
        exfalso. apply Hnin. apply elem_of_cons. left. reflexivity.
      * rewrite lookup_insert_ne by congruence.
        assert (Hsame : dm !! s ≫= healthAt h2 = dm !! s ≫= healthAt h).
        { destruct (dm !! s) as [x|] eqn:Hx; [|reflexivity]. simpl. apply Hat2.
          pose proof (Hh _ _ Hdst) as Hok. simpl in Hok.
          destruct (Hok _ _ Hx) as (o & Ho & _). eapply lookup_lt_Some. exact Ho. }
        rewrite Hsame. destruct (dm !! s ≫= healthAt h); [reflexivity|].
        destruct (decide (s ∈ rest)) as [Hin|Hnin];
          destruct (decide (s ∈ service :: rest)) as [Hin'|Hnin']; try reflexivity.
        -- exfalso. apply Hnin'. apply elem_of_cons. right. exact Hin.
        -- exfalso. apply elem_of_cons in Hin' as [->|Hin']; [congruence | apply Hnin; exact Hin'].
Qed.

(** [GetServicesStatus] in a well-formed state. *)
Lemma GetServicesStatus_ok gp nowFor (h : heap) :
  wellFormed gp h ->
  exists r h' statuses,
    GetServicesStatus gp nowFor h = Some (r, h') /\
    wellFormed gp h' /\
    statusView h' r = Some statuses /\
    (forall service,
       statuses !! service =
         match storedHealth gp h service with
         | Some result => Some result
         | None =>
             match services gp !! service with
             | Some _ =>
                 Some (mkHealthCheckResult service "unknown" "" 0 "" (nowFor service))
             | None => None
             end
         end) /\
    (forall x, (x < length h)%nat -> h' !! x = h !! x).
Proof.
  intros Hwf. pose proof Hwf as (Hh & Hm & Hs).
  destruct (holds_HealthMap _ _ Hs) as [hs Hhs].
  set (n0 := length h).
  set (ha := h ++ [ObjHealthMap ∅]).
  assert (Ea : extends h ha) by apply extends_alloc.
  assert (Hha : heapOK ha).
  { apply heapOK_alloc; [exact Hh|]. simpl. intros s x Hx.
    rewrite lookup_empty in Hx. discriminate. }
  assert (Ha0 : ha !! n0 = Some (ObjHealthMap ∅)).
  { unfold ha, n0. rewrite lookup_app_r by lia. rewrite Nat.sub_diag. reflexivity. }
  assert (Hfra : forall x, (x < n0)%nat -> ha !! x = h !! x).
  { intros x Hx. unfold ha. apply lookup_app_l. exact Hx. }
  assert (Hlena : length ha = S n0).
  { unfold ha. rewrite length_app. simpl. unfold n0. lia. }
  destruct (copyHealthStats_ok n0 (map_to_list hs) ha ∅ Hha Ha0)
    as (hb & dm & Hrunb & Hhb & Eb & Hdstb & Hfrb & _ & HAb & HBb & _).
  { apply map_to_list_holds. intros s l Hl. eapply holds_extends; [exact Ea|].
    pose proof (Hh _ _ Hhs) as Hok. simpl in Hok. eapply Hok. exact Hl. }
  { apply NoDup_fst_map_to_list. }
  destruct (addUnknown_ok n0 nowFor (map_to_list (services gp)).*1 hb dm Hhb Hdstb)
    as (hc & dm' & Hrunc & Hhc & Ec & Hdstc & Hfrc & Hview).
  assert (Hlenb : (length ha <= length hb)%nat) by apply Eb.
  assert (E : extends h hc).
  { eapply extends_trans; [exact Ea|]. eapply extends_trans; eassumption. }
  exists n0, hc. eexists. split.
  { unfold GetServicesStatus.
    rewrite (bind_Some _ _ _ _ _ (readHealthMap_Some _ _ _ Hhs)).
    rewrite (bind_Some _ _ h n0 ha) by reflexivity.
    rewrite (bind_Some _ _ _ _ _ Hrunb).
    rewrite (bind_Some _ _ _ _ _ Hrunc). reflexivity. }
  split; [eapply wellFormed_extends; eassumption|].
  split; [unfold statusView; rewrite Hdstc; reflexivity|].
  split.
  - intros service. rewrite lookup_omap, Hview.
    assert (Hcopy : dm !! service ≫= healthAt hb = storedHealth gp h service).
    { unfold storedHealth. rewrite Hhs.
      destruct (hs !! service) as [l|] eqn:Hl.
      - assert (Hin : (service, l) ∈ map_to_list hs) by (apply elem_of_map_to_list; exact Hl).
        rewrite (HAb service l Hin). simpl.
        pose proof (Hh _ _ Hhs) as Hok. simpl in Hok.
        destruct (Hok _ _ Hl) as (o & Ho & _).
        unfold healthAt. rewrite Hfra by (eapply lookup_lt_Some; exact Ho). reflexivity.
      - rewrite HBb, lookup_empty; [reflexivity|].
        intros Hin. apply list_elem_of_fmap in Hin as ([s' l'] & -> & Hin).
        apply elem_of_map_to_list in Hin. simpl in Hl. congruence. }
    rewrite Hcopy. destruct (storedHealth gp h service); [reflexivity|].
    destruct (decide (service ∈ (map_to_list (services gp)).*1)) as [Hin|Hnin].
    + apply list_elem_of_fmap in Hin as ([s' info] & -> & Hin).
      apply elem_of_map_to_list in Hin. simpl. rewrite Hin. reflexivity.
    + destruct (services gp !! service) as [info|] eqn:Hinfo; [|reflexivity].
      exfalso. apply Hnin. apply list_elem_of_fmap. exists (service, info).
      split; [reflexivity|]. apply elem_of_map_to_list. exact Hinfo.
  - intros x Hx. rewrite Hfrc by (unfold n0 in *; lia).
    rewrite Hfrb by (unfold n0 in *; lia). apply Hfra. exact Hx.
Qed.

End StatusFacts.

Module StatusTheorems.
Import GoInt Float64 Clock Http Processor ProcessorFacts Routes ProxyFacts StatusFacts.

(** X20: in every state the processor gets into, [GetServicesStatus]
    returns a map that lists, for each service, the health result stored
    for it if there is one, and otherwise, if the service is registered, an
    entry of status "unknown" stamped with the time of the call; it lists
    nothing else, and it leaves every object of the live state as it
    was. *)
Theorem GetServicesStatus_lists_every_service gp h nowFor :
  reachable gp h ->
  exists r h' statuses,
    GetServicesStatus gp nowFor h = Some (r, h') /\
    statusView h' r = Some statuses /\
    (forall service,
       statuses !! service =
         match storedHealth gp h service with
         | Some result => Some result
         | None =>
             match services gp !! service with
             | Some _ =>
                 Some (mkHealthCheckResult service "unknown" "" 0 "" (nowFor service))
             | None => None
             end
         end) /\
    (forall x, (x < length h)%nat -> h' !! x = h !! x).
Proof.
  intros Hr. destruct (reachable_ok gp h Hr) as [Hwf _].
  destruct (GetServicesStatus_ok gp nowFor h Hwf) as (r & h' & statuses & Hrun & _ & H).
  exists r, h', statuses. auto.
Qed.

Lemma GetServicesStatus_lists_every_service_witness :
  exists r h' statuses,
    GetServicesStatus example_gp (fun _ => 2000) example_heap = Some (r, h') /\
    statusView h' r = Some statuses /\
    (forall service,
       statuses !! service =
         match storedHealth example_gp example_heap service with
         | Some result => Some result
         | None =>
             match services example_gp !! service with
             | Some _ => Some (mkHealthCheckResult service "unknown" "" 0 "" 2000)
             | None => None
             end
         end) /\
    (forall x, (x < length example_heap)%nat -> h' !! x = example_heap !! x).
Proof.
  apply (GetServicesStatus_lists_every_service example_gp example_heap (fun _ => 2000)).
  exists 0, example_registry, [], example_heap. split; vm_compute; reflexivity.
Defined.

End StatusTheorems.
